(** * Cosmic Drift: the frame simulation of [src/game.js]

    A shallow embedding of the [Game] class of [src/game.js]: the run state,
    the per-frame [update], the damage and collection procedures, the spawn
    director, the difficulty schedule, the autonomous pilot ([updateBot])
    and the ship shop ([setupShipSelection]), followed by the properties of
    the written specification that concern them and by further properties
    of the loops of [update], of the spawn procedures, of pause and resume,
    of the high score, of the coins and of the shop.

    Presentation code (canvas drawing, DOM and HUD updates, [localStorage],
    the particle and trail lists, the bullet trails) has no effect on the
    simulation and is left out; [createExplosion] is kept only for the
    random numbers it consumes. *)

From Stdlib Require Import QArith Qround ZArith Lqa Lia List Bool.
Import ListNotations.

Set Implicit Arguments.

(** ** JavaScript numbers

    Every number of the program is a JavaScript number.  They are modelled
    as exact rationals extended with [NaN] and the two infinities, with the
    IEEE rules for the exceptional values: [0/0] is [NaN], a non-zero value
    over zero is infinite, every comparison with [NaN] is false, [Math.min]
    and [Math.max] propagate [NaN].  Rounding is not modelled (finite
    arithmetic is exact) and neither is the sign of zero (a zero divisor
    counts as [+0]).  Where a property bounds a computed value the bound is
    inclusive, and sums are claimed equal for whole numbers up to 2^53
    only, the range in which binary64 arithmetic is exact as well; the
    worked scenarios at the end are evaluated in the exact arithmetic. *)

Inductive num : Type :=
| NaN
| NegInfinity
| Fin (q : Q)
| Infinity.

Coercion Fin : Q >-> num.

Declare Scope num_scope.
Delimit Scope num_scope with num.
Bind Scope num_scope with num.

Module Num.

(** Finite results are kept in lowest terms, so that equal values are
    equal terms. *)
Definition fin (q : Q) : num := Fin (Qred q).

Definition Qltb (a b : Q) : bool := negb (Qle_bool b a).

Definition signed_inf (c : comparison) : num :=
  match c with Lt => NegInfinity | Eq => NaN | Gt => Infinity end.

Definition neg (x : num) : num :=
  match x with
  | NaN => NaN
  | NegInfinity => Infinity
  | Infinity => NegInfinity
  | Fin a => fin (- a)
  end.

Definition add (x y : num) : num :=
  match x, y with
  | NaN, _ | _, NaN => NaN
  | Fin a, Fin b => fin (a + b)
  | Infinity, NegInfinity | NegInfinity, Infinity => NaN
  | Infinity, _ | _, Infinity => Infinity
  | NegInfinity, _ | _, NegInfinity => NegInfinity
  end.

Definition sub (x y : num) : num := add x (neg y).

Definition mul (x y : num) : num :=
  match x, y with
  | NaN, _ | _, NaN => NaN
  | Fin a, Fin b => fin (a * b)
  | Fin a, Infinity | Infinity, Fin a => signed_inf (a ?= 0)
  | Fin a, NegInfinity | NegInfinity, Fin a => signed_inf (0 ?= a)
  | Infinity, Infinity | NegInfinity, NegInfinity => Infinity
  | Infinity, NegInfinity | NegInfinity, Infinity => NegInfinity
  end.

Definition div (x y : num) : num :=
  match x, y with
  | NaN, _ | _, NaN => NaN
  | Fin a, Fin b =>
      if Qeq_bool b 0 then signed_inf (a ?= 0) else fin (a / b)
  | Fin _, (Infinity | NegInfinity) => Fin 0
  | Infinity, Fin b => if Qltb b 0 then NegInfinity else Infinity
  | NegInfinity, Fin b => if Qltb b 0 then Infinity else NegInfinity
  | (Infinity | NegInfinity), (Infinity | NegInfinity) => NaN
  end.

(** [x < y]; [x > y] is [ltb y x]. *)
Definition ltb (x y : num) : bool :=
  match x, y with
  | NaN, _ | _, NaN => false
  | Fin a, Fin b => Qltb a b
  | _, NegInfinity => false
  | NegInfinity, _ => true
  | Infinity, _ => false
  | Fin _, Infinity => true
  end.

(** [x <= y]; [x >= y] is [leb y x]. *)
Definition leb (x y : num) : bool :=
  match x, y with
  | NaN, _ | _, NaN => false
  | Fin a, Fin b => Qle_bool a b
  | NegInfinity, _ => true
  | _, Infinity => true
  | _, NegInfinity => false
  | Infinity, _ => false
  end.

(** [x === y] on numbers. *)
Definition eqb (x y : num) : bool :=
  match x, y with
  | Fin a, Fin b => Qeq_bool a b
  | Infinity, Infinity | NegInfinity, NegInfinity => true
  | _, _ => false
  end.

Definition isNaN (x : num) : bool :=
  match x with NaN => true | _ => false end.

Definition isFinite (x : num) : bool :=
  match x with Fin _ => true | _ => false end.

(** [Math.min] and [Math.max] of two arguments. *)
Definition min (x y : num) : num :=
  match x, y with
  | NaN, _ | _, NaN => NaN
  | _, _ => if ltb y x then y else x
  end.

Definition max (x y : num) : num :=
  match x, y with
  | NaN, _ | _, NaN => NaN
  | _, _ => if ltb x y then y else x
  end.

(** [Math.floor]. *)
Definition floor (x : num) : num :=
  match x with
  | Fin a => Fin (inject_Z (Qfloor a))
  | _ => x
  end.

(** The square root of a non-negative rational, cut after eight decimals
    (exact on the squares of rationals, and positive on positive
    arguments). *)
Definition sqrt_digits : Z := 100000000.

Definition Qsqrt (a : Q) : Q :=
  Qred (Z.sqrt (Qnum a * Zpos (Qden a) * (sqrt_digits * sqrt_digits))
        # (Qden a * Z.to_pos sqrt_digits)).

(** [Math.sqrt]. *)
Definition sqrt (x : num) : num :=
  match x with
  | NaN | NegInfinity => NaN
  | Infinity => Infinity
  | Fin a => if Qltb a 0 then NaN else Fin (Qsqrt a)
  end.

(** [Math.hypot] of two arguments: infinite as soon as one argument is,
    even when the other is [NaN]. *)
Definition hypot (x y : num) : num :=
  match x, y with
  | (Infinity | NegInfinity), _ | _, (Infinity | NegInfinity) => Infinity
  | _, _ => sqrt (add (mul x x) (mul y y))
  end.

End Num.

Notation "x + y" := (Num.add x y) : num_scope.
Notation "x - y" := (Num.sub x y) : num_scope.
Notation "x * y" := (Num.mul x y) : num_scope.
Notation "x / y" := (Num.div x y) : num_scope.
Notation "- x" := (Num.neg x) : num_scope.
Notation "x <? y" := (Num.ltb x y) : num_scope.
Notation "x >? y" := (Num.ltb y x) : num_scope.
Notation "x <=? y" := (Num.leb x y) : num_scope.
Notation "x >=? y" := (Num.leb y x) : num_scope.
Notation "x =? y" := (Num.eqb x y) : num_scope.

(** Propositional forms of the comparisons. *)
Notation "x < y" := (Num.ltb x y = true) : num_scope.
Notation "x <= y" := (Num.leb x y = true) : num_scope.
Notation "x <= y <= z" := (Num.leb x y = true /\ Num.leb y z = true) : num_scope.
Notation "x <= y < z" := (Num.leb x y = true /\ Num.ltb y z = true) : num_scope.

Definition Math_min := Num.min.
Definition Math_max := Num.max.
Definition Math_floor := Num.floor.
Definition Math_sqrt := Num.sqrt.
Definition Math_hypot := Num.hypot.

Open Scope Q_scope.
Open Scope num_scope.

(** ** Data model *)

Set Primitive Projections.

(** The craft classes of [shipTypes]. *)
Inductive ship : Type := speeder | balanced | tank.

Module ShipType.
Record t : Type := mk {
  maxSpeed : num;
  thrust : num;
  friction : num;
  maxHP : num;
  price : num
}.
End ShipType.

Definition shipTypes (id : ship) : ShipType.t :=
  match id with
  | speeder => ShipType.mk 12 1.2 0.85 1 100
  | balanced => ShipType.mk 8 1.0 0.88 2 400
  | tank => ShipType.mk 5 1.1 0.90 3 600
  end.

(** The [type] tag of a collectible; [spawnCollectible] produces no other
    tag than these four. *)
Module ItemType.
Inductive t : Type := energy | points | multiplier | shield.
End ItemType.

(** The object [this.player]. *)
Module Player.
Record t : Type := mk {
  x : num;
  y : num;
  vx : num;
  vy : num;
  radius : num;
  angle : num;
  thrust : num;
  maxSpeed : num;
  friction : num;
  boosting : bool;
  invincible : bool;
  invincibleTimer : num;
  shipType : ship
}.

Definition set_x (v : num) (p : t) : t :=
  let 'mk _ a1 a2 a3 a4 a5 a6 a7 a8 a9 a10 a11 a12 := p in
  mk v a1 a2 a3 a4 a5 a6 a7 a8 a9 a10 a11 a12.
Definition set_y (v : num) (p : t) : t :=
  let 'mk a0 _ a2 a3 a4 a5 a6 a7 a8 a9 a10 a11 a12 := p in
  mk a0 v a2 a3 a4 a5 a6 a7 a8 a9 a10 a11 a12.
Definition set_vx (v : num) (p : t) : t :=
  let 'mk a0 a1 _ a3 a4 a5 a6 a7 a8 a9 a10 a11 a12 := p in
  mk a0 a1 v a3 a4 a5 a6 a7 a8 a9 a10 a11 a12.
Definition set_vy (v : num) (p : t) : t :=
  let 'mk a0 a1 a2 _ a4 a5 a6 a7 a8 a9 a10 a11 a12 := p in
  mk a0 a1 a2 v a4 a5 a6 a7 a8 a9 a10 a11 a12.
Definition set_angle (v : num) (p : t) : t :=
  let 'mk a0 a1 a2 a3 a4 _ a6 a7 a8 a9 a10 a11 a12 := p in
  mk a0 a1 a2 a3 a4 v a6 a7 a8 a9 a10 a11 a12.
Definition set_boosting (v : bool) (p : t) : t :=
  let 'mk a0 a1 a2 a3 a4 a5 a6 a7 a8 _ a10 a11 a12 := p in
  mk a0 a1 a2 a3 a4 a5 a6 a7 a8 v a10 a11 a12.
Definition set_invincible (v : bool) (p : t) : t :=
  let 'mk a0 a1 a2 a3 a4 a5 a6 a7 a8 a9 _ a11 a12 := p in
  mk a0 a1 a2 a3 a4 a5 a6 a7 a8 a9 v a11 a12.
Definition set_invincibleTimer (v : num) (p : t) : t :=
  let 'mk a0 a1 a2 a3 a4 a5 a6 a7 a8 a9 a10 _ a12 := p in
  mk a0 a1 a2 a3 a4 a5 a6 a7 a8 a9 a10 v a12.
End Player.

Module Collectible.
Record t : Type := mk {
  x : num;
  y : num;
  vx : num;
  vy : num;
  radius : num;
  type : ItemType.t;
  pulse : num;
  lifetime : num
}.
End Collectible.

(** A gravity well; [radius] is its event horizon. *)
Module BlackHole.
Record t : Type := mk {
  x : num;
  y : num;
  radius : num;
  pullRadius : num;
  strength : num;
  rotation : num;
  lifetime : num;
  maxLifetime : num;
  shootTimer : num;
  shootInterval : num
}.
End BlackHole.

Module Bullet.
Record t : Type := mk {
  x : num;
  y : num;
  vx : num;
  vy : num;
  radius : num;
  life : num
}.
End Bullet.

(** The fields of the [Game] object that the simulation reads or writes.
    [keysSpace] is [this.keys['Space']], [canvasWidth] and [canvasHeight]
    are [this.canvas.width] and [this.canvas.height], and [randomCalls]
    counts the calls made to [Math.random] so far. *)
Record Game : Type := mkGame {
  isRunning : bool;
  isPaused : bool;
  score : num;
  level : num;
  multiplier : num;
  energy : num;
  highScore : num;
  keysSpace : bool;
  mouseX : num;
  mouseY : num;
  mouseDown : bool;
  player : option Player.t;
  collectibles : list Collectible.t;
  blackHoles : list BlackHole.t;
  bullets : list Bullet.t;
  botEnabled : bool;
  lastTime : num;
  deltaTime : num;
  spawnTimer : num;
  difficultyTimer : num;
  selectedShip : ship;
  hp : num;
  maxHP : num;
  coins : num;
  sessionCoins : num;
  canvasWidth : num;
  canvasHeight : num;
  randomCalls : nat
}.

(** Field assignments [this.f = v]. *)
Definition set_isRunning (v : bool) (g : Game) : Game :=
  let 'mkGame _ a1 a2 a3 a4 a5 a6 a7 a8 a9 a10 a11 a12 a13 a14 a15 a16 a17
    a18 a19 a20 a21 a22 a23 a24 a25 a26 a27 := g in
  mkGame v a1 a2 a3 a4 a5 a6 a7 a8 a9 a10 a11 a12 a13 a14 a15 a16 a17 a18
    a19 a20 a21 a22 a23 a24 a25 a26 a27.
Definition set_isPaused (v : bool) (g : Game) : Game :=
  let 'mkGame a0 _ a2 a3 a4 a5 a6 a7 a8 a9 a10 a11 a12 a13 a14 a15 a16 a17
    a18 a19 a20 a21 a22 a23 a24 a25 a26 a27 := g in
  mkGame a0 v a2 a3 a4 a5 a6 a7 a8 a9 a10 a11 a12 a13 a14 a15 a16 a17 a18
    a19 a20 a21 a22 a23 a24 a25 a26 a27.
Definition set_score (v : num) (g : Game) : Game :=
  let 'mkGame a0 a1 _ a3 a4 a5 a6 a7 a8 a9 a10 a11 a12 a13 a14 a15 a16 a17
    a18 a19 a20 a21 a22 a23 a24 a25 a26 a27 := g in
  mkGame a0 a1 v a3 a4 a5 a6 a7 a8 a9 a10 a11 a12 a13 a14 a15 a16 a17 a18
    a19 a20 a21 a22 a23 a24 a25 a26 a27.
Definition set_level (v : num) (g : Game) : Game :=
  let 'mkGame a0 a1 a2 _ a4 a5 a6 a7 a8 a9 a10 a11 a12 a13 a14 a15 a16 a17
    a18 a19 a20 a21 a22 a23 a24 a25 a26 a27 := g in
  mkGame a0 a1 a2 v a4 a5 a6 a7 a8 a9 a10 a11 a12 a13 a14 a15 a16 a17 a18
    a19 a20 a21 a22 a23 a24 a25 a26 a27.
Definition set_multiplier (v : num) (g : Game) : Game :=
  let 'mkGame a0 a1 a2 a3 _ a5 a6 a7 a8 a9 a10 a11 a12 a13 a14 a15 a16 a17
    a18 a19 a20 a21 a22 a23 a24 a25 a26 a27 := g in
  mkGame a0 a1 a2 a3 v a5 a6 a7 a8 a9 a10 a11 a12 a13 a14 a15 a16 a17 a18
    a19 a20 a21 a22 a23 a24 a25 a26 a27.
Definition set_energy (v : num) (g : Game) : Game :=
  let 'mkGame a0 a1 a2 a3 a4 _ a6 a7 a8 a9 a10 a11 a12 a13 a14 a15 a16 a17
    a18 a19 a20 a21 a22 a23 a24 a25 a26 a27 := g in
  mkGame a0 a1 a2 a3 a4 v a6 a7 a8 a9 a10 a11 a12 a13 a14 a15 a16 a17 a18
    a19 a20 a21 a22 a23 a24 a25 a26 a27.
Definition set_highScore (v : num) (g : Game) : Game :=
  let 'mkGame a0 a1 a2 a3 a4 a5 _ a7 a8 a9 a10 a11 a12 a13 a14 a15 a16 a17
    a18 a19 a20 a21 a22 a23 a24 a25 a26 a27 := g in
  mkGame a0 a1 a2 a3 a4 a5 v a7 a8 a9 a10 a11 a12 a13 a14 a15 a16 a17 a18
    a19 a20 a21 a22 a23 a24 a25 a26 a27.
Definition set_keysSpace (v : bool) (g : Game) : Game :=
  let 'mkGame a0 a1 a2 a3 a4 a5 a6 _ a8 a9 a10 a11 a12 a13 a14 a15 a16 a17
    a18 a19 a20 a21 a22 a23 a24 a25 a26 a27 := g in
  mkGame a0 a1 a2 a3 a4 a5 a6 v a8 a9 a10 a11 a12 a13 a14 a15 a16 a17 a18
    a19 a20 a21 a22 a23 a24 a25 a26 a27.
Definition set_mouseX (v : num) (g : Game) : Game :=
  let 'mkGame a0 a1 a2 a3 a4 a5 a6 a7 _ a9 a10 a11 a12 a13 a14 a15 a16 a17
    a18 a19 a20 a21 a22 a23 a24 a25 a26 a27 := g in
  mkGame a0 a1 a2 a3 a4 a5 a6 a7 v a9 a10 a11 a12 a13 a14 a15 a16 a17 a18
    a19 a20 a21 a22 a23 a24 a25 a26 a27.
Definition set_mouseY (v : num) (g : Game) : Game :=
  let 'mkGame a0 a1 a2 a3 a4 a5 a6 a7 a8 _ a10 a11 a12 a13 a14 a15 a16 a17
    a18 a19 a20 a21 a22 a23 a24 a25 a26 a27 := g in
  mkGame a0 a1 a2 a3 a4 a5 a6 a7 a8 v a10 a11 a12 a13 a14 a15 a16 a17 a18
    a19 a20 a21 a22 a23 a24 a25 a26 a27.
Definition set_mouseDown (v : bool) (g : Game) : Game :=
  let 'mkGame a0 a1 a2 a3 a4 a5 a6 a7 a8 a9 _ a11 a12 a13 a14 a15 a16 a17
    a18 a19 a20 a21 a22 a23 a24 a25 a26 a27 := g in
  mkGame a0 a1 a2 a3 a4 a5 a6 a7 a8 a9 v a11 a12 a13 a14 a15 a16 a17 a18
    a19 a20 a21 a22 a23 a24 a25 a26 a27.
Definition set_player (v : option Player.t) (g : Game) : Game :=
  let 'mkGame a0 a1 a2 a3 a4 a5 a6 a7 a8 a9 a10 _ a12 a13 a14 a15 a16 a17
    a18 a19 a20 a21 a22 a23 a24 a25 a26 a27 := g in
  mkGame a0 a1 a2 a3 a4 a5 a6 a7 a8 a9 a10 v a12 a13 a14 a15 a16 a17 a18
    a19 a20 a21 a22 a23 a24 a25 a26 a27.
Definition set_collectibles (v : list Collectible.t) (g : Game) : Game :=
  let 'mkGame a0 a1 a2 a3 a4 a5 a6 a7 a8 a9 a10 a11 _ a13 a14 a15 a16 a17
    a18 a19 a20 a21 a22 a23 a24 a25 a26 a27 := g in
  mkGame a0 a1 a2 a3 a4 a5 a6 a7 a8 a9 a10 a11 v a13 a14 a15 a16 a17 a18
    a19 a20 a21 a22 a23 a24 a25 a26 a27.
Definition set_blackHoles (v : list BlackHole.t) (g : Game) : Game :=
  let 'mkGame a0 a1 a2 a3 a4 a5 a6 a7 a8 a9 a10 a11 a12 _ a14 a15 a16 a17
    a18 a19 a20 a21 a22 a23 a24 a25 a26 a27 := g in
  mkGame a0 a1 a2 a3 a4 a5 a6 a7 a8 a9 a10 a11 a12 v a14 a15 a16 a17 a18
    a19 a20 a21 a22 a23 a24 a25 a26 a27.
Definition set_bullets (v : list Bullet.t) (g : Game) : Game :=
  let 'mkGame a0 a1 a2 a3 a4 a5 a6 a7 a8 a9 a10 a11 a12 a13 _ a15 a16 a17
    a18 a19 a20 a21 a22 a23 a24 a25 a26 a27 := g in
  mkGame a0 a1 a2 a3 a4 a5 a6 a7 a8 a9 a10 a11 a12 a13 v a15 a16 a17 a18
    a19 a20 a21 a22 a23 a24 a25 a26 a27.
Definition set_botEnabled (v : bool) (g : Game) : Game :=
  let 'mkGame a0 a1 a2 a3 a4 a5 a6 a7 a8 a9 a10 a11 a12 a13 a14 _ a16 a17
    a18 a19 a20 a21 a22 a23 a24 a25 a26 a27 := g in
  mkGame a0 a1 a2 a3 a4 a5 a6 a7 a8 a9 a10 a11 a12 a13 a14 v a16 a17 a18
    a19 a20 a21 a22 a23 a24 a25 a26 a27.
Definition set_lastTime (v : num) (g : Game) : Game :=
  let 'mkGame a0 a1 a2 a3 a4 a5 a6 a7 a8 a9 a10 a11 a12 a13 a14 a15 _ a17
    a18 a19 a20 a21 a22 a23 a24 a25 a26 a27 := g in
  mkGame a0 a1 a2 a3 a4 a5 a6 a7 a8 a9 a10 a11 a12 a13 a14 a15 v a17 a18
    a19 a20 a21 a22 a23 a24 a25 a26 a27.
Definition set_deltaTime (v : num) (g : Game) : Game :=
  let 'mkGame a0 a1 a2 a3 a4 a5 a6 a7 a8 a9 a10 a11 a12 a13 a14 a15 a16 _
    a18 a19 a20 a21 a22 a23 a24 a25 a26 a27 := g in
  mkGame a0 a1 a2 a3 a4 a5 a6 a7 a8 a9 a10 a11 a12 a13 a14 a15 a16 v a18
    a19 a20 a21 a22 a23 a24 a25 a26 a27.
Definition set_spawnTimer (v : num) (g : Game) : Game :=
  let 'mkGame a0 a1 a2 a3 a4 a5 a6 a7 a8 a9 a10 a11 a12 a13 a14 a15 a16
    a17 _ a19 a20 a21 a22 a23 a24 a25 a26 a27 := g in
  mkGame a0 a1 a2 a3 a4 a5 a6 a7 a8 a9 a10 a11 a12 a13 a14 a15 a16 a17 v
    a19 a20 a21 a22 a23 a24 a25 a26 a27.
Definition set_difficultyTimer (v : num) (g : Game) : Game :=
  let 'mkGame a0 a1 a2 a3 a4 a5 a6 a7 a8 a9 a10 a11 a12 a13 a14 a15 a16
    a17 a18 _ a20 a21 a22 a23 a24 a25 a26 a27 := g in
  mkGame a0 a1 a2 a3 a4 a5 a6 a7 a8 a9 a10 a11 a12 a13 a14 a15 a16 a17 a18
    v a20 a21 a22 a23 a24 a25 a26 a27.
Definition set_hp (v : num) (g : Game) : Game :=
  let 'mkGame a0 a1 a2 a3 a4 a5 a6 a7 a8 a9 a10 a11 a12 a13 a14 a15 a16
    a17 a18 a19 a20 _ a22 a23 a24 a25 a26 a27 := g in
  mkGame a0 a1 a2 a3 a4 a5 a6 a7 a8 a9 a10 a11 a12 a13 a14 a15 a16 a17 a18
    a19 a20 v a22 a23 a24 a25 a26 a27.
Definition set_maxHP (v : num) (g : Game) : Game :=
  let 'mkGame a0 a1 a2 a3 a4 a5 a6 a7 a8 a9 a10 a11 a12 a13 a14 a15 a16
    a17 a18 a19 a20 a21 _ a23 a24 a25 a26 a27 := g in
  mkGame a0 a1 a2 a3 a4 a5 a6 a7 a8 a9 a10 a11 a12 a13 a14 a15 a16 a17 a18
    a19 a20 a21 v a23 a24 a25 a26 a27.
Definition set_coins (v : num) (g : Game) : Game :=
  let 'mkGame a0 a1 a2 a3 a4 a5 a6 a7 a8 a9 a10 a11 a12 a13 a14 a15 a16
    a17 a18 a19 a20 a21 a22 _ a24 a25 a26 a27 := g in
  mkGame a0 a1 a2 a3 a4 a5 a6 a7 a8 a9 a10 a11 a12 a13 a14 a15 a16 a17 a18
    a19 a20 a21 a22 v a24 a25 a26 a27.
Definition set_sessionCoins (v : num) (g : Game) : Game :=
  let 'mkGame a0 a1 a2 a3 a4 a5 a6 a7 a8 a9 a10 a11 a12 a13 a14 a15 a16
    a17 a18 a19 a20 a21 a22 a23 _ a25 a26 a27 := g in
  mkGame a0 a1 a2 a3 a4 a5 a6 a7 a8 a9 a10 a11 a12 a13 a14 a15 a16 a17 a18
    a19 a20 a21 a22 a23 v a25 a26 a27.
Definition set_canvasWidth (v : num) (g : Game) : Game :=
  let 'mkGame a0 a1 a2 a3 a4 a5 a6 a7 a8 a9 a10 a11 a12 a13 a14 a15 a16
    a17 a18 a19 a20 a21 a22 a23 a24 _ a26 a27 := g in
  mkGame a0 a1 a2 a3 a4 a5 a6 a7 a8 a9 a10 a11 a12 a13 a14 a15 a16 a17 a18
    a19 a20 a21 a22 a23 a24 v a26 a27.
Definition set_canvasHeight (v : num) (g : Game) : Game :=
  let 'mkGame a0 a1 a2 a3 a4 a5 a6 a7 a8 a9 a10 a11 a12 a13 a14 a15 a16
    a17 a18 a19 a20 a21 a22 a23 a24 a25 _ a27 := g in
  mkGame a0 a1 a2 a3 a4 a5 a6 a7 a8 a9 a10 a11 a12 a13 a14 a15 a16 a17 a18
    a19 a20 a21 a22 a23 a24 a25 v a27.
Definition set_randomCalls (v : nat) (g : Game) : Game :=
  let 'mkGame a0 a1 a2 a3 a4 a5 a6 a7 a8 a9 a10 a11 a12 a13 a14 a15 a16
    a17 a18 a19 a20 a21 a22 a23 a24 a25 a26 _ := g in
  mkGame a0 a1 a2 a3 a4 a5 a6 a7 a8 a9 a10 a11 a12 a13 a14 a15 a16 a17 a18
    a19 a20 a21 a22 a23 a24 a25 a26 v.

Unset Primitive Projections.

(** ** The simulation *)

Section Simulation.

(** The outside world: [random n] is the value returned by the [n]-th call
    of [Math.random]; [Math.sin], [Math.cos] and [Math.atan2] are left
    unspecified. *)
Variable random : nat -> num.
Variables Math_sin Math_cos : num -> num.
Variable Math_atan2 : num -> num -> num.

Definition Math_random (g : Game) : num * Game :=
  (random (randomCalls g), set_randomCalls (S (randomCalls g)) g).

(** [createExplosion] pushes [count] cosmetic particles, drawing four
    random numbers for each. *)
Definition createExplosion (count : nat) (g : Game) : Game :=
  set_randomCalls (randomCalls g + 4 * count) g.

Definition length_num (A : Type) (l : list A) : num :=
  Fin (inject_Z (Z.of_nat (length l))).

(** *** Economy *)

Definition addCoins (amount : num) (g : Game) : Game :=
  let g := set_coins (coins g + amount) g in
  set_sessionCoins (sessionCoins g + amount) g.

(** *** Run start *)

Definition createPlayer (g : Game) : Game :=
  let shipType := shipTypes (selectedShip g) in
  let g := set_maxHP (ShipType.maxHP shipType) g in
  let g := set_hp (maxHP g) g in
  set_player
    (Some {| Player.x := canvasWidth g / 2;
             Player.y := canvasHeight g / 2;
             Player.vx := 0;
             Player.vy := 0;
             Player.radius := 15;
             Player.angle := 0;
             Player.thrust := ShipType.thrust shipType;
             Player.maxSpeed := ShipType.maxSpeed shipType;
             Player.friction := ShipType.friction shipType;
             Player.boosting := false;
             Player.invincible := false;
             Player.invincibleTimer := 0;
             Player.shipType := selectedShip g |}) g.

(** *** Damage

    The procedures that dereference [this.player] without a test take the
    player object as an argument and return it; [update] calls them only
    once it has checked that there is a player. *)

Definition takeDamage (g : Game) (p : Player.t) : Game * Player.t * bool :=
  if Player.invincible p then (g, p, false)
  else
    let g := set_hp (hp g - 1) g in
    let g := createExplosion 20 g in
    if hp g <=? 0 then (g, p, true)
    else
      let p := Player.set_invincible true p in
      let p := Player.set_invincibleTimer 120 p in
      (g, p, false).

Definition gameOver (g : Game) : Game :=
  let g := set_isRunning false g in
  let g := if score g >? highScore g then set_highScore (score g) g else g in
  createExplosion 50 g.

(** *** Collection effects *)

Definition basePoints : num := 100.

Definition collectItem (item : Collectible.t) (g : Game) (p : Player.t)
  : Game * Player.t :=
  match Collectible.type item with
  | ItemType.energy =>
      let g := set_energy (Math_min 100 (energy g + 30)) g in
      let g := set_score
                 (score g + Math_floor (basePoints * 0.5 * multiplier g)) g in
      (createExplosion 10 g, p)
  | ItemType.points =>
      let g := set_score
                 (score g + Math_floor (basePoints * multiplier g)) g in
      let '(r, g) := Math_random g in
      let coinsEarned := Math_floor (r * 3) + 1 in
      let g := addCoins coinsEarned g in
      (createExplosion 10 g, p)
  | ItemType.multiplier =>
      let g := set_multiplier (Math_min (multiplier g + 0.5) 10) g in
      let g := set_score
                 (score g + Math_floor (basePoints * 0.75 * multiplier g)) g in
      (createExplosion 15 g, p)
  | ItemType.shield =>
      let p := Player.set_invincible true p in
      let p := Player.set_invincibleTimer 180 p in
      let g := set_score
                 (score g + Math_floor (basePoints * 0.5 * multiplier g)) g in
      (createExplosion 20 g, p)
  end.

(** *** Spawn director *)

Definition types : list ItemType.t :=
  [ItemType.energy; ItemType.points; ItemType.multiplier; ItemType.shield].

Definition weights : list num := [Fin 0.4; Fin 0.35; Fin 0.15; Fin 0.1].

(** The selection loop of [spawnCollectible], from some index on: [type]
    is the current value of the variable [type], [types] and [weights] are
    what is left of the two arrays and [random] is the variable [random]. *)
Fixpoint pickType (type : ItemType.t) (types : list ItemType.t)
  (weights : list num) (random : num) : ItemType.t :=
  match weights, types with
  | w :: weights', t :: types' =>
      if random <? w then t else pickType type types' weights' (random - w)
  | _, _ => type
  end.

(** [let type = types[0]] followed by the loop. *)
Definition chooseType (random : num) : ItemType.t :=
  pickType (hd ItemType.energy types) types weights random.

(** The [switch] on [edge]; with no matching case [x] and [y] stay
    undefined, which behaves as [NaN] in what follows. *)
Definition edgePosition (edge : num) (g : Game) : num * num * Game :=
  if edge =? 0 then
    let '(r, g) := Math_random g in (r * canvasWidth g, Fin (-30), g)
  else if edge =? 1 then
    let '(r, g) := Math_random g in (canvasWidth g + 30, r * canvasHeight g, g)
  else if edge =? 2 then
    let '(r, g) := Math_random g in (r * canvasWidth g, canvasHeight g + 30, g)
  else if edge =? 3 then
    let '(r, g) := Math_random g in (Fin (-30), r * canvasHeight g, g)
  else (NaN, NaN, g).

Definition spawnCollectible (g : Game) : Game :=
  let '(r, g) := Math_random g in
  let edge := Math_floor (r * 4) in
  let '(x, y, g) := edgePosition edge g in
  let '(random, g) := Math_random g in
  let type := chooseType random in
  let '(r, g) := Math_random g in
  let targetX := canvasWidth g * (0.2 + r * 0.6) in
  let '(r, g) := Math_random g in
  let targetY := canvasHeight g * (0.2 + r * 0.6) in
  let dx := targetX - x in
  let dy := targetY - y in
  let dist := Math_sqrt (dx * dx + dy * dy) in
  let '(r, g) := Math_random g in
  let speed := 1 + r * 2 in
  set_collectibles
    (collectibles g ++
       [{| Collectible.x := x;
           Collectible.y := y;
           Collectible.vx := (dx / dist) * speed;
           Collectible.vy := (dy / dist) * speed;
           Collectible.radius := 12;
           Collectible.type := type;
           Collectible.pulse := 0;
           Collectible.lifetime := 0 |}]) g.

(** The [do ... while] of [spawnBlackHole]; [retries] is [50 - attempts]
    after the sample about to be drawn. *)
Fixpoint samplePosition (retries : nat) (pl : option Player.t) (g : Game)
  : num * num * Game :=
  let margin : num := 100 in
  let '(r, g) := Math_random g in
  let x := margin + r * (canvasWidth g - margin * 2) in
  let '(r, g) := Math_random g in
  let y := margin + r * (canvasHeight g - margin * 2) in
  match retries with
  | O => (x, y, g)
  | S retries' =>
      match pl with
      | Some p =>
          if Math_hypot (x - Player.x p) (y - Player.y p) <? 200
          then samplePosition retries' pl g
          else (x, y, g)
      | None => (x, y, g)
      end
  end.

Definition spawnBlackHole (pl : option Player.t) (g : Game) : Game :=
  let '(x, y, g) := samplePosition 49 pl g in
  let '(r1, g) := Math_random g in
  let '(r2, g) := Math_random g in
  let '(r3, g) := Math_random g in
  let '(r4, g) := Math_random g in
  set_blackHoles
    (blackHoles g ++
       [{| BlackHole.x := x;
           BlackHole.y := y;
           BlackHole.radius := 30 + r1 * 20;
           BlackHole.pullRadius := 150 + r2 * 100;
           BlackHole.strength := 0.3 + level g * 0.05;
           BlackHole.rotation := 0;
           BlackHole.lifetime := 0;
           BlackHole.maxLifetime := 500 + r3 * 300;
           BlackHole.shootTimer := 0;
           BlackHole.shootInterval := 120 + r4 * 60 |}]) g.

Definition spawnBullet (pl : option Player.t) (hole : BlackHole.t) (g : Game)
  : Game :=
  match pl with
  | None => g
  | Some p =>
      let dx := Player.x p - BlackHole.x hole in
      let dy := Player.y p - BlackHole.y hole in
      let dist := Math_sqrt (dx * dx + dy * dy) in
      let speed := 4 + level g * 0.3 in
      set_bullets
        (bullets g ++
           [{| Bullet.x := BlackHole.x hole;
               Bullet.y := BlackHole.y hole;
               Bullet.vx := (dx / dist) * speed;
               Bullet.vy := (dy / dist) * speed;
               Bullet.radius := 6;
               Bullet.life := 300 |}]) g
  end.

(** *** Autonomous pilot *)

Definition dangerScore (c : Collectible.t) (g : Game) : num :=
  let dangerScore :=
    fold_left
      (fun dangerScore hole =>
         let holeDist :=
           Math_hypot (Collectible.x c - BlackHole.x hole)
                      (Collectible.y c - BlackHole.y hole) in
         if holeDist <? BlackHole.pullRadius hole
         then dangerScore + (BlackHole.pullRadius hole - holeDist) * 2
         else dangerScore)
      (blackHoles g) (Fin 0) in
  fold_left
    (fun dangerScore bullet =>
       let bulletDist :=
         Math_hypot (Collectible.x c - Bullet.x bullet)
                    (Collectible.y c - Bullet.y bullet) in
       if bulletDist <? 80 then dangerScore + 100 else dangerScore)
    (bullets g) dangerScore.

Definition typeBonus (c : Collectible.t) (g : Game) : num :=
  match Collectible.type c with
  | ItemType.shield => 200
  | ItemType.multiplier => 150
  | ItemType.energy => if energy g <? 50 then 180 else 0
  | ItemType.points => 100
  end.

Definition collectibleScore (c : Collectible.t) (g : Game) (p : Player.t)
  : num :=
  let dx := Collectible.x c - Player.x p in
  let dy := Collectible.y c - Player.y p in
  let dist := Math_sqrt (dx * dx + dy * dy) in
  typeBonus c g - dist - dangerScore c g.

(** The first loop of [updateBot]: the pair [(bestCollectible, bestScore)]
    after the collectibles have been scanned. *)
Definition findBest (g : Game) (p : Player.t) : option Collectible.t * num :=
  fold_left
    (fun best c =>
       let score := collectibleScore c g p in
       if score >? snd best then (Some c, score) else best)
    (collectibles g) (None, NegInfinity).

(** The evasion loops: [(evadeX, evadeY, inDanger)]. *)
Definition evadeHoles (g : Game) (p : Player.t) (acc : num * num * bool)
  : num * num * bool :=
  fold_left
    (fun '(evadeX, evadeY, inDanger) hole =>
       let dx := Player.x p - BlackHole.x hole in
       let dy := Player.y p - BlackHole.y hole in
       let dist := Math_sqrt (dx * dx + dy * dy) in
       if dist <? BlackHole.pullRadius hole * 0.8 then
         let urgency := 1 - dist / (BlackHole.pullRadius hole * 0.8) in
         (evadeX + (dx / dist) * urgency * 2,
          evadeY + (dy / dist) * urgency * 2,
          true)
       else (evadeX, evadeY, inDanger))
    (blackHoles g) acc.

Definition evadeBullets (g : Game) (p : Player.t) (acc : num * num * bool)
  : num * num * bool :=
  fold_left
    (fun '(evadeX, evadeY, inDanger) bullet =>
       let dx := Player.x p - Bullet.x bullet in
       let dy := Player.y p - Bullet.y bullet in
       let dist := Math_sqrt (dx * dx + dy * dy) in
       if dist <? 100 then
         let urgency := 1 - dist / 100 in
         (evadeX + (dx / dist) * urgency * 3,
          evadeY + (dy / dist) * urgency * 3,
          true)
       else (evadeX, evadeY, inDanger))
    (bullets g) acc.

Definition evasion (g : Game) (p : Player.t) : num * num * bool :=
  evadeBullets g p (evadeHoles g p (Fin 0, Fin 0, false)).

(** The tests of the two evasion loops: whether a black hole, or a
    bullet, is close enough to the ship for the pilot to evade it. *)
Definition holeThreat (p : Player.t) (hole : BlackHole.t) : bool :=
  let dx := Player.x p - BlackHole.x hole in
  let dy := Player.y p - BlackHole.y hole in
  let dist := Math_sqrt (dx * dx + dy * dy) in
  dist <? BlackHole.pullRadius hole * 0.8.

Definition bulletThreat (p : Player.t) (bullet : Bullet.t) : bool :=
  let dx := Player.x p - Bullet.x bullet in
  let dy := Player.y p - Bullet.y bullet in
  let dist := Math_sqrt (dx * dx + dy * dy) in
  dist <? 100.

(** The target and the engage flag chosen by the pilot, before the target
    is brought back into bounds.  [Date_now] is the value of [Date.now()]. *)
Definition botDecision (Date_now : num) (g : Game) (p : Player.t)
  : num * num * bool :=
  let '(bestCollectible, _) := findBest g p in
  let '(evadeX, evadeY, inDanger) := evasion g p in
  if inDanger then
    let evadeDist := Math_sqrt (evadeX * evadeX + evadeY * evadeY) in
    let '(mx, my) :=
      if evadeDist >? 0
      then (Player.x p + (evadeX / evadeDist) * 200,
            Player.y p + (evadeY / evadeDist) * 200)
      else (mouseX g, mouseY g) in
    (mx, my, energy g >? 20)
  else
    match bestCollectible with
    | Some c =>
        let distToTarget :=
          Math_hypot (Collectible.x c - Player.x p)
                     (Collectible.y c - Player.y p) in
        (Collectible.x c, Collectible.y c,
         (distToTarget >? 200) && (energy g >? 30))
    | None =>
        (canvasWidth g / 2 + Math_sin (Date_now * 0.001) * 200,
         canvasHeight g / 2 + Math_cos (Date_now * 0.001) * 150,
         false)
    end.

Definition updateBot (Date_now : num) (g : Game) : Game :=
  match player g with
  | None => g
  | Some p =>
      if negb (botEnabled g) then g
      else
        let '(mx, my, md) := botDecision Date_now g p in
        let g := set_mouseX mx g in
        let g := set_mouseY my g in
        let g := set_mouseDown md g in
        let g := set_mouseX
                   (Math_max 50 (Math_min (canvasWidth g - 50) (mouseX g))) g in
        set_mouseY
          (Math_max 50 (Math_min (canvasHeight g - 50) (mouseY g))) g
  end.

(** *** One frame: [update]

    The body of [update] runs on the game and on the player object.  It
    either reaches the end of the simulation part ([Continue]) or leaves
    through [this.gameOver(); return;] ([Return]). *)

Inductive outcome : Type :=
| Continue (g : Game) (p : Player.t)
| Return (g : Game) (p : Player.t).

(** Direction to the target, boost, energy and thrust. *)
Definition steer (dt : num) (g : Game) (p : Player.t) : Game * Player.t :=
  let dx := mouseX g - Player.x p in
  let dy := mouseY g - Player.y p in
  let distToMouse := Math_sqrt (dx * dx + dy * dy) in
  let '(ax, ay) :=
    if distToMouse >? 5 then (dx / distToMouse, dy / distToMouse)
    else (Fin 0, Fin 0) in
  let p := Player.set_boosting
             ((mouseDown g || keysSpace g) && (energy g >? 0)) p in
  let thrustMult : num := if Player.boosting p then 2.5 else 1 in
  let g :=
    if Player.boosting p
    then set_energy (Math_max 0 (energy g - 0.5 * dt)) g
    else set_energy (Math_min 100 (energy g + 0.1 * dt)) g in
  let accelFactor :=
    Math_min (distToMouse / 100) 1 * Player.thrust p * thrustMult in
  let p := Player.set_vx (Player.vx p + ax * accelFactor * dt) p in
  let p := Player.set_vy (Player.vy p + ay * accelFactor * dt) p in
  (g, p).

(** The pull of one black hole on the player's velocity. *)
Definition pull (dt : num) (hole : BlackHole.t) (p : Player.t) : Player.t :=
  let dx := BlackHole.x hole - Player.x p in
  let dy := BlackHole.y hole - Player.y p in
  let dist := Math_sqrt (dx * dx + dy * dy) in
  if dist <? BlackHole.pullRadius hole then
    let force :=
      (BlackHole.strength hole * (1 - dist / BlackHole.pullRadius hole))
      * dt in
    let p := Player.set_vx (Player.vx p + (dx / dist) * force) p in
    Player.set_vy (Player.vy p + (dy / dist) * force) p
  else p.

(** The test [dist < hole.radius] of the black hole loop. *)
Definition insideHorizon (hole : BlackHole.t) (p : Player.t) : bool :=
  let dx := BlackHole.x hole - Player.x p in
  let dy := BlackHole.y hole - Player.y p in
  let dist := Math_sqrt (dx * dx + dy * dy) in
  dist <? BlackHole.radius hole.

(** [for (const hole of this.blackHoles)]: gravity, then the collision
    with the black hole. *)
Fixpoint gravity (dt : num) (holes : list BlackHole.t) (g : Game)
  (p : Player.t) : outcome :=
  match holes with
  | [] => Continue g p
  | hole :: holes' =>
      let p := pull dt hole p in
      if insideHorizon hole p && negb (Player.invincible p) then
        let '(g, p, dead) := takeDamage g p in
        if dead then Return (gameOver g) p
        else gravity dt holes' g p
      else gravity dt holes' g p
  end.

(** Friction, speed clamp, move, heading, wrap and invincibility timer. *)
Definition movePlayer (dt : num) (g : Game) (p : Player.t) : Player.t :=
  let p := Player.set_vx (Player.vx p * Player.friction p) p in
  let p := Player.set_vy (Player.vy p * Player.friction p) p in
  let speed :=
    Math_sqrt (Player.vx p * Player.vx p + Player.vy p * Player.vy p) in
  let maxSpeed :=
    if Player.boosting p then Player.maxSpeed p * 1.5
    else Player.maxSpeed p in
  let p :=
    if speed >? maxSpeed then
      let p := Player.set_vx ((Player.vx p / speed) * maxSpeed) p in
      Player.set_vy ((Player.vy p / speed) * maxSpeed) p
    else p in
  let p := Player.set_x (Player.x p + Player.vx p * dt) p in
  let p := Player.set_y (Player.y p + Player.vy p * dt) p in
  let p :=
    if speed >? 0.5
    then Player.set_angle (Math_atan2 (Player.vy p) (Player.vx p)) p
    else p in
  let margin := Player.radius p in
  let p := if Player.x p <? - margin
           then Player.set_x (canvasWidth g + margin) p else p in
  let p := if Player.x p >? canvasWidth g + margin
           then Player.set_x (- margin) p else p in
  let p := if Player.y p <? - margin
           then Player.set_y (canvasHeight g + margin) p else p in
  let p := if Player.y p >? canvasHeight g + margin
           then Player.set_y (- margin) p else p in
  if Player.invincible p then
    let p := Player.set_invincibleTimer (Player.invincibleTimer p - dt) p in
    if Player.invincibleTimer p <=? 0
    then Player.set_invincible false p else p
  else p.

Definition outOfBounds (x y : num) (g : Game) : bool :=
  (x <? Fin (-50)) || (x >? canvasWidth g + 50)
  || (y <? Fin (-50)) || (y >? canvasHeight g + 50).

(** One collectible moves and ages. *)
Definition moveCollectible (dt : num) (c : Collectible.t) : Collectible.t :=
  {| Collectible.x := Collectible.x c + Collectible.vx c * dt;
     Collectible.y := Collectible.y c + Collectible.vy c * dt;
     Collectible.vx := Collectible.vx c;
     Collectible.vy := Collectible.vy c;
     Collectible.radius := Collectible.radius c;
     Collectible.type := Collectible.type c;
     Collectible.pulse := Collectible.pulse c + 0.1 * dt;
     Collectible.lifetime := Collectible.lifetime c + dt |}.

(** The test [dist < this.player.radius + c.radius] of the collectibles
    loop. *)
Definition touchesCollectible (c : Collectible.t) (p : Player.t) : bool :=
  let dx := Player.x p - Collectible.x c in
  let dy := Player.y p - Collectible.y c in
  let dist := Math_sqrt (dx * dx + dy * dy) in
  dist <? Player.radius p + Collectible.radius c.

(** The collectibles loop runs from the last index down and removes with
    [splice]: the elements behind the current one have been dealt with. *)
Fixpoint updateCollectibles (dt : num) (cs : list Collectible.t) (g : Game)
  (p : Player.t) : list Collectible.t * Game * Player.t :=
  match cs with
  | [] => ([], g, p)
  | c :: cs' =>
      let '(rest, g, p) := updateCollectibles dt cs' g p in
      let c := moveCollectible dt c in
      if touchesCollectible c p then
        let '(g, p) := collectItem c g p in (rest, g, p)
      else if outOfBounds (Collectible.x c) (Collectible.y c) g
              || (Collectible.lifetime c >? 600)
      then (rest, g, p)
      else (c :: rest, g, p)
  end.

(** The black holes loop, from the last index down; a hole that fires
    pushes a bullet onto [this.bullets]. *)
Fixpoint updateBlackHoles (dt : num) (holes : list BlackHole.t) (g : Game)
  (p : Player.t) : list BlackHole.t * Game :=
  match holes with
  | [] => ([], g)
  | hole :: holes' =>
      let '(rest, g) := updateBlackHoles dt holes' g p in
      let rotation := BlackHole.rotation hole + 0.02 * dt in
      let lifetime := BlackHole.lifetime hole + dt in
      let shootTimer := BlackHole.shootTimer hole + dt in
      let fires := shootTimer >=? BlackHole.shootInterval hole in
      let '(r, g) := if fires then Math_random g else (Fin 0, g) in
      let hole :=
        {| BlackHole.x := BlackHole.x hole;
           BlackHole.y := BlackHole.y hole;
           BlackHole.radius := BlackHole.radius hole;
           BlackHole.pullRadius := BlackHole.pullRadius hole;
           BlackHole.strength := BlackHole.strength hole;
           BlackHole.rotation := rotation;
           BlackHole.lifetime := lifetime;
           BlackHole.maxLifetime := BlackHole.maxLifetime hole;
           BlackHole.shootTimer := if fires then 0 else shootTimer;
           BlackHole.shootInterval :=
             if fires then Math_max 40 (100 + r * 80 - level g * 5)
             else BlackHole.shootInterval hole |} in
      let g := if fires then spawnBullet (Some p) hole g else g in
      if BlackHole.lifetime hole >? BlackHole.maxLifetime hole
      then (rest, g)
      else (hole :: rest, g)
  end.

(** One bullet moves and ages. *)
Definition moveBullet (dt : num) (b : Bullet.t) : Bullet.t :=
  {| Bullet.x := Bullet.x b + Bullet.vx b * dt;
     Bullet.y := Bullet.y b + Bullet.vy b * dt;
     Bullet.vx := Bullet.vx b;
     Bullet.vy := Bullet.vy b;
     Bullet.radius := Bullet.radius b;
     Bullet.life := Bullet.life b - dt |}.

(** The test [dist < this.player.radius + b.radius] of the bullets loop. *)
Definition touchesBullet (b : Bullet.t) (p : Player.t) : bool :=
  let dx := Player.x p - Bullet.x b in
  let dy := Player.y p - Bullet.y b in
  let dist := Math_sqrt (dx * dx + dy * dy) in
  dist <? Player.radius p + Bullet.radius b.

(** The bullets loop, from the last index down.  The list returned is the
    array as the loop leaves it: when the loop is left through [return],
    the bullets in front of the fatal one have not been touched. *)
Fixpoint updateBullets (dt : num) (bs : list Bullet.t) (g : Game)
  (p : Player.t) : list Bullet.t * outcome :=
  match bs with
  | [] => ([], Continue g p)
  | b :: bs' =>
      match updateBullets dt bs' g p with
      | (rest, Return g p) => (b :: rest, Return g p)
      | (rest, Continue g p) =>
          let b := moveBullet dt b in
          if touchesBullet b p && negb (Player.invincible p) then
            let g := createExplosion 15 g in
            let '(g, p, dead) := takeDamage g p in
            if dead then (rest, Return (gameOver g) p)
            else (rest, Continue g p)
          else if (Bullet.life b <=? 0)
                  || outOfBounds (Bullet.x b) (Bullet.y b) g
          then (rest, Continue g p)
          else (b :: rest, Continue g p)
      end
  end.

(** Spawn timers, collectible and black hole spawning. *)
Definition spawning (dt : num) (g : Game) (p : Player.t) : Game :=
  let g := set_spawnTimer (spawnTimer g + dt) g in
  let g := set_difficultyTimer (difficultyTimer g + dt) g in
  let g :=
    if spawnTimer g >? 60 then
      let g := set_spawnTimer 0 g in
      let g := spawnCollectible g in
      let '(r, g) := Math_random g in
      if r <? 0.3 + level g * 0.05 then spawnCollectible g else g
    else g in
  if length_num (blackHoles g) <? Math_min (3 + Math_floor (level g / 2)) 8
  then
    let '(r, g) := Math_random g in
    if r <? 0.005 * level g then spawnBlackHole (Some p) g else g
  else g.

(** Difficulty schedule. *)
Definition difficulty (g : Game) : Game :=
  if difficultyTimer g >? 1800 then
    let g := set_difficultyTimer 0 g in
    let g := set_level (level g + 1) g in
    let g := set_multiplier (Math_min (multiplier g + 0.5) 10) g in
    createExplosion 20 g
  else g.

(** [const dt = this.deltaTime / 16.67]. *)
Definition normalizedDt (g : Game) : num := deltaTime g / 16.67.

(** The simulation part of [update], up to the call of [updateBot]. *)
Definition simulate (g : Game) (p : Player.t) : outcome :=
  let dt := normalizedDt g in
  let '(g, p) := steer dt g p in
  match gravity dt (blackHoles g) g p with
  | Return g p => Return g p
  | Continue g p =>
      let p := movePlayer dt g p in
      let '(cs, g, p) := updateCollectibles dt (collectibles g) g p in
      let g := set_collectibles cs g in
      let '(holes, g) := updateBlackHoles dt (blackHoles g) g p in
      let g := set_blackHoles holes g in
      match updateBullets dt (bullets g) g p with
      | (bs, Return g p) => Return (set_bullets bs g) p
      | (bs, Continue g p) =>
          let g := set_bullets bs g in
          let g := spawning dt g p in
          Continue (difficulty g) p
      end
  end.

Definition update (Date_now : num) (g : Game) : Game :=
  match player g with
  | None => g
  | Some p =>
      match simulate g p with
      | Return g p => set_player (Some p) g
      | Continue g p => updateBot Date_now (set_player (Some p) g)
      end
  end.

(** *** The frame driver *)

(** The two clock assignments of [gameLoop]; [now] is the value of
    [performance.now()]. *)
Definition stampTime (now : num) (g : Game) : Game :=
  let g := set_deltaTime (Math_min (now - lastTime g) 50) g in
  set_lastTime now g.

Definition gameLoop (now Date_now : num) (g : Game) : Game :=
  if negb (isRunning g) || isPaused g then g
  else update Date_now (stampTime now g).

(** [startGame] resets the run, reads the clock ([resetRun]), then calls
    [gameLoop], which reads the clock again ([now']). *)
Definition resetRun (now : num) (g : Game) : Game :=
  let g := set_isRunning true g in
  let g := set_isPaused false g in
  let g := set_score 0 g in
  let g := set_level 1 g in
  let g := set_multiplier 1 g in
  let g := set_energy 100 g in
  let g := set_collectibles [] g in
  let g := set_blackHoles [] g in
  let g := set_bullets [] g in
  let g := set_spawnTimer 0 g in
  let g := set_difficultyTimer 0 g in
  let g := set_sessionCoins 0 g in
  let g := createPlayer g in
  set_lastTime now g.

Definition startGame (now now' Date_now : num) (g : Game) : Game :=
  gameLoop now' Date_now (resetRun now g).

(** *** Events

    What the browser can call while a run lasts: a scheduled frame, the
    pointer and keyboard handlers, the pause and bot controls, a resize of
    the window and the way back to the menu. *)

Definition togglePause (now now' Date_now : num) (g : Game) : Game :=
  if negb (isRunning g) then g
  else
    let g := set_isPaused (negb (isPaused g)) g in
    if isPaused g then g
    else gameLoop now' Date_now (set_lastTime now g).

Definition resumeGame (now now' Date_now : num) (g : Game) : Game :=
  let g := set_isPaused false g in
  gameLoop now' Date_now (set_lastTime now g).

Definition toggleBot (g : Game) : Game :=
  set_botEnabled (negb (botEnabled g)) g.

Definition showMenu (g : Game) : Game :=
  set_isPaused false (set_isRunning false g).

Inductive event : Type :=
| Frame (now Date_now : num)
| MouseMove (x y : num)
| MouseDown
| MouseUp
| SpaceDown
| SpaceUp
| Escape (now now' Date_now : num)
| ResumeButton (now now' Date_now : num)
| BotButton
| Resize (width height : num)
| MenuButton.

Definition handle (e : event) (g : Game) : Game :=
  match e with
  | Frame now Date_now => gameLoop now Date_now g
  | MouseMove x y => set_mouseY y (set_mouseX x g)
  | MouseDown => set_mouseDown true g
  | MouseUp => set_mouseDown false g
  | SpaceDown => set_keysSpace true g
  | SpaceUp => set_keysSpace false g
  | Escape now now' Date_now =>
      if isRunning g then togglePause now now' Date_now g else g
  | ResumeButton now now' Date_now => resumeGame now now' Date_now g
  | BotButton => toggleBot g
  | Resize width height => set_canvasHeight height (set_canvasWidth width g)
  | MenuButton => showMenu g
  end.

Fixpoint run (es : list event) (g : Game) : Game :=
  match es with
  | [] => g
  | e :: es' => run es' (handle e g)
  end.

(** ** The pilot's decision as the specification words it

    If the evasion vector is non-zero, flee along it; else go for the best
    collectible if there is one; else patrol.  The target is then brought
    to at least 50 units from each edge. *)

Definition clampTarget (g : Game) (target : num * num) : num * num :=
  (Math_max 50 (Math_min (canvasWidth g - 50) (fst target)),
   Math_max 50 (Math_min (canvasHeight g - 50) (snd target))).

Definition specDecision (Date_now : num) (g : Game) (p : Player.t)
  : num * num * bool :=
  let '(bestCollectible, _) := findBest g p in
  let '(evadeX, evadeY, _) := evasion g p in
  if negb ((evadeX =? 0) && (evadeY =? 0)) then
    let evadeDist := Math_sqrt (evadeX * evadeX + evadeY * evadeY) in
    (Player.x p + (evadeX / evadeDist) * 200,
     Player.y p + (evadeY / evadeDist) * 200,
     energy g >? 20)
  else
    match bestCollectible with
    | Some c =>
        (Collectible.x c, Collectible.y c,
         (Math_hypot (Collectible.x c - Player.x p)
                     (Collectible.y c - Player.y p) >? 200)
         && (energy g >? 30))
    | None =>
        (canvasWidth g / 2 + Math_sin (Date_now * 0.001) * 200,
         canvasHeight g / 2 + Math_cos (Date_now * 0.001) * 150,
         false)
    end.

(** The pilot's view of a state: target and engage flag. *)
Definition pilotOutput (g : Game) : (num * num) * bool :=
  ((mouseX g, mouseY g), mouseDown g).

(** ** The frame as the specification orders it

    Pilot first: the integrator of a frame consumes what the pilot
    produced on that same frame. *)
Definition specSteer (dt Date_now : num) (g : Game) (p : Player.t)
  : Game * Player.t :=
  steer dt (updateBot Date_now g) p.

(** ** Views of the state used in the statements *)

(** What the integrator reads from the input device and the window. *)
Definition input (g : Game) : num * num * bool * bool :=
  (mouseX g, mouseY g, mouseDown g, keysSpace g).

(** The fields that no part of [update] before [updateBot] assigns. *)
Definition setting (g : Game)
  : (num * num * bool * bool) * bool * num * num * num * bool * num * num
    * ship :=
  (input g, botEnabled g, canvasWidth g, canvasHeight g, maxHP g,
   isPaused g, deltaTime g, lastTime g, selectedShip g).

(** The run counters of the invariants. *)
Definition stats (g : Game) : bool * num * num * num * num :=
  (isRunning g, score g, multiplier g, energy g, hp g).

(** The timers and the level. *)
Definition schedule (g : Game) : num * num * num :=
  (spawnTimer g, difficultyTimer g, level g).

(** The state of an outcome and whether it is the early [return]. *)
Definition outcome_game (o : outcome) : Game :=
  match o with Continue g _ | Return g _ => g end.

Definition outcome_player (o : outcome) : Player.t :=
  match o with Continue _ p | Return _ p => p end.

Definition returned (o : outcome) : bool :=
  match o with Continue _ _ => false | Return _ _ => true end.

(** ** The category draw as the specification words it

    A cumulative-threshold draw: the category chosen is the first one whose
    running cumulative weight exceeds the draw [u], and [fallback] when no
    threshold is met.  The specification names the last category as the
    fallback. *)

Fixpoint cumulativePick (fallback : ItemType.t) (types : list ItemType.t)
  (weights : list num) (cumulative u : num) : ItemType.t :=
  match weights, types with
  | w :: weights', t :: types' =>
      if u <? cumulative + w then t
      else cumulativePick fallback types' weights' (cumulative + w) u
  | _, _ => fallback
  end.

Definition specChooseType (u : num) : ItemType.t :=
  cumulativePick (last types ItemType.energy) types weights 0 u.

(** ** Scenarios

    Concrete states for the worked examples: the game object as its
    constructor leaves it in an 800 by 600 window (the thousand random
    numbers are those of [createStars]), a speeder at rest, a black hole,
    a bullet and a collectible that have just been created. *)

Definition constructed : Game :=
  {| isRunning := false; isPaused := false;
     score := 0; level := 1; multiplier := 1; energy := 100; highScore := 0;
     keysSpace := false; mouseX := 0; mouseY := 0; mouseDown := false;
     player := None; collectibles := []; blackHoles := []; bullets := [];
     botEnabled := false;
     lastTime := 0; deltaTime := 0; spawnTimer := 0; difficultyTimer := 0;
     selectedShip := speeder; hp := 1; maxHP := 1;
     coins := 0; sessionCoins := 0;
     canvasWidth := 800; canvasHeight := 600;
     randomCalls := 1000 |}.

Definition craftAt (x y : num) : Player.t :=
  {| Player.x := x; Player.y := y; Player.vx := 0; Player.vy := 0;
     Player.radius := 15; Player.angle := 0;
     Player.thrust := ShipType.thrust (shipTypes speeder);
     Player.maxSpeed := ShipType.maxSpeed (shipTypes speeder);
     Player.friction := ShipType.friction (shipTypes speeder);
     Player.boosting := false; Player.invincible := false;
     Player.invincibleTimer := 0; Player.shipType := speeder |}.

Definition holeAt (x y radius pullRadius : num) : BlackHole.t :=
  {| BlackHole.x := x; BlackHole.y := y;
     BlackHole.radius := radius; BlackHole.pullRadius := pullRadius;
     BlackHole.strength := 0.35; BlackHole.rotation := 0;
     BlackHole.lifetime := 0; BlackHole.maxLifetime := 500;
     BlackHole.shootTimer := 0; BlackHole.shootInterval := 120 |}.

Definition bulletAt (x y : num) : Bullet.t :=
  {| Bullet.x := x; Bullet.y := y; Bullet.vx := 0; Bullet.vy := 0;
     Bullet.radius := 6; Bullet.life := 300 |}.

Definition itemAt (x y : num) (type : ItemType.t) : Collectible.t :=
  {| Collectible.x := x; Collectible.y := y;
     Collectible.vx := 0; Collectible.vy := 0; Collectible.radius := 12;
     Collectible.type := type; Collectible.pulse := 0;
     Collectible.lifetime := 0 |}.

(** A run in progress: a speeder at the centre of the window, the pointer
    on it, the clock at 1000 ms. *)
Definition running : Game :=
  set_player (Some (craftAt 400 300))
    (set_mouseX 400 (set_mouseY 300
       (set_lastTime 1000 (set_isRunning true constructed)))).

(** The pilot is on, a black hole sits on each side of the craft at the
    same distance, a shield lies straight above and the pointer was left
    at (123, 456). *)
Definition pincer : Game :=
  set_botEnabled true
    (set_mouseX 123 (set_mouseY 456
       (set_blackHoles [holeAt 350 300 40 200; holeAt 450 300 40 200]
          (set_collectibles [itemAt 400 100 ItemType.shield] running)))).

(** The pilot is on, the pointer is far to the right of the craft and a
    shield lies to its left. *)
Definition pointerRight : Game :=
  set_botEnabled true
    (set_mouseX 700
       (set_collectibles [itemAt 100 300 ItemType.shield] running)).

(** A black hole whose horizon covers the craft, which has one hit point. *)
Definition doomed : Game :=
  set_blackHoles [holeAt 410 300 40 200] running.

(** Two bullets, the last of which touches the craft. *)
Definition shot : Game :=
  set_bullets [bulletAt 100 100; bulletAt 405 300] running.

(** The craft drifts to the right at 10 units a tick. *)
Definition coasting : Game :=
  set_player (Some (Player.set_vx 10 (craftAt 400 300))) running.

(** The pilot is on and one black hole, 100 units to the right of the
    craft, is the only object. *)
Definition loneHole : Game :=
  set_botEnabled true (set_blackHoles [holeAt 500 300 40 200] running).

(** [n] frames 50 ms apart, the first one at [1000 + 50 * first] ms. *)
Definition framesFrom (first n : nat) : list event :=
  map (fun i => Frame (Num.fin (1000 + 50 * inject_Z (Z.of_nat i))) 0)
    (seq first n).

(** The pointer is put on the craft, then sixty frames go by; fifteen more
    follow. *)
Definition openingFrames : list event := MouseMove 400 300 :: framesFrom 1 60.
Definition laterFrames : list event := framesFrom 61 15.

(** A generator that returns 0.5 at every call, and stand-ins that answer
    [NaN] for [Math.sin], [Math.cos] and [Math.atan2]: these only reach the
    patrol target and the heading, which no scenario looks at. *)
Definition evenDraws (n : nat) : num := Fin 0.5.
Definition notModelled1 (x : num) : num := NaN.
Definition notModelled2 (x y : num) : num := NaN.

(** ** The terminal transition *)

(** [gameLoop] called at [now] in [g] leaves [update] through
    [this.gameOver(); return;]. *)
Definition fatalFrame (now : num) (g : Game) : bool :=
  if negb (isRunning g) || isPaused g then false
  else
    match player g with
    | None => false
    | Some p => returned (simulate (stampTime now g) p)
    end.

(** The same for an event, through the call of [gameLoop] it makes. *)
Definition fatal (e : event) (g : Game) : bool :=
  match e with
  | Frame now _ => fatalFrame now g
  | Escape now now' _ =>
      isRunning g && isPaused g
      && fatalFrame now' (set_lastTime now (set_isPaused false g))
  | ResumeButton now now' _ =>
      fatalFrame now' (set_lastTime now (set_isPaused false g))
  | _ => false
  end.

(** How many times the terminal transition happens during [es]. *)
Fixpoint terminalTransitions (es : list event) (g : Game) : nat :=
  match es with
  | [] => 0
  | e :: es' =>
      (if fatal e g then 1 else 0) + terminalTransitions es' (handle e g)
  end.

(** ** The invariant of a run *)

Definition isInteger (x : num) : bool :=
  match x with
  | Fin q => Qeq_bool q (inject_Z (Qfloor q))
  | _ => false
  end.

(** The bounds of the specification. *)
Definition bounded (g : Game) : Prop :=
  (0 <= energy g <= 100) /\ (0 <= hp g <= maxHP g)
  /\ (1 <= multiplier g <= 10).

(** The bounds, together with what keeps them: the score is a finite
    number, the hit points are a whole number, and a running game has at
    least one hit point left. *)
Definition Inv (g : Game) : Prop :=
  bounded g
  /\ Num.isFinite (score g) = true
  /\ isInteger (hp g) = true
  /\ (isRunning g = true -> 1 <= hp g).

(** [g'] is a later state of the frame or of the run that [g] belongs to:
    the input, the window and the clock fields are the same, the
    invariant holds and neither the score nor the multiplier went down. *)
Definition advances (g g' : Game) : Prop :=
  setting g' = setting g /\ Inv g'
  /\ score g <= score g' /\ multiplier g <= multiplier g'.

(** The same between two states of a run, whatever happened to the input
    in between. *)
Definition follows (g g' : Game) : Prop :=
  Inv g' /\ maxHP g' = maxHP g
  /\ score g <= score g' /\ multiplier g <= multiplier g'.

(** [advances] for the steps that come before the timers: the run goes on
    and the timers and the level are untouched. *)
Definition quiet (g g' : Game) : Prop :=
  advances g g' /\ isRunning g' = isRunning g /\ schedule g' = schedule g.

(** Nothing happened to the input, the timers or the running flag. *)
Definition calm (g g' : Game) : Prop :=
  setting g' = setting g /\ schedule g' = schedule g
  /\ isRunning g' = isRunning g.

(** The objects in the world, and where the ship is. *)
Definition world (g : Game)
  : list Collectible.t * list BlackHole.t * list Bullet.t :=
  (collectibles g, blackHoles g, bullets g).

Definition position (p : Player.t) : num * num := (Player.x p, Player.y p).

(** An outcome of a loop that started in [g]: the input and the timers
    are those of [g], and the game still runs exactly when the loop was
    not left through [gameOver]. *)
Definition outcome_of (g : Game) (o : outcome) : Prop :=
  setting (outcome_game o) = setting g
  /\ schedule (outcome_game o) = schedule g
  /\ isRunning (outcome_game o)
     = if returned o then false else isRunning g.

(** A clock reading that [gameLoop] can use: finite and not before the
    reading stored in [lastTime]. *)
Definition clock_reading (now : num) (g : Game) : Prop :=
  Num.isFinite now = true /\ lastTime g <= now.

(** The clock readings of one event are usable. *)
Definition clock_event (e : event) (g : Game) : Prop :=
  match e with
  | Frame now _ => clock_reading now g
  | Escape now now' _ | ResumeButton now now' _ =>
      Num.isFinite now' = true /\ now <= now'
  | _ => True
  end.

(** The clock never runs backwards during the events [es]. *)
Fixpoint clock_ok (es : list event) (g : Game) : Prop :=
  match es with
  | [] => True
  | e :: es' => clock_event e g /\ clock_ok es' (handle e g)
  end.

(** ** The end of [movePlayer]

    The last statements of [movePlayer] on their own: the wrap at the four
    edges, then the invincibility timer. *)

Definition wrapPlayer (g : Game) (p : Player.t) : Player.t :=
  let margin := Player.radius p in
  let p := if Player.x p <? - margin
           then Player.set_x (canvasWidth g + margin) p else p in
  let p := if Player.x p >? canvasWidth g + margin
           then Player.set_x (- margin) p else p in
  let p := if Player.y p <? - margin
           then Player.set_y (canvasHeight g + margin) p else p in
  if Player.y p >? canvasHeight g + margin
  then Player.set_y (- margin) p else p.

Definition tickInvincibility (dt : num) (p : Player.t) : Player.t :=
  if Player.invincible p then
    let p := Player.set_invincibleTimer (Player.invincibleTimer p - dt) p in
    if Player.invincibleTimer p <=? 0
    then Player.set_invincible false p else p
  else p.

(** The two tests on one coordinate. *)
Definition wrapAxis (x size margin : num) : num :=
  let x := if x <? - margin then size + margin else x in
  if x >? size + margin then - margin else x.

(** ** The collectibles loop, read as a whole

    The collectibles that the loop keeps, and the pickups it makes: the
    loop goes from the last index down, so the last collectible that
    touches the ship is collected first. *)

Definition keptCollectible (g : Game) (p : Player.t) (c : Collectible.t)
  : bool :=
  negb (touchesCollectible c p)
  && negb (outOfBounds (Collectible.x c) (Collectible.y c) g
           || (Collectible.lifetime c >? 600)).

Definition collectAll (cs : list Collectible.t) (g : Game) (p : Player.t)
  : Game * Player.t :=
  fold_right (fun c gp => collectItem c (fst gp) (snd gp)) (g, p) cs.

(** ** The bullets loop when nothing is hit

    What the loop keeps of a bullet that has been moved. *)

Definition keptBullet (g : Game) (b : Bullet.t) : bool :=
  negb ((Bullet.life b <=? 0) || outOfBounds (Bullet.x b) (Bullet.y b) g).

(** ** The black holes loop, read as a whole *)

(** The hole is due to fire in a frame of length [dt]. *)
Definition fires (dt : num) (hole : BlackHole.t) : bool :=
  BlackHole.shootTimer hole + dt >=? BlackHole.shootInterval hole.

(** [h'] is [h] one frame later: same place, size and strength. *)
Definition agedHole (dt : num) (h h' : BlackHole.t) : Prop :=
  BlackHole.x h' = BlackHole.x h /\ BlackHole.y h' = BlackHole.y h
  /\ BlackHole.radius h' = BlackHole.radius h
  /\ BlackHole.pullRadius h' = BlackHole.pullRadius h
  /\ BlackHole.strength h' = BlackHole.strength h
  /\ BlackHole.maxLifetime h' = BlackHole.maxLifetime h
  /\ BlackHole.lifetime h' = BlackHole.lifetime h + dt
  /\ BlackHole.rotation h' = BlackHole.rotation h + 0.02 * dt
  /\ BlackHole.shootTimer h'
     = (if fires dt h then 0 else BlackHole.shootTimer h + dt).

(** [b] has just been fired by [h]. *)
Definition firedBy (h : BlackHole.t) (b : Bullet.t) : Prop :=
  Bullet.x b = BlackHole.x h /\ Bullet.y b = BlackHole.y h
  /\ Bullet.radius b = 6 /\ Bullet.life b = 300.

(** ** The hits of one loop *)

(** The outcome [o] of a loop entered with the game [g] and the ship [p]
    cost no hit point and left an invincible ship as it was, or it cost
    one hit point, the ship was not invincible, and it is now, for 120
    time units, unless the loop was left through [gameOver]. *)
Definition hitOnce (g : Game) (p : Player.t) (o : outcome) : Prop :=
  (hp (outcome_game o) = hp g
   /\ (Player.invincible p = true ->
       returned o = false
       /\ Player.invincible (outcome_player o) = true
       /\ Player.invincibleTimer (outcome_player o)
          = Player.invincibleTimer p))
  \/ (hp (outcome_game o) = hp g - 1
      /\ Player.invincible p = false
      /\ (returned o = false ->
          Player.invincible (outcome_player o) = true
          /\ Player.invincibleTimer (outcome_player o) = 120)).

(** ** Counting the black holes *)

Definition holeCount (g : Game) : nat := length (blackHoles g).

(** ** The best collectible so far *)

(** [acc] is the best of the collectibles [seen] so far. *)
Definition bestOf (g : Game) (p : Player.t) (seen : list Collectible.t)
  (acc : option Collectible.t * num) : Prop :=
  match fst acc with
  | None => snd acc = NegInfinity
  | Some c => In c seen /\ snd acc = collectibleScore c g p
  end
  /\ Forall (fun c' => (collectibleScore c' g p >? snd acc) = false) seen.

(** ** The distance between a black hole and the ship

    The value of [dist] in the black holes loop of [update]. *)

Definition holeDistance (hole : BlackHole.t) (p : Player.t) : num :=
  let dx := BlackHole.x hole - Player.x p in
  let dy := BlackHole.y hole - Player.y p in
  Math_sqrt (dx * dx + dy * dy).

(** The event is a scheduled frame. *)
Definition isFrame (e : event) : bool :=
  match e with Frame _ _ => true | _ => false end.

(** ** What is kept from one run to the next

    The high score and the coins, with the coins earned in the current
    run. *)

Definition records (g : Game) : num * num * num :=
  (highScore g, coins g, sessionCoins g).

(** The high score that [gameOver] leaves when it is called with the high
    score [old] and ends in [g]. *)
Definition recordedHighScore (old : num) (g : Game) : num :=
  if score g >? old then score g else old.

(** The outcome [o] of a part of [update] entered with the high score
    [old]: the high score is touched only when the part is left through
    [gameOver]. *)
Definition highScoreOf (old : num) (o : outcome) : Prop :=
  highScore (outcome_game o)
  = if returned o then recordedHighScore old (outcome_game o) else old.

(** The coins earned in the run account for the coins of [g], [start]
    being the coins there were when the run began. *)
Definition paid (start : num) (g : Game) : Prop :=
  isInteger (sessionCoins g) = true /\ 0 <= sessionCoins g
  /\ (coins g =? start + sessionCoins g) = true.

(** ** The ship shop

    [setupShipSelection] and [updateShipCardsUI] work on the game object
    and on [this.unlockedShips], the array of the ships that have been
    bought.  A click is a click on the card of one of the three ships of
    [shipTypes]; the classes and texts of the cards are left out. *)

Definition set_selectedShip (v : ship) (g : Game) : Game :=
  let 'mkGame a0 a1 a2 a3 a4 a5 a6 a7 a8 a9 a10 a11 a12 a13 a14 a15 a16 a17
    a18 a19 _ a21 a22 a23 a24 a25 a26 a27 := g in
  mkGame a0 a1 a2 a3 a4 a5 a6 a7 a8 a9 a10 a11 a12 a13 a14 a15 a16 a17 a18
    a19 v a21 a22 a23 a24 a25 a26 a27.

Definition ship_eqb (a b : ship) : bool :=
  match a, b with
  | speeder, speeder | balanced, balanced | tank, tank => true
  | _, _ => false
  end.

(** [array.includes(id)]. *)
Definition includes (l : list ship) (id : ship) : bool :=
  existsb (ship_eqb id) l.

Record Hangar : Type := mkHangar {
  game : Game;
  unlockedShips : list ship
}.

(** The part of [updateShipCardsUI] that assigns: [Ensure selected ship is
    valid]. *)
Definition updateShipCardsUI (h : Hangar) : Hangar :=
  if negb (includes (unlockedShips h) (selectedShip (game h)))
  then mkHangar (set_selectedShip (hd speeder (unlockedShips h)) (game h))
         (unlockedShips h)
  else h.

(** The click handler that [setupShipSelection] puts on the card of
    [shipId]. *)
Definition clickShipCard (shipId : ship) (h : Hangar) : Hangar :=
  let shipType := shipTypes shipId in
  if includes (unlockedShips h) shipId then
    mkHangar (set_selectedShip shipId (game h)) (unlockedShips h)
  else if coins (game h) >=? ShipType.price shipType then
    let h := mkHangar
               (set_coins (coins (game h) - ShipType.price shipType) (game h))
               (unlockedShips h) in
    let h := mkHangar (game h) (unlockedShips h ++ [shipId]) in
    let h := updateShipCardsUI h in
    mkHangar (set_selectedShip shipId (game h)) (unlockedShips h)
  else h.

(** A sequence of clicks, the first of the list first. *)
Definition clickShipCards (ids : list ship) (h : Hangar) : Hangar :=
  fold_left (fun h id => clickShipCard id h) ids h.

(** The prices of the ships of a list, added up. *)
Definition totalPrice (ids : list ship) : num :=
  fold_right (fun id sum => ShipType.price (shipTypes id) + sum) 0 ids.

(** ** Invincibility that lasts

    The ship is invincible and its timer is not below [T]; a game whose
    ship is. *)

Definition protected (T : Q) (p : Player.t) : Prop :=
  Player.invincible p = true /\ (Player.invincibleTimer p <? Fin T) = false.

Definition shieldedUntil (T : Q) (g : Game) : Prop :=
  exists p, player g = Some p /\ protected T p.

(** ** More scenarios

    A craft that drifts out through the left edge, a craft that has just
    been hit, the same craft inside the horizon of a black hole, and a
    shop with 1000 coins where only the speeder is owned. *)

Definition drifting : Player.t :=
  Player.set_vx (Fin (-10)) (craftAt (Fin (-10)) 300).

Definition justHit : Player.t :=
  Player.set_invincibleTimer 120 (Player.set_invincible true (craftAt 400 300)).

Definition engulfed : Game := set_player (Some justHit) doomed.

Definition wealthy : Hangar :=
  {| game := set_coins 1000 constructed; unlockedShips := [speeder] |}.

(** The selection that was stored is a ship that is not owned. *)
Definition staleSelection : Hangar :=
  {| game := set_selectedShip tank constructed; unlockedShips := [speeder] |}.

(** ** The timers in range *)

Definition timersInRange (g : Game) : Prop :=
  (spawnTimer g >? 60) = false /\ (difficultyTimer g >? 1800) = false.

(** ** Properties of the numbers *)

Arguments Qred : simpl never.
Arguments Qplus : simpl never.
Arguments Qminus : simpl never.
Arguments Qmult : simpl never.
Arguments Qopp : simpl never.
Arguments Qdiv : simpl never.
Arguments Qinv : simpl never.
Arguments Qle_bool : simpl never.
Arguments Qeq_bool : simpl never.
Arguments Qcompare : simpl never.
Arguments Qfloor : simpl never.
Arguments inject_Z : simpl never.
Arguments Num.Qsqrt : simpl never.
Arguments Num.fin : simpl never.
Arguments Num.neg : simpl never.
Arguments Num.add : simpl never.
Arguments Num.sub : simpl never.
Arguments Num.mul : simpl never.
Arguments Num.div : simpl never.
Arguments Num.ltb : simpl never.
Arguments Num.leb : simpl never.
Arguments Num.eqb : simpl never.
Arguments Num.min : simpl never.
Arguments Num.max : simpl never.
Arguments Num.floor : simpl never.
Arguments Num.sqrt : simpl never.
Arguments Num.hypot : simpl never.
Arguments Math_min : simpl never.
Arguments Math_max : simpl never.
Arguments Math_floor : simpl never.
Arguments Math_sqrt : simpl never.
Arguments Math_hypot : simpl never.
Arguments setting : simpl never.
Arguments stats : simpl never.
Arguments schedule : simpl never.
Arguments gameOver : simpl never.

Example division_by_zero :
  0 / 0 = NaN /\ 1 / 0 = Infinity /\ 6 / 4 = Num.fin 1.5
  /\ Math_sqrt 6.25 = Num.fin 2.5 /\ Math_sqrt 2 = Num.fin 1.41421356
  /\ Math_floor (-0.5) = (-1)%Q.
Proof. repeat split; vm_compute; reflexivity. Qed.

Lemma Qltb_spec (a b : Q) : reflect (a < b)%Q (Num.Qltb a b).
Proof.
  unfold Num.Qltb. destruct (Qle_bool b a) eqn:E; constructor.
  - apply Qle_bool_iff in E. lra.
  - destruct (Qlt_le_dec a b) as [H | H]; [exact H | ].
    apply Qle_bool_iff in H. congruence.
Qed.

Lemma Qleb_spec (a b : Q) : reflect (a <= b)%Q (Qle_bool a b).
Proof.
  destruct (Qle_bool a b) eqn:E; constructor.
  - now apply Qle_bool_iff.
  - intro H. apply Qle_bool_iff in H. congruence.
Qed.

Lemma Qeqb_spec (a b : Q) : reflect (a == b)%Q (Qeq_bool a b).
Proof.
  destruct (Qeq_bool a b) eqn:E; constructor.
  - now apply Qeq_bool_iff.
  - intro H. apply Qeq_bool_iff in H. congruence.
Qed.

Lemma ltb_Fin (a b : Q) : (Fin a < Fin b) <-> (a < b)%Q.
Proof.
  unfold Num.ltb. destruct (Qltb_spec a b); split; congruence || auto.
Qed.

Lemma leb_Fin (a b : Q) : (Fin a <= Fin b) <-> (a <= b)%Q.
Proof.
  unfold Num.leb. destruct (Qleb_spec a b); split; congruence || auto.
Qed.

(** Turns the comparisons of finite numbers in the goal and in the
    hypotheses into order facts on rationals, then calls [lra]. *)
Ltac qbool :=
  repeat match goal with
    | |- context [Num.Qltb ?a ?b] => destruct (Qltb_spec a b)
    | |- context [Qle_bool ?a ?b] => destruct (Qleb_spec a b)
    | |- context [Qeq_bool ?a ?b] => destruct (Qeqb_spec a b)
    | H : context [Num.Qltb ?a ?b] |- _ => destruct (Qltb_spec a b)
    | H : context [Qle_bool ?a ?b] |- _ => destruct (Qleb_spec a b)
    | H : context [Qeq_bool ?a ?b] |- _ => destruct (Qeqb_spec a b)
    end.

Ltac qred := repeat (rewrite Qred_correct in * ).

(** Divisions by a constant become multiplications by its inverse. *)
Ltac qdiv :=
  unfold Qdiv in *;
  repeat match goal with
    | |- context [Qinv (Qmake ?n ?d)] =>
        let v := eval compute in (Qinv (Qmake n d)) in
        change (Qinv (Qmake n d)) with v
    | H : context [Qinv (Qmake ?n ?d)] |- _ =>
        let v := eval compute in (Qinv (Qmake n d)) in
        change (Qinv (Qmake n d)) with v in H
    end.

Ltac qunfold :=
  unfold Math_min, Math_max, Math_floor, Num.min, Num.max, Num.floor,
    Num.sub, Num.add, Num.mul, Num.div, Num.neg, Num.ltb, Num.leb,
    Num.eqb, Num.isNaN, Num.isFinite, Num.signed_inf, Num.fin in *.

Ltac qstep := qunfold; cbn in *; qbool.

Ltac qsolve :=
  repeat (progress qstep); qred; qdiv;
  try discriminate; try reflexivity; try tauto; try lra.

Lemma leb_trans (x y z : num) : x <= y -> y <= z -> x <= z.
Proof. destruct x, y, z; qsolve. Qed.

Lemma Fin_fin (a b : Q) : (Qred a == b)%Q -> Fin (Qred a) = Num.fin b.
Proof.
  intro H. unfold Num.fin. f_equal.
  apply Qred_complete. now rewrite <- (Qred_correct a).
Qed.

(** ** The frame clock *)

(** Any stall of 50 ms or more gives the same normalized [dt]. *)
Lemma stalled_frame_dt (t elapsed : Q) g :
  (50 <= elapsed)%Q ->
  normalizedDt (stampTime (Fin (t + elapsed)) (set_lastTime (Fin t) g))
  = Num.fin (50 / 16.67).
Proof.
  intros H. unfold normalizedDt, stampTime. cbn.
  qunfold. cbn.
  destruct (Qltb_spec 50 (Qred (t + elapsed + Qred (- t))));
    qstep; try (exfalso; lra); apply Fin_fin; qred; qdiv; lra.
Qed.

Lemma frame_dt_bound now g :
  deltaTime (stampTime now g) = Math_min (now - lastTime g) 50
  /\ (normalizedDt (stampTime now g) >? 50 / 16.67) = false
  /\ Num.isNaN (now - lastTime g)
     || (normalizedDt (stampTime now g) <=? 50 / 16.67) = true.
Proof.
  split; [reflexivity | ].
  unfold normalizedDt, stampTime. cbn.
  destruct (now - lastTime g) as [ | | e | ]; try (split; reflexivity).
  split; qsolve.
Qed.

(** ** Arithmetic of the counters *)

Ltac nums :=
  repeat match goal with
    | x : num |- _ => destruct x
    end;
  qsolve.

Lemma energy_drain (e d : num) :
  0 <= e <= 100 -> Num.isFinite d = true -> 0 <= d ->
  0 <= Math_max 0 (e - 0.5 * d) <= 100.
Proof. intros [H1 H2] H3 H4. split; nums. Qed.

Lemma energy_regen (e d : num) :
  0 <= e <= 100 -> Num.isFinite d = true -> 0 <= d ->
  0 <= Math_min 100 (e + 0.1 * d) <= 100.
Proof. intros [H1 H2] H3 H4. split; nums. Qed.

Lemma energy_pickup (e : num) :
  0 <= e <= 100 -> 0 <= Math_min 100 (e + 30) <= 100.
Proof. intros [H1 H2]. split; nums. Qed.

Lemma multiplier_step (m : num) :
  1 <= m <= 10 ->
  (1 <= Math_min (m + 0.5) 10 <= 10) /\ m <= Math_min (m + 0.5) 10.
Proof. intros [H1 H2]. repeat split; nums. Qed.

Lemma floor_nonneg (a : Q) : (0 <= a)%Q -> (0 <= inject_Z (Qfloor a))%Q.
Proof.
  intro H. change 0%Q with (inject_Z 0). rewrite <- Zle_Qle.
  rewrite <- (Qfloor_Z 0). now apply Qfloor_resp_le.
Qed.

Lemma score_gain (s a m : num) :
  Num.isFinite s = true -> Num.isFinite a = true -> 0 <= a ->
  1 <= m <= 10 ->
  Num.isFinite (s + Math_floor (a * m)) = true
  /\ s <= s + Math_floor (a * m).
Proof.
  intros H1 H2 H3 [H4 H5].
  destruct s as [ | | s | ], a as [ | | a | ], m as [ | | m | ];
    try discriminate.
  qunfold. cbn. split; [reflexivity | ].
  assert (0 <= inject_Z (Qfloor (Qred (a * m))))%Q.
  { apply floor_nonneg. qsolve. nra. }
  qsolve.
Qed.

Lemma hp_loss (h M : num) :
  isInteger h = true -> 1 <= h -> h <= M ->
  isInteger (h - 1) = true /\ 0 <= h - 1 /\ h - 1 <= M
  /\ ((h - 1 <=? 0) = false -> 1 <= h - 1).
Proof.
  intros H1 H2 H3. destruct h as [ | | h | ]; try discriminate.
  unfold isInteger in *. apply Qeq_bool_iff in H1.
  assert (E : (Qred (h + Qred (Qopp 1)) == inject_Z (Qfloor h - 1))%Q).
  { qred. rewrite H1 at 1. unfold Zminus. rewrite inject_Z_plus.
    rewrite inject_Z_opp. reflexivity. }
  assert (F : Qfloor (Qred (h + Qred (Qopp 1))) = (Qfloor h - 1)%Z).
  { rewrite E. apply Qfloor_Z. }
  assert (L : (1 <= Qfloor h)%Z).
  { rewrite Zle_Qle. rewrite <- H1. now apply leb_Fin in H2. }
  repeat split.
  - qunfold. cbn. apply Qeq_bool_iff. rewrite F. exact E.
  - destruct M; qsolve.
  - destruct M; qsolve.
  - intro N. qunfold. cbn in *. qbool; try discriminate; try reflexivity.
    exfalso. rewrite E in *.
    assert (0 < Qfloor h - 1)%Z.
    { rewrite Zlt_Qlt. change (inject_Z 0) with 0%Q. lra. }
    assert (1 <= Qfloor h - 1)%Z by lia.
    rewrite Zle_Qle in *. change (inject_Z 1) with 1%Q in *. lra.
Qed.

Lemma clock_dt (now : num) (g : Game) :
  clock_reading now g ->
  Num.isFinite (normalizedDt (stampTime now g)) = true
  /\ 0 <= normalizedDt (stampTime now g).
Proof.
  intros [H1 H2]. unfold normalizedDt, stampTime. cbn.
  destruct (lastTime g) as [ | | l | ], now as [ | | n | ];
    try discriminate; split; qsolve.
Qed.

(** ** What each procedure leaves alone *)

Ltac branches :=
  repeat match goal with
    | |- context [if ?b then _ else _] => destruct b
    | |- context [match ?x with _ => _ end] => destruct x
    end.

Lemma spawnCollectible_frame g :
  setting (spawnCollectible g) = setting g
  /\ stats (spawnCollectible g) = stats g
  /\ schedule (spawnCollectible g) = schedule g.
Proof.
  unfold spawnCollectible, edgePosition, Math_random.
  branches; repeat split; reflexivity.
Qed.

Lemma samplePosition_frame n pl g :
  let g' := snd (samplePosition n pl g) in
  setting g' = setting g /\ stats g' = stats g /\ schedule g' = schedule g.
Proof.
  revert g. induction n as [ | n IH]; intro g; cbn.
  - repeat split; reflexivity.
  - destruct pl as [p | ]; [ | repeat split; reflexivity].
    match goal with |- context [if ?b then _ else _] => destruct b end.
    + match goal with |- context [samplePosition n _ ?h] =>
        destruct (IH h) as (A & B & C) end.
      cbn in A, B, C. rewrite A, B, C. repeat split; reflexivity.
    + repeat split; reflexivity.
Qed.

Lemma spawnBlackHole_frame pl g :
  setting (spawnBlackHole pl g) = setting g
  /\ stats (spawnBlackHole pl g) = stats g
  /\ schedule (spawnBlackHole pl g) = schedule g.
Proof.
  unfold spawnBlackHole.
  destruct (samplePosition_frame 49 pl g) as (A & B & C).
  destruct (samplePosition 49 pl g) as [[x y] g1]. cbn in A, B, C.
  rewrite <- A, <- B, <- C. repeat split; reflexivity.
Qed.

(** ** The invariant through the procedures *)

Lemma leb_refl_finite (x : num) : Num.isFinite x = true -> x <= x.
Proof. destruct x; qsolve. Qed.

Lemma leb_finite_l (x y z : num) : x <= y <= z -> y <= y.
Proof. intros [H1 H2]. nums. Qed.

Lemma advances_refl g : Inv g -> advances g g.
Proof.
  intros H. split; [reflexivity | split; [exact H | split]].
  - apply leb_refl_finite, H.
  - destruct H as ((_ & _ & Hm) & _). exact (leb_finite_l _ _ _ Hm).
Qed.

Lemma advances_trans g1 g2 g3 :
  advances g1 g2 -> advances g2 g3 -> advances g1 g3.
Proof.
  intros (A1 & A2 & A3 & A4) (B1 & B2 & B3 & B4).
  split; [congruence | split; [exact B2 | split; eauto using leb_trans]].
Qed.

Lemma stats_eq g g' :
  stats g' = stats g ->
  isRunning g' = isRunning g /\ score g' = score g
  /\ multiplier g' = multiplier g /\ energy g' = energy g
  /\ hp g' = hp g.
Proof. unfold stats. intro H. repeat split; congruence. Qed.

Lemma setting_maxHP g g' : setting g' = setting g -> maxHP g' = maxHP g.
Proof. unfold setting. congruence. Qed.

Lemma Inv_same g g' :
  Inv g -> setting g' = setting g -> stats g' = stats g -> Inv g'.
Proof.
  unfold Inv, bounded. intros H A B.
  apply setting_maxHP in A. apply stats_eq in B.
  destruct B as (B1 & B2 & B3 & B4 & B5).
  rewrite B1, B2, B3, B4, B5, A. exact H.
Qed.

Lemma advances_same g g' :
  Inv g -> setting g' = setting g -> stats g' = stats g -> advances g g'.
Proof.
  intros H A B. pose proof (advances_refl H) as (_ & _ & C & D).
  pose proof (Inv_same H A B) as I.
  apply stats_eq in B. destruct B as (B1 & B2 & B3 & B4 & B5).
  split; [exact A | split; [exact I | split; congruence]].
Qed.

Lemma gameOver_frame g :
  setting (gameOver g) = setting g /\ schedule (gameOver g) = schedule g
  /\ isRunning (gameOver g) = false /\ score (gameOver g) = score g
  /\ multiplier (gameOver g) = multiplier g
  /\ energy (gameOver g) = energy g /\ hp (gameOver g) = hp g.
Proof.
  unfold gameOver. cbn. branches; repeat split; reflexivity.
Qed.

Lemma takeDamage_ok g p :
  Inv g -> isRunning g = true ->
  let '(g', p', dead) := takeDamage g p in
  schedule g' = schedule g
  /\ if dead
     then advances g (gameOver g') /\ isRunning (gameOver g') = false
          /\ schedule (gameOver g') = schedule g
     else advances g g' /\ isRunning g' = true.
Proof.
  intros H R. unfold takeDamage.
  destruct (Player.invincible p).
  { split; [reflexivity | split; [now apply advances_refl | exact R] ]. }
  pose proof H as ((He & (Hh1 & Hh2) & Hm) & Hs & Hi & Hr).
  destruct (hp_loss _ _ Hi (Hr R) Hh2) as (L1 & L2 & L3 & L4).
  pose proof (advances_refl H) as (_ & _ & C & D).
  cbn. destruct (hp g - 1 <=? 0) eqn:E; cbn.
  - split; [reflexivity | ].
    match goal with |- context [gameOver ?h] =>
      destruct (gameOver_frame h) as (G1 & G2 & G3 & G4 & G5 & G6 & G7)
    end.
    split; [ | split; [exact G3 | exact G2]].
    split; [exact G1 | ]. rewrite G4, G5. split; [ | split; assumption].
    unfold Inv, bounded. rewrite G3, G4, G5, G6, G7.
    rewrite (setting_maxHP G1). cbn.
    repeat split; try assumption; try apply He; try apply Hm. discriminate.
  - split; [reflexivity | ]. split; [ | exact R].
    split; [reflexivity | ]. split; [ | split; assumption].
    unfold Inv, bounded. cbn.
    repeat split; try assumption; try apply He; try apply Hm.
    intros _. now apply L4.
Qed.

Lemma quiet_refl g : Inv g -> quiet g g.
Proof. intro H. split; [now apply advances_refl | split; reflexivity]. Qed.

Lemma quiet_trans g1 g2 g3 : quiet g1 g2 -> quiet g2 g3 -> quiet g1 g3.
Proof.
  intros (A1 & A2 & A3) (B1 & B2 & B3).
  split; [eapply advances_trans; eassumption | split; congruence].
Qed.

Lemma quiet_same g g' :
  Inv g -> setting g' = setting g -> stats g' = stats g ->
  schedule g' = schedule g -> quiet g g'.
Proof.
  intros H A B C. split; [now apply advances_same | split; [ | exact C]].
  now apply stats_eq in B.
Qed.

Lemma quiet_Inv g g' : quiet g g' -> Inv g'.
Proof. intros ((_ & H & _) & _). exact H. Qed.

Lemma steer_ok dt g p :
  Inv g -> Num.isFinite dt = true -> 0 <= dt ->
  quiet g (fst (steer dt g p)).
Proof.
  intros H Hf Hd. pose proof H as ((He & Hh & Hm) & Hs & Hi & Hr).
  pose proof (advances_refl H) as (_ & _ & C & D).
  unfold steer. destruct (Math_sqrt _ >? 5); cbn;
    destruct ((mouseDown g || keysSpace g) && (energy g >? 0)); cbn;
    (split; [ | split; reflexivity]);
    (split; [reflexivity | split; [ | split; assumption]]);
    unfold Inv, bounded; cbn; repeat split;
    try assumption; try apply Hh; try apply Hm;
    try (apply energy_drain; assumption);
    try (apply energy_regen; assumption).
Qed.

Lemma collectItem_ok item g p :
  Inv g -> quiet g (fst (collectItem item g p)).
Proof.
  intros H. pose proof H as ((He & Hh & Hm) & Hs & Hi & Hr).
  pose proof (advances_refl H) as (_ & _ & C & D).
  unfold collectItem, Math_random, addCoins.
  destruct (Collectible.type item); cbn;
    (split; [ | split; reflexivity]);
    (split; [reflexivity | ]).
  - destruct (score_gain (score g) (basePoints * 0.5) (multiplier g))
      as (S1 & S2); try assumption; try reflexivity.
    split; [ | split; assumption].
    unfold Inv, bounded; cbn; repeat split;
      try assumption; try apply Hh; try apply Hm;
      apply energy_pickup; assumption.
  - destruct (score_gain (score g) basePoints (multiplier g))
      as (S1 & S2); try assumption; try reflexivity.
    split; [ | split; assumption].
    unfold Inv, bounded; cbn; repeat split;
      try assumption; try apply Hh; try apply Hm; try apply He.
  - destruct (multiplier_step (multiplier g) Hm) as (M1 & M2).
    destruct (score_gain (score g) (basePoints * 0.75)
                (Math_min (multiplier g + 0.5) 10))
      as (S1 & S2); try assumption; try reflexivity.
    split; [ | split; assumption].
    unfold Inv, bounded; cbn; repeat split;
      try assumption; try apply Hh; try apply M1; try apply He.
  - destruct (score_gain (score g) (basePoints * 0.5) (multiplier g))
      as (S1 & S2); try assumption; try reflexivity.
    split; [ | split; assumption].
    unfold Inv, bounded; cbn; repeat split;
      try assumption; try apply Hh; try apply Hm; try apply He.
Qed.

Lemma gravity_ok dt holes g p :
  Inv g -> isRunning g = true ->
  let o := gravity dt holes g p in
  advances g (outcome_game o)
  /\ schedule (outcome_game o) = schedule g
  /\ isRunning (outcome_game o) = negb (returned o).
Proof.
  revert g p. induction holes as [ | hole holes IH]; intros g p H R; cbn.
  - split; [now apply advances_refl | split; [reflexivity | exact R]].
  - destruct (insideHorizon hole (pull dt hole p)
              && negb (Player.invincible (pull dt hole p))).
    + pose proof (takeDamage_ok (pull dt hole p) H R) as T.
      destruct (takeDamage g (pull dt hole p)) as [[g1 p1] [ | ]].
      * destruct T as (T1 & T2 & T3 & T4). cbn. auto.
      * destruct T as (T1 & T2 & T3).
        destruct (IH g1 p1) as (I1 & I2 & I3); [apply T2 | exact T3 | ].
        split; [eapply advances_trans; eassumption | ].
        split; [congruence | exact I3].
    + now apply IH.
Qed.

Lemma updateCollectibles_ok dt cs g p :
  Inv g -> quiet g (snd (fst (updateCollectibles dt cs g p))).
Proof.
  revert g p. induction cs as [ | c cs IH]; intros g p H; cbn.
  - now apply quiet_refl.
  - specialize (IH g p H).
    destruct (updateCollectibles dt cs g p) as [[rest g1] p1]. cbn in IH.
    match goal with |- context [collectItem ?c g1 p1] =>
      pose proof (collectItem_ok c p1 (quiet_Inv IH)) as K;
      destruct (collectItem c g1 p1) as [g2 p2] end.
    cbn in K. branches; cbn; try exact IH.
    eapply quiet_trans; eassumption.
Qed.

Lemma updateBlackHoles_frame dt holes g p :
  let g' := snd (updateBlackHoles dt holes g p) in
  setting g' = setting g /\ stats g' = stats g /\ schedule g' = schedule g.
Proof.
  revert g. induction holes as [ | hole holes IH]; intro g; cbn.
  - repeat split; reflexivity.
  - specialize (IH g).
    destruct (updateBlackHoles dt holes g p) as [rest g1]. cbn in IH.
    destruct IH as (A & B & C). rewrite <- A, <- B, <- C.
    unfold Math_random. branches; cbn; repeat split; reflexivity.
Qed.

Lemma updateBullets_ok dt bs g p :
  Inv g -> isRunning g = true ->
  let o := snd (updateBullets dt bs g p) in
  advances g (outcome_game o)
  /\ schedule (outcome_game o) = schedule g
  /\ isRunning (outcome_game o) = negb (returned o).
Proof.
  revert g p. induction bs as [ | b bs IH]; intros g p H R; cbn.
  - split; [now apply advances_refl | split; [reflexivity | exact R]].
  - specialize (IH g p H R).
    destruct (updateBullets dt bs g p) as [rest [g1 p1 | g1 p1]];
      cbn in IH; [ | exact IH].
    destruct IH as (I1 & I2 & I3). cbn in I3.
    match goal with |- context [if ?c then _ else _] => destruct c end.
    + assert (Q : quiet g1 (createExplosion 15 g1)).
      { apply quiet_same; try reflexivity. apply I1. }
      pose proof (takeDamage_ok p1 (quiet_Inv Q)) as T.
      destruct (takeDamage (createExplosion 15 g1) p1) as [[g2 p2] [ | ]];
        cbn.
      * destruct T as (T1 & T2 & T3 & T4); [exact I3 | ].
        split; [ | split; [ | exact T3]].
        -- eapply advances_trans; [exact I1 | ].
           eapply advances_trans; [apply Q | exact T2].
        -- etransitivity; [exact T4 | exact I2].
      * destruct T as (T1 & T2 & T3); [exact I3 | ].
        split; [ | split; [etransitivity; [exact T1 | exact I2] | exact T3]].
        eapply advances_trans; [exact I1 | ].
        eapply advances_trans; [apply Q | exact T2].
    + branches; cbn; auto.
Qed.

Lemma randomCalls_frame n g :
  setting (set_randomCalls n g) = setting g
  /\ stats (set_randomCalls n g) = stats g.
Proof. split; reflexivity. Qed.

Lemma spawning_frame dt g p :
  setting (spawning dt g p) = setting g
  /\ stats (spawning dt g p) = stats g.
Proof.
  unfold spawning, Math_random. cbn beta iota zeta.
  split; branches;
    repeat
      (first [ rewrite (proj1 (spawnBlackHole_frame _ _))
             | rewrite (proj1 (proj2 (spawnBlackHole_frame _ _)))
             | rewrite (proj1 (spawnCollectible_frame _))
             | rewrite (proj1 (proj2 (spawnCollectible_frame _)))
             | rewrite (proj1 (randomCalls_frame _ _))
             | rewrite (proj2 (randomCalls_frame _ _)) ]);
    reflexivity.
Qed.

Lemma difficulty_ok g :
  Inv g -> advances g (difficulty g)
           /\ isRunning (difficulty g) = isRunning g.
Proof.
  intros H. pose proof H as ((He & Hh & Hm) & Hs & Hi & Hr).
  pose proof (advances_refl H) as (_ & _ & C & D).
  destruct (multiplier_step (multiplier g) Hm) as (M1 & M2).
  unfold difficulty. destruct (difficultyTimer g >? 1800); cbn.
  - split; [ | reflexivity].
    split; [reflexivity | split; [ | split; assumption]].
    unfold Inv, bounded; cbn; repeat split;
      try assumption; try apply Hh; try apply M1; try apply He.
  - split; [now apply advances_refl | reflexivity].
Qed.

Lemma simulate_ok g p :
  Inv g -> isRunning g = true ->
  Num.isFinite (normalizedDt g) = true -> 0 <= normalizedDt g ->
  let o := simulate g p in
  advances g (outcome_game o)
  /\ isRunning (outcome_game o) = negb (returned o)
  /\ (returned o = true -> schedule (outcome_game o) = schedule g).
Proof.
  intros H R Hf Hd. unfold simulate.
  pose proof (steer_ok (normalizedDt g) p H Hf Hd) as S.
  destruct (steer (normalizedDt g) g p) as [g1 p1]. cbn in S.
  destruct S as (S1 & S2 & S3).
  assert (R1 : isRunning g1 = true) by congruence.
  pose proof (gravity_ok (normalizedDt g) (blackHoles g1) p1 (proj1 (proj2 S1)) R1)
    as G.
  destruct (gravity (normalizedDt g) (blackHoles g1) g1 p1) as [g2 p2 | g2 p2];
    cbn in G; destruct G as (G1 & G2 & G3).
  2:{ split; [eapply advances_trans; eassumption | ].
      split; [exact G3 | intros _; etransitivity; [exact G2 | exact S3]]. }
  pose proof (updateCollectibles_ok (normalizedDt g) (collectibles g2)
                (movePlayer (normalizedDt g) g2 p2) (proj1 (proj2 G1))) as C.
  destruct (updateCollectibles (normalizedDt g) (collectibles g2) g2
              (movePlayer (normalizedDt g) g2 p2)) as [[cs g3] p3].
  cbn in C.
  assert (C' : quiet g2 (set_collectibles cs g3)).
  { eapply quiet_trans; [exact C | ].
    apply quiet_same; try reflexivity. exact (quiet_Inv C). }
  clear C. generalize dependent (set_collectibles cs g3). intros g4 C.
  pose proof (updateBlackHoles_frame (normalizedDt g) (blackHoles g4) g4 p3)
    as B.
  destruct (updateBlackHoles (normalizedDt g) (blackHoles g4) g4 p3)
    as [holes g5].
  cbn in B. destruct B as (B1 & B2 & B3).
  assert (B' : quiet g4 (set_blackHoles holes g5)).
  { apply quiet_same; try assumption. exact (quiet_Inv C). }
  generalize dependent (set_blackHoles holes g5). intros g6 B'.
  assert (Q6 : quiet g g6).
  { eapply quiet_trans; [ | exact B'].
    eapply quiet_trans; [ | exact C].
    split; [eapply advances_trans; eassumption | split; congruence]. }
  destruct Q6 as (Q1 & Q2 & Q3).
  assert (R6 : isRunning g6 = true) by congruence.
  pose proof (updateBullets_ok (normalizedDt g) (bullets g6) p3
                (proj1 (proj2 Q1)) R6) as U.
  destruct (updateBullets (normalizedDt g) (bullets g6) g6 p3)
    as [bs [g7 p7 | g7 p7]]; cbn in U; destruct U as (U1 & U2 & U3).
  - pose proof (spawning_frame (normalizedDt g) (set_bullets bs g7) p7)
      as (P1 & P2).
    assert (A8 : advances g7 (spawning (normalizedDt g) (set_bullets bs g7) p7)).
    { apply advances_same; try assumption. apply U1. }
    generalize dependent (spawning (normalizedDt g) (set_bullets bs g7) p7).
    intros g8 P1 P2 A8.
    destruct (difficulty_ok (proj1 (proj2 A8))) as (D1 & D2).
    cbn. split; [ | split; [ | discriminate]].
    + eapply advances_trans; [exact Q1 | ].
      eapply advances_trans; [exact U1 | ].
      eapply advances_trans; eassumption.
    + apply stats_eq in P2. destruct P2 as (P2 & _).
      rewrite D2, P2. exact U3.
  - cbn. split; [ | split; [exact U3 | intros _]].
    + eapply advances_trans; [exact Q1 | ].
      eapply advances_trans; [exact U1 | ].
      apply advances_same; try reflexivity. apply U1.
    + etransitivity; [exact U2 | exact Q3].
Qed.

(** ** The early return *)

Lemma calm_refl g : calm g g.
Proof. repeat split. Qed.

Lemma calm_trans g1 g2 g3 : calm g1 g2 -> calm g2 g3 -> calm g1 g3.
Proof. unfold calm. intros (A & B & C) (D & E & F). repeat split; congruence. Qed.

Lemma steer_calm dt g p : calm g (fst (steer dt g p)).
Proof. unfold steer. branches; repeat split; reflexivity. Qed.

Lemma takeDamage_calm g p : calm g (fst (fst (takeDamage g p))).
Proof. unfold takeDamage. branches; repeat split; reflexivity. Qed.

Lemma gameOver_halts g :
  setting (gameOver g) = setting g /\ schedule (gameOver g) = schedule g
  /\ isRunning (gameOver g) = false.
Proof. destruct (gameOver_frame g) as (A & B & C & _). auto. Qed.

Lemma outcome_of_calm g g' o : calm g g' -> outcome_of g' o -> outcome_of g o.
Proof.
  intros (A & B & C) (D & E & F). unfold outcome_of.
  rewrite D, E, F, A, B, C. auto.
Qed.

Lemma gravity_outcome dt holes g p : outcome_of g (gravity dt holes g p).
Proof.
  revert g p. induction holes as [ | hole holes IH]; intros g p; cbn.
  - repeat split.
  - destruct (insideHorizon hole (pull dt hole p)
              && negb (Player.invincible (pull dt hole p)));
      [ | apply IH].
    pose proof (takeDamage_calm g (pull dt hole p)) as T.
    destruct (takeDamage g (pull dt hole p)) as [[g1 p1] [ | ]]; cbn in T.
    + destruct T as (T1 & T2 & T3).
      destruct (gameOver_halts g1) as (G1 & G2 & G3).
      unfold outcome_of. cbn. rewrite G1, G2, G3, T1, T2. auto.
    + eapply outcome_of_calm; [exact T | apply IH].
Qed.

Lemma collectItem_calm item g p : calm g (fst (collectItem item g p)).
Proof.
  unfold collectItem, Math_random, addCoins.
  branches; repeat split; reflexivity.
Qed.

Lemma updateCollectibles_calm dt cs g p :
  calm g (snd (fst (updateCollectibles dt cs g p))).
Proof.
  revert g p. induction cs as [ | c cs IH]; intros g p; cbn.
  - apply calm_refl.
  - specialize (IH g p).
    destruct (updateCollectibles dt cs g p) as [[rest g1] p1]. cbn in IH.
    match goal with |- context [collectItem ?c g1 p1] =>
      pose proof (collectItem_calm c g1 p1) as K;
      destruct (collectItem c g1 p1) as [g2 p2] end.
    cbn in K. branches; cbn; try exact IH.
    eapply calm_trans; eassumption.
Qed.

Lemma updateBullets_outcome dt bs g p :
  outcome_of g (snd (updateBullets dt bs g p)).
Proof.
  revert g p. induction bs as [ | b bs IH]; intros g p; cbn.
  - repeat split.
  - specialize (IH g p).
    destruct (updateBullets dt bs g p) as [rest [g1 p1 | g1 p1]];
      cbn in IH; [ | exact IH].
    match goal with |- context [if ?c then _ else _] => destruct c end.
    + pose proof (takeDamage_calm (createExplosion 15 g1) p1) as T.
      destruct (takeDamage (createExplosion 15 g1) p1) as [[g2 p2] [ | ]];
        cbn in T; cbn; destruct T as (T1 & T2 & T3);
        destruct IH as (I1 & I2 & I3); cbn in I3.
      * destruct (gameOver_halts g2) as (G1 & G2 & G3).
        unfold outcome_of. cbn. rewrite G1, G2, G3, T1, T2.
        repeat split; assumption.
      * unfold outcome_of. cbn. rewrite T1, T2, T3.
        repeat split; assumption.
    + branches; cbn; exact IH.
Qed.

Lemma difficulty_frame g :
  setting (difficulty g) = setting g
  /\ isRunning (difficulty g) = isRunning g.
Proof. unfold difficulty. branches; split; reflexivity. Qed.

(** The simulation never touches the input, and when it is left through
    [gameOver] the timers and the level are the ones the frame started
    with. *)
Lemma simulate_outcome g p :
  let o := simulate g p in
  setting (outcome_game o) = setting g
  /\ isRunning (outcome_game o) = (if returned o then false else isRunning g)
  /\ (returned o = true -> schedule (outcome_game o) = schedule g).
Proof.
  unfold simulate.
  pose proof (steer_calm (normalizedDt g) g p) as S.
  destruct (steer (normalizedDt g) g p) as [g1 p1]. cbn in S.
  pose proof (gravity_outcome (normalizedDt g) (blackHoles g1) g1 p1) as G.
  apply (outcome_of_calm S) in G.
  destruct (gravity (normalizedDt g) (blackHoles g1) g1 p1)
    as [g2 p2 | g2 p2]; [ | cbn; destruct G as (G1 & G2 & G3); auto].
  assert (C2 : calm g g2) by exact G. clear G S.
  pose proof (updateCollectibles_calm (normalizedDt g) (collectibles g2) g2
                (movePlayer (normalizedDt g) g2 p2)) as C.
  destruct (updateCollectibles (normalizedDt g) (collectibles g2) g2
              (movePlayer (normalizedDt g) g2 p2)) as [[cs g3] p3].
  cbn in C.
  assert (C4 : calm g (set_collectibles cs g3)).
  { eapply calm_trans; [exact C2 | ].
    eapply calm_trans; [exact C | repeat split]. }
  clear C C2. generalize dependent (set_collectibles cs g3). intros g4 C4.
  pose proof (updateBlackHoles_frame (normalizedDt g) (blackHoles g4) g4 p3)
    as B.
  destruct (updateBlackHoles (normalizedDt g) (blackHoles g4) g4 p3)
    as [holes g5].
  cbn in B. destruct B as (B1 & B2 & B3).
  assert (C6 : calm g (set_blackHoles holes g5)).
  { eapply calm_trans; [exact C4 | ]. apply stats_eq in B2.
    repeat split; try assumption. apply B2. }
  clear C4 B1 B2 B3. generalize dependent (set_blackHoles holes g5).
  intros g6 C6.
  pose proof (updateBullets_outcome (normalizedDt g) (bullets g6) g6 p3) as U.
  apply (outcome_of_calm C6) in U.
  destruct (updateBullets (normalizedDt g) (bullets g6) g6 p3)
    as [bs [g7 p7 | g7 p7]]; cbn in U; destruct U as (U1 & U2 & U3); cbn.
  - destruct (spawning_frame (normalizedDt g) (set_bullets bs g7) p7)
      as (P1 & P2).
    apply stats_eq in P2. destruct P2 as (P2 & _).
    match goal with |- context [difficulty ?h] =>
      destruct (difficulty_frame h) as (D1 & D2) end.
    rewrite D1, D2, P1, P2.
    split; [exact U1 | split; [exact U3 | discriminate]].
  - split; [exact U1 | split; [exact U3 | intros _; exact U2]].
Qed.

(** ** The invariant through a run *)

Lemma advances_follows g g' : advances g g' -> follows g g'.
Proof.
  intros (A & B & C & D). split; [exact B | split; [ | split; assumption]].
  exact (setting_maxHP A).
Qed.

Lemma follows_trans g1 g2 g3 :
  follows g1 g2 -> follows g2 g3 -> follows g1 g3.
Proof.
  intros (A1 & A2 & A3 & A4) (B1 & B2 & B3 & B4).
  split; [exact B1 | split; [congruence | split; eauto using leb_trans]].
Qed.

Lemma follows_same g g' :
  Inv g -> maxHP g' = maxHP g -> stats g' = stats g -> follows g g'.
Proof.
  intros H A B. pose proof (advances_refl H) as (_ & _ & C & D).
  apply stats_eq in B. destruct B as (B1 & B2 & B3 & B4 & B5).
  split; [ | split; [exact A | split; congruence]].
  unfold Inv, bounded. rewrite B1, B2, B3, B4, B5, A. exact H.
Qed.

Lemma follows_refl g : Inv g -> follows g g.
Proof. intro H. now apply follows_same. Qed.

Lemma updateBot_frame Date_now g :
  maxHP (updateBot Date_now g) = maxHP g
  /\ stats (updateBot Date_now g) = stats g
  /\ schedule (updateBot Date_now g) = schedule g.
Proof.
  unfold updateBot. destruct (player g) as [p | ]; [ | now repeat split].
  destruct (negb (botEnabled g)); [now repeat split | ].
  destruct (botDecision Date_now g p) as [[mx my] md].
  repeat split; reflexivity.
Qed.

Lemma update_ok Date_now g :
  Inv g -> isRunning g = true ->
  Num.isFinite (normalizedDt g) = true -> 0 <= normalizedDt g ->
  follows g (update Date_now g).
Proof.
  intros H R Hf Hd. unfold update.
  destruct (player g) as [p | ]; [ | now apply follows_refl].
  pose proof (simulate_ok p H R Hf Hd) as S.
  destruct (simulate g p) as [g1 p1 | g1 p1]; cbn in S;
    destruct S as (S1 & S2 & S3).
  - eapply follows_trans; [exact (advances_follows S1) | ].
    destruct (updateBot_frame Date_now (set_player (Some p1) g1))
      as (U1 & U2 & U3).
    eapply follows_trans; [ | apply follows_same; [ | exact U1 | exact U2]].
    + apply follows_same; try reflexivity. apply S1.
    + apply (Inv_same (g := g1)); try reflexivity. apply S1.
  - eapply follows_trans; [exact (advances_follows S1) | ].
    apply follows_same; try reflexivity. apply S1.
Qed.

Lemma gameLoop_ok now Date_now g :
  Inv g -> clock_reading now g -> follows g (gameLoop now Date_now g).
Proof.
  intros H K. unfold gameLoop.
  destruct (isRunning g) eqn:R; [ | now apply follows_refl].
  destruct (isPaused g); [now apply follows_refl | ]. cbn.
  destruct (clock_dt K) as (D1 & D2).
  assert (F : follows g (stampTime now g))
    by (apply follows_same; [exact H | reflexivity | reflexivity]).
  eapply follows_trans; [exact F | ].
  apply update_ok; [apply F | exact R | exact D1 | exact D2].
Qed.

Lemma handle_ok e g : Inv g -> clock_event e g -> follows g (handle e g).
Proof.
  intros H K. destruct e as [now d | x y | | | | | now now' d | now now' d
                            | | w h | ]; cbn in *;
    try (apply follows_same; [exact H | reflexivity | reflexivity]).
  - now apply gameLoop_ok.
  - unfold togglePause. destruct (isRunning g) eqn:R; cbn;
      [ | now apply follows_refl].
    destruct (isPaused g) eqn:P; cbn.
    + assert (F : follows g (set_lastTime now (set_isPaused false g)))
        by (apply follows_same; [exact H | reflexivity | reflexivity]).
      eapply follows_trans; [exact F | ].
      apply gameLoop_ok; [apply F | exact K].
    + apply follows_same; [exact H | reflexivity | reflexivity].
  - unfold resumeGame.
    assert (F : follows g (set_lastTime now (set_isPaused false g)))
      by (apply follows_same; [exact H | reflexivity | reflexivity]).
    eapply follows_trans; [exact F | ].
    apply gameLoop_ok; [apply F | exact K].
  - pose proof (advances_refl H) as (_ & _ & C & D).
    split; [ | split; [reflexivity | split; assumption]].
    destruct H as (B & S & I & _). repeat split; try apply B; try assumption.
    discriminate.
Qed.

Lemma run_ok es g : Inv g -> clock_ok es g -> follows g (run es g).
Proof.
  revert g. induction es as [ | e es IH]; intros g H K; cbn.
  - now apply follows_refl.
  - destruct K as (K1 & K2). pose proof (handle_ok e H K1) as F.
    eapply follows_trans; [exact F | ]. apply IH; [apply F | exact K2].
Qed.

Lemma resetRun_Inv now g : Inv (resetRun now g).
Proof.
  unfold resetRun, createPlayer, Inv, bounded. cbn.
  match goal with |- context [shipTypes ?s] => destruct s end;
    repeat split; reflexivity.
Qed.

(** ** Damage and the terminal transition *)

Lemma fatalFrame_halts now Date_now g :
  fatalFrame now g = true ->
  isRunning g = true
  /\ isRunning (gameLoop now Date_now g) = false
  /\ schedule (gameLoop now Date_now g) = schedule g
  /\ input (gameLoop now Date_now g) = input g.
Proof.
  unfold fatalFrame, gameLoop, update.
  destruct (isRunning g) eqn:R; [ | discriminate].
  destruct (isPaused g); [discriminate | ]. cbn [negb orb].
  change (player (stampTime now g)) with (player g).
  destruct (player g) as [p | ]; [ | discriminate].
  pose proof (simulate_outcome (stampTime now g) p) as (S1 & S2 & S3).
  destruct (simulate (stampTime now g) p) as [g1 p1 | g1 p1];
    [discriminate | ]. intros _. cbn in S1, S2, S3.
  split; [reflexivity | split; [exact S2 | split; [now apply S3 | ]]].
  change (input g1 = input (stampTime now g)).
  unfold setting in S1. congruence.
Qed.

Lemma stopped_stays_stopped e g :
  isRunning g = false ->
  isRunning (handle e g) = false /\ fatal e g = false.
Proof.
  intro R.
  assert (L : forall now d h, isRunning h = false ->
                isRunning (gameLoop now d h) = false
                /\ fatalFrame now h = false).
  { intros now d h Rh. unfold gameLoop, fatalFrame. rewrite Rh. auto. }
  destruct e; cbn [handle fatal]; try rewrite R; auto.
  unfold resumeGame. apply L. exact R.
Qed.

Lemma fatal_stops e g : fatal e g = true -> isRunning (handle e g) = false.
Proof.
  destruct e as [now d | | | | | | now now' d | now now' d | | | ]; cbn;
    try discriminate.
  - intro F. now apply fatalFrame_halts.
  - destruct (isRunning g) eqn:R; [ | discriminate].
    destruct (isPaused g) eqn:P; [ | discriminate]. cbn. intro F.
    unfold togglePause. rewrite R. cbn. rewrite P. cbn.
    now apply fatalFrame_halts.
  - intro F. now apply fatalFrame_halts.
Qed.

Lemma stopped_no_transition es g :
  isRunning g = false -> terminalTransitions es g = 0%nat.
Proof.
  revert g. induction es as [ | e es IH]; intros g R; cbn; [reflexivity | ].
  destruct (stopped_stays_stopped e g R) as (A & B). rewrite B.
  now rewrite IH.
Qed.

Lemma at_most_one_transition es g : (terminalTransitions es g <= 1)%nat.
Proof.
  revert g. induction es as [ | e es IH]; intro g; cbn; [lia | ].
  destruct (fatal e g) eqn:F.
  - rewrite stopped_no_transition; [lia | now apply fatal_stops].
  - apply IH.
Qed.

(** Steering, the pull of the black holes and a hit leave the objects of
    the world and the position of the ship as they are. *)
Lemma steer_world dt g p :
  world (fst (steer dt g p)) = world g
  /\ position (snd (steer dt g p)) = position p.
Proof. unfold steer. branches; split; reflexivity. Qed.

Lemma pull_position dt hole p : position (pull dt hole p) = position p.
Proof. unfold pull. branches; reflexivity. Qed.

Lemma takeDamage_world g p :
  world (fst (fst (takeDamage g p))) = world g
  /\ position (snd (fst (takeDamage g p))) = position p.
Proof. unfold takeDamage. branches; split; reflexivity. Qed.

Lemma gameOver_world g : world (gameOver g) = world g.
Proof. unfold gameOver. branches; reflexivity. Qed.

Lemma gravity_world dt holes g p :
  world (outcome_game (gravity dt holes g p)) = world g
  /\ position (outcome_player (gravity dt holes g p)) = position p.
Proof.
  revert g p. induction holes as [ | hole holes IH]; intros g p;
    [split; reflexivity | ].
  cbn [gravity]. pose proof (pull_position dt hole p) as Q.
  destruct (insideHorizon hole (pull dt hole p)
            && negb (Player.invincible (pull dt hole p))).
  - pose proof (takeDamage_world g (pull dt hole p)) as (T1 & T2).
    destruct (takeDamage g (pull dt hole p)) as [[g1 p1] dead].
    cbn [fst snd] in T1, T2. destruct dead.
    + cbn [outcome_game outcome_player]. split.
      * etransitivity; [apply gameOver_world | exact T1].
      * etransitivity; [exact T2 | exact Q].
    + destruct (IH g1 p1) as (I1 & I2). split.
      * etransitivity; [exact I1 | exact T1].
      * etransitivity; [exact I2 | ]. etransitivity; [exact T2 | exact Q].
  - destruct (IH g (pull dt hole p)) as (I1 & I2). split.
    + exact I1.
    + etransitivity; [exact I2 | exact Q].
Qed.

(** C1: the damage procedure.  While the player is invulnerable a call
    changes nothing and returns "no death", so a second call within the
    grace window opened by the first changes nothing.  Otherwise the hit
    points go down by exactly one; if they are then at most zero the call
    signals death, on which both callers in [update] call [gameOver] and
    return at once (a fatal frame stops the run, advances no timer and does
    not run the pilot), else the player becomes invulnerable for 120
    ticks.  The terminal transition happens at most once in a run.  The
    rest of the frame is not processed: when the simulation is left through
    the early return, [update] and [gameLoop] end in the state and with the
    ship of that return, without a call of the pilot; a death in the black
    hole loop is the outcome of the simulation as it stands, the
    collectibles, black holes and bullets being those of the start of the
    frame and the ship where it was; a death in the bullet loop leaves the
    bullets in front of the fatal one as they were, and the simulation
    returns what that loop returned, with no spawning and no difficulty
    step. *)
Theorem damage_procedure :
  (forall g p,
      Player.invincible p = true -> takeDamage g p = (g, p, false))
  /\ (forall g p,
        Player.invincible p = false ->
        let '(g', p', dead) := takeDamage g p in
        hp g' = hp g - 1
        /\ dead = (hp g' <=? 0)
        /\ (dead = true -> p' = p)
        /\ (dead = false ->
            Player.invincible p' = true /\ Player.invincibleTimer p' = 120)
        /\ calm g g' /\ score g' = score g /\ energy g' = energy g
        /\ multiplier g' = multiplier g)
  /\ (forall g p,
        let '(g1, p1, dead) := takeDamage g p in
        dead = false -> takeDamage g1 p1 = (g1, p1, false))
  /\ (forall dt hole holes g p,
        let p1 := pull dt hole p in
        insideHorizon hole p1 && negb (Player.invincible p1) = true ->
        let '(g', p', dead) := takeDamage g p1 in
        dead = true ->
        gravity dt (hole :: holes) g p = Return (gameOver g') p')
  /\ (forall dt b bs g p rest g1 p1,
        updateBullets dt bs g p = (rest, Continue g1 p1) ->
        touchesBullet (moveBullet dt b) p1 && negb (Player.invincible p1)
        = true ->
        let '(g', p', dead) := takeDamage (createExplosion 15 g1) p1 in
        dead = true ->
        updateBullets dt (b :: bs) g p = (rest, Return (gameOver g') p'))
  /\ (forall now Date_now g,
        fatalFrame now g = true ->
        isRunning g = true
        /\ isRunning (gameLoop now Date_now g) = false
        /\ schedule (gameLoop now Date_now g) = schedule g
        /\ input (gameLoop now Date_now g) = input g)
  /\ (forall e g, fatal e g = true -> isRunning (handle e g) = false)
  /\ (forall es g, (terminalTransitions es g <= 1)%nat)
  /\ (forall now Date_now g p g' p',
        player g = Some p ->
        (simulate g p = Return g' p' ->
         update Date_now g = set_player (Some p') g')
        /\ (isRunning g = true -> isPaused g = false ->
            simulate (stampTime now g) p = Return g' p' ->
            gameLoop now Date_now g = set_player (Some p') g'))
  /\ (forall g p g' p',
        let dt := normalizedDt g in
        let '(g1, p1) := steer dt g p in
        gravity dt (blackHoles g1) g1 p1 = Return g' p' ->
        simulate g p = Return g' p'
        /\ world g' = world g /\ position p' = position p)
  /\ (forall dt b bs g p rest g' p',
        updateBullets dt bs g p = (rest, Return g' p') ->
        updateBullets dt (b :: bs) g p = (b :: rest, Return g' p'))
  /\ (forall g p g2 p2 bs g' p',
        let dt := normalizedDt g in
        let '(g1, p1) := steer dt g p in
        gravity dt (blackHoles g1) g1 p1 = Continue g2 p2 ->
        let p3 := movePlayer dt g2 p2 in
        let '(cs, g3, p4) := updateCollectibles dt (collectibles g2) g2 p3 in
        let g4 := set_collectibles cs g3 in
        let '(holes, g5) := updateBlackHoles dt (blackHoles g4) g4 p4 in
        let g6 := set_blackHoles holes g5 in
        updateBullets dt (bullets g6) g6 p4 = (bs, Return g' p') ->
        simulate g p = Return (set_bullets bs g') p').
Proof.
  split; [ | split; [ | split; [ | split; [ | split; [ | split; [ | split;
    [ | split; [ | split; [ | split; [ | split]]]]]]]]]].
  - intros g p I. unfold takeDamage. now rewrite I.
  - intros g p I. unfold takeDamage. rewrite I. cbn.
    destruct (hp g - 1 <=? 0) eqn:E; cbn; rewrite ?E;
      repeat split; try reflexivity; discriminate.
  - intros g p. unfold takeDamage at 1.
    destruct (Player.invincible p) eqn:I.
    + intros _. unfold takeDamage. now rewrite I.
    + cbn. destruct (hp g - 1 <=? 0); [discriminate | ].
      intros _. reflexivity.
  - intros dt hole holes g p p1 C. cbn [gravity]. fold p1. rewrite C.
    destruct (takeDamage g p1) as [[g' p'] dead]. intros ->. reflexivity.
  - intros dt b bs g p rest g1 p1 U C. cbn [updateBullets]. rewrite U, C.
    destruct (takeDamage (createExplosion 15 g1) p1) as [[g' p'] dead].
    intros ->. reflexivity.
  - apply fatalFrame_halts.
  - apply fatal_stops.
  - apply at_most_one_transition.
  - intros now Date_now g p g' p' P. split.
    + intros S. unfold update. rewrite P, S. reflexivity.
    + intros R U S. unfold gameLoop, update. rewrite R, U. cbn [negb orb].
      change (player (stampTime now g)) with (player g).
      rewrite P, S. reflexivity.
  - intros g p g' p'. cbv zeta.
    pose proof (steer_world (normalizedDt g) g p) as (W1 & W2).
    destruct (steer (normalizedDt g) g p) as [g1 p1] eqn:S.
    cbn [fst snd] in W1, W2. intros G.
    pose proof (gravity_world (normalizedDt g) (blackHoles g1) g1 p1)
      as (V1 & V2).
    rewrite G in V1, V2. cbn [outcome_game outcome_player] in V1, V2.
    split; [ | split].
    + unfold simulate. cbv zeta. rewrite S, G. reflexivity.
    + etransitivity; [exact V1 | exact W1].
    + etransitivity; [exact V2 | exact W2].
  - intros dt b bs g p rest g' p' U. cbn [updateBullets]. rewrite U.
    reflexivity.
  - intros g p g2 p2 bs g' p'. cbv zeta.
    destruct (steer (normalizedDt g) g p) as [g1 p1] eqn:S. intros G.
    destruct (updateCollectibles (normalizedDt g) (collectibles g2) g2
                (movePlayer (normalizedDt g) g2 p2))
      as [[cs g3] p4] eqn:C.
    destruct (updateBlackHoles (normalizedDt g)
                (blackHoles (set_collectibles cs g3))
                (set_collectibles cs g3) p4) as [holes g5] eqn:H.
    intros U. unfold simulate. cbv zeta. rewrite S, G, C, H, U.
    reflexivity.
Qed.

(** ** Bounds and monotonicity over a run *)

Lemma clock_ok_app es1 es2 g :
  clock_ok (es1 ++ es2) g <-> clock_ok es1 g /\ clock_ok es2 (run es1 g).
Proof.
  revert g. induction es1 as [ | e es1 IH]; intro g; cbn.
  - tauto.
  - rewrite IH. tauto.
Qed.

Lemma run_app es1 es2 g : run (es1 ++ es2) g = run es2 (run es1 g).
Proof.
  revert g. induction es1 as [ | e es1 IH]; intro g; cbn; [reflexivity | ].
  apply IH.
Qed.

Lemma startGame_Inv now now' Date_now g0 :
  Num.isFinite now' = true -> now <= now' ->
  Inv (startGame now now' Date_now g0).
Proof.
  intros F L. unfold startGame.
  apply (@gameLoop_ok now' Date_now (resetRun now g0)).
  - apply resetRun_Inv.
  - split; [exact F | exact L].
Qed.

(** C4: from the start of a run on, after every frame (and after every
    other event of the run), the energy is in [0,100], the hit points are
    in [0,maxHP] and the multiplier is in [1,10], provided the clock never
    runs backwards; inside a frame the same holds as soon as the
    integrator, the collisions and the collection effects have run, before
    the pilot is called. *)
Theorem bounds_hold_during_a_run now now' Date_now g0 es n :
  Num.isFinite now' = true -> now <= now' ->
  clock_ok es (startGame now now' Date_now g0) ->
  let g := run (firstn n es) (startGame now now' Date_now g0) in
  ((0 <= energy g <= 100) /\ (0 <= hp g <= maxHP g)
   /\ (1 <= multiplier g <= 10))
  /\ (forall next p,
        isRunning g = true -> clock_reading next g ->
        let g' := outcome_game (simulate (stampTime next g) p) in
        (0 <= energy g' <= 100) /\ (0 <= hp g' <= maxHP g')
        /\ (1 <= multiplier g' <= 10)).
Proof.
  intros F L K.
  pose proof (@startGame_Inv now now' Date_now g0 F L) as I.
  rewrite <- (firstn_skipn n es) in K. apply clock_ok_app in K.
  destruct K as (K & _).
  destruct (run_ok _ I K) as (J & _). split; [apply J | ].
  intros next p R C. destruct (clock_dt C) as (D1 & D2).
  assert (S : Inv (stampTime next
                     (run (firstn n es) (startGame now now' Date_now g0))))
    by (eapply proj1, (follows_same J); reflexivity).
  destruct (simulate_ok p S R D1 D2) as ((_ & B & _) & _). apply B.
Qed.

(** C10: between the start of a run and any later point of it, and between
    any two points of it, neither the score nor the multiplier goes down,
    provided the clock never runs backwards; the start of a run is what
    resets them, to 0 and to 1. *)
Theorem score_and_multiplier_never_decrease now now' Date_now g0 es1 es2 :
  Num.isFinite now' = true -> now <= now' ->
  clock_ok (es1 ++ es2) (startGame now now' Date_now g0) ->
  let g1 := run es1 (startGame now now' Date_now g0) in
  let g2 := run (es1 ++ es2) (startGame now now' Date_now g0) in
  (score g1 <= score g2 /\ multiplier g1 <= multiplier g2)
  /\ (score (resetRun now g0) <= score g1
      /\ multiplier (resetRun now g0) <= multiplier g1)
  /\ score (resetRun now g0) = 0 /\ multiplier (resetRun now g0) = 1.
Proof.
  intros F L K. apply clock_ok_app in K. destruct K as (K1 & K2).
  pose proof (@startGame_Inv now now' Date_now g0 F L) as I.
  pose proof (run_ok _ I K1) as (J1 & _ & _).
  pose proof (run_ok _ J1 K2) as (_ & _ & M1 & M2).
  cbn zeta. rewrite run_app. split; [split; assumption | ].
  split; [ | split; reflexivity].
  assert (G : follows (resetRun now g0) (startGame now now' Date_now g0)).
  { apply gameLoop_ok; [apply resetRun_Inv | split; assumption]. }
  pose proof (run_ok _ I K1) as R.
  destruct (follows_trans G R) as (_ & _ & N1 & N2). split; assumption.
Qed.

(** ** Collecting a points item *)

Lemma Qfloor_unique (z : Z) (x : Q) :
  (inject_Z z <= x)%Q -> (x < inject_Z (z + 1))%Q -> Qfloor x = z.
Proof.
  intros H1 H2. pose proof (Qfloor_le x) as L. pose proof (Qlt_floor x) as U.
  assert (Qfloor x < z + 1)%Z by (rewrite Zlt_Qlt; lra).
  assert (z < Qfloor x + 1)%Z by (rewrite Zlt_Qlt; lra).
  lia.
Qed.

(** The coins awarded for a draw [r] of [Math.random]: 1, 2 or 3, one
    value on each third of the range.  The two boundaries are left out by
    a margin, so that the statement does not depend on how the product
    [r * 3] is rounded next to 1 and 2. *)
Lemma coins_of_draw (r : num) :
  0 <= r -> r < 1 ->
  let coinsEarned := Math_floor (r * 3) + 1 in
  (coinsEarned = 1 \/ coinsEarned = 2 \/ coinsEarned = 3)
  /\ (r <= 0.333 -> coinsEarned = 1)
  /\ (0.334 <= r -> r <= 0.666 -> coinsEarned = 2)
  /\ (0.667 <= r -> coinsEarned = 3).
Proof.
  intros H1 H2. destruct r as [ | | r | ]; try discriminate.
  apply leb_Fin in H1. apply ltb_Fin in H2. cbv zeta.
  assert (E : Math_floor (Fin r * 3) + 1
              = if Num.Qltb r (1 # 3) then Fin 1
                else if Num.Qltb r (2 # 3) then Fin 2 else Fin 3).
  { qunfold. cbn.
    destruct (Qltb_spec r (1 # 3)); [ | destruct (Qltb_spec r (2 # 3))].
    - rewrite (@Qfloor_unique 0); [reflexivity | | ]; qred;
        unfold inject_Z; cbn; lra.
    - rewrite (@Qfloor_unique 1); [reflexivity | | ]; qred;
        unfold inject_Z; cbn; lra.
    - rewrite (@Qfloor_unique 2); [reflexivity | | ]; qred;
        unfold inject_Z; cbn; lra. }
  rewrite E. clear E.
  destruct (Qltb_spec r (1 # 3)); [ | destruct (Qltb_spec r (2 # 3))];
    repeat split; auto; intros A; try intros B;
    try reflexivity; apply leb_Fin in A; try apply leb_Fin in B;
    exfalso; lra.
Qed.

(** C8: collecting a points item adds exactly floor(100 * multiplier) to
    the score, which is 200 when the multiplier is 2, and awards
    floor(3 * r) + 1 coins for a draw [r] of [Math.random], to the coins
    and to the coins of the session alike: that is 1, 2 or 3, and it is 1
    for a draw up to 0.333, 2 for a draw from 0.334 to 0.666 and 3 for a
    draw from 0.667 on, one value on each third of the range; the energy,
    the multiplier, the hit points and the invulnerability of the player
    are left as they were. *)
Theorem points_item_effect (item : Collectible.t) (g : Game) (p : Player.t) :
  Collectible.type item = ItemType.points ->
  0 <= random (randomCalls g) -> random (randomCalls g) < 1 ->
  let r := random (randomCalls g) in
  let coinsEarned := Math_floor (r * 3) + 1 in
  let '(g', p') := collectItem item g p in
  score g' = score g + Math_floor (100 * multiplier g)
  /\ (multiplier g = 2 -> score g' = score g + 200)
  /\ coins g' = coins g + coinsEarned
  /\ sessionCoins g' = sessionCoins g + coinsEarned
  /\ energy g' = energy g /\ multiplier g' = multiplier g
  /\ hp g' = hp g /\ maxHP g' = maxHP g /\ p' = p
  /\ (coinsEarned = 1 \/ coinsEarned = 2 \/ coinsEarned = 3)
  /\ (r <= 0.333 -> coinsEarned = 1)
  /\ (0.334 <= r -> r <= 0.666 -> coinsEarned = 2)
  /\ (0.667 <= r -> coinsEarned = 3).
Proof.
  intros T H1 H2. cbn zeta. unfold collectItem. rewrite T.
  unfold Math_random, addCoins. cbn [fst snd].
  pose proof (@coins_of_draw _ H1 H2) as E. cbv zeta in E.
  split; [reflexivity |].
  split; [intro M; replace (multiplier g) with (Fin 2)
                     by (symmetry; exact M); reflexivity |].
  do 7 (split; [reflexivity |]). exact E.
Qed.

(** ** The category draw *)

(** C5: the category is chosen by a sequential cumulative-threshold draw
    over the weights 0.4, 0.35, 0.15 and 0.1: a draw [u] selects the first
    category whose running cumulative weight (0.4, 0.75, 0.9, 1) exceeds
    [u], and for every draw in [0,1), the range of [Math.random], the
    category is the one that the rule of the specification gives.  The
    fallback is not reached in that range: no threshold is met only by a
    draw of 1 or more, which would leave the initial value of [type]. *)
Theorem category_draw (u : Q) :
  chooseType (Fin u)
  = cumulativePick (hd ItemType.energy types) types weights 0 (Fin u)
  /\ chooseType (Fin u)
     = (if Fin u <? 0.4 then ItemType.energy
        else if Fin u <? 0.75 then ItemType.points
        else if Fin u <? 0.9 then ItemType.multiplier
        else if Fin u <? 1 then ItemType.shield
        else ItemType.energy)
  /\ ((Fin u <? 1) = true -> chooseType (Fin u) = specChooseType (Fin u))
  /\ ((Fin u <? 1) = false -> chooseType (Fin u) = ItemType.energy).
Proof.
  unfold chooseType, specChooseType, types, weights.
  cbn [pickType cumulativePick hd last].
  repeat split; qunfold; cbn; qbool; qred;
    try reflexivity; try discriminate; try (exfalso; lra); intros; try lra.
Qed.

(** ** The pilot's decision *)

Lemma Qsqrt_pos (a : Q) : (0 < a)%Q -> (0 < Num.Qsqrt a)%Q.
Proof.
  intro H. unfold Num.Qsqrt. rewrite Qred_correct.
  destruct a as [n d]. unfold Qlt in *. cbn in *.
  rewrite Z.mul_1_r in *. apply Z.sqrt_pos. unfold Num.sqrt_digits. nia.
Qed.

Lemma sqrt_pos (x : num) : 0 < x -> 0 < Math_sqrt x.
Proof.
  destruct x as [ | | a | ]; try discriminate; [ | reflexivity].
  intro H. apply ltb_Fin in H. unfold Math_sqrt, Num.sqrt.
  destruct (Qltb_spec a 0); [lra | ]. apply ltb_Fin. now apply Qsqrt_pos.
Qed.

(** A loop that only ever raises the danger flag leaves the accumulated
    vector alone when the flag is still down at the end. *)
Lemma flag_fold (A : Type) (f : num * num * bool -> A -> num * num * bool)
  (l : list A) :
  (forall acc a, f acc a = acc \/ snd (f acc a) = true) ->
  (forall acc a, snd acc = true -> snd (f acc a) = true) ->
  forall acc, snd (fold_left f l acc) = false -> fold_left f l acc = acc.
Proof.
  intros F1 F2. induction l as [ | a l IH]; intros acc H; cbn in *.
  - reflexivity.
  - destruct (F1 acc a) as [E | E].
    + rewrite E in *. now apply IH.
    + assert (K : forall acc', snd acc' = true ->
                    snd (fold_left f l acc') = true).
      { clear -F2. induction l as [ | b l IH]; intros acc' T; cbn; auto. }
      rewrite (K _ E) in H. discriminate.
Qed.

Lemma evasion_not_in_danger g p :
  snd (evasion g p) = false -> evasion g p = (Fin 0, Fin 0, false).
Proof.
  unfold evasion, evadeBullets, evadeHoles. intro H.
  rewrite flag_fold; [ | | | exact H].
  - apply flag_fold.
    + intros [[ex ey] d] a. branches; auto.
    + intros [[ex ey] d] a. cbn. intros ->. branches; reflexivity.
    + rewrite flag_fold in H; [exact H | | | exact H].
      * intros [[ex ey] d] a. branches; auto.
      * intros [[ex ey] d] a. cbn. intros ->. branches; reflexivity.
  - intros [[ex ey] d] a. branches; auto.
  - intros [[ex ey] d] a. cbn. intros ->. branches; reflexivity.
Qed.

(** The danger flag is up exactly when some black hole is nearer than
    0.8 times its pull radius or some bullet is nearer than 100. *)
Lemma evadeHoles_flag g p acc :
  snd (evadeHoles g p acc)
  = snd acc || existsb (holeThreat p) (blackHoles g).
Proof.
  unfold evadeHoles. generalize (blackHoles g). intros l. revert acc.
  induction l as [ | hole l IH]; intros [[ex ey] d];
    cbn [fold_left existsb snd].
  - now rewrite orb_false_r.
  - rewrite IH. unfold holeThreat. cbv zeta.
    destruct (Math_sqrt _ <? _); cbn [snd orb];
      [now rewrite orb_true_r | reflexivity].
Qed.

Lemma evadeBullets_flag g p acc :
  snd (evadeBullets g p acc)
  = snd acc || existsb (bulletThreat p) (bullets g).
Proof.
  unfold evadeBullets. generalize (bullets g). intros l. revert acc.
  induction l as [ | bullet l IH]; intros [[ex ey] d];
    cbn [fold_left existsb snd].
  - now rewrite orb_false_r.
  - rewrite IH. unfold bulletThreat. cbv zeta.
    destruct (Math_sqrt _ <? _); cbn [snd orb];
      [now rewrite orb_true_r | reflexivity].
Qed.

Lemma evasion_flag g p :
  snd (evasion g p)
  = existsb (holeThreat p) (blackHoles g)
    || existsb (bulletThreat p) (bullets g).
Proof.
  unfold evasion. rewrite evadeBullets_flag, evadeHoles_flag. reflexivity.
Qed.

(** The evasion vector when one black hole, or one bullet, is the only
    threat there is. *)
Lemma evasion_of_one_hole g p hole :
  blackHoles g = [hole] -> bullets g = [] -> holeThreat p hole = true ->
  let dx := Player.x p - BlackHole.x hole in
  let dy := Player.y p - BlackHole.y hole in
  let dist := Math_sqrt (dx * dx + dy * dy) in
  let urgency := 1 - dist / (BlackHole.pullRadius hole * 0.8) in
  fst (evasion g p)
  = (0 + (dx / dist) * urgency * 2, 0 + (dy / dist) * urgency * 2).
Proof.
  intros H B T. unfold evasion, evadeBullets, evadeHoles. rewrite H, B.
  cbn [fold_left]. unfold holeThreat in T. cbv zeta in T |- *.
  rewrite T. reflexivity.
Qed.

Lemma evasion_of_one_bullet g p bullet :
  blackHoles g = [] -> bullets g = [bullet] ->
  bulletThreat p bullet = true ->
  let dx := Player.x p - Bullet.x bullet in
  let dy := Player.y p - Bullet.y bullet in
  let dist := Math_sqrt (dx * dx + dy * dy) in
  let urgency := 1 - dist / 100 in
  fst (evasion g p)
  = (0 + (dx / dist) * urgency * 3, 0 + (dy / dist) * urgency * 3).
Proof.
  intros H B T. unfold evasion, evadeBullets, evadeHoles. rewrite H, B.
  cbn [fold_left]. unfold bulletThreat in T. cbv zeta in T |- *.
  rewrite T. reflexivity.
Qed.

Lemma clamp_bounds (w t : num) :
  100 <= w ->
  let c := Math_max 50 (Math_min (w - 50) t) in
  (c <? 50) = false /\ (c >? w - 50) = false
  /\ (Num.isNaN c = false -> 50 <= c <= w - 50).
Proof. intros H. cbn zeta. repeat split; try intros N; nums. Qed.

(** C7, amended: the pilot's decision step.  What selects the evasion
    branch is the danger flag (some black hole or bullet in range), not the
    vector: when a threat is in range, engage is (energy > 20) and the
    target is the player position plus the normalized evasion vector times
    200 if that vector has a positive length, and stays where it was
    otherwise, whether or not a collectible exists; a finite non-zero
    evasion vector implies the flag and a positive length.  When no threat
    is in range the evasion vector is zero and, if a best collectible
    exists, the target is its position and engage is (distance to it > 200
    and energy > 30).  In all cases the target is then clamped, and in a
    window at least 100 units wide and high it is never less than 50 units
    away from an edge.  A threat is in range exactly when some black hole
    is nearer to the ship than 0.8 times its pull radius or some bullet is
    nearer than 100; a black hole in range that is the only threat gives
    the evasion vector (dx / dist) * urgency * 2 on each axis, with dx the
    offset of the ship from the hole and urgency = 1 - dist / (pullRadius
    * 0.8), and a bullet in range that is the only threat gives
    (dx / dist) * urgency * 3 with urgency = 1 - dist / 100. *)
Theorem pilot_decision (Date_now : num) (g : Game) (p : Player.t) :
  player g = Some p -> botEnabled g = true ->
  let '(evadeX, evadeY, inDanger) := evasion g p in
  let evadeDist := Math_sqrt (evadeX * evadeX + evadeY * evadeY) in
  let g' := updateBot Date_now g in
  (inDanger = true ->
   mouseDown g' = (energy g >? 20)
   /\ (mouseX g', mouseY g')
      = clampTarget g
          (if evadeDist >? 0
           then (Player.x p + (evadeX / evadeDist) * 200,
                 Player.y p + (evadeY / evadeDist) * 200)
           else (mouseX g, mouseY g)))
  /\ (inDanger = false ->
      (evadeX, evadeY) = (Fin 0, Fin 0)
      /\ forall c,
          fst (findBest g p) = Some c ->
          (mouseX g', mouseY g')
          = clampTarget g (Collectible.x c, Collectible.y c)
          /\ mouseDown g'
             = (Math_hypot (Collectible.x c - Player.x p)
                           (Collectible.y c - Player.y p) >? 200)
               && (energy g >? 30))
  /\ (forall ex ey : Q,
        evadeX = Fin ex -> evadeY = Fin ey -> ~ (ex == 0 /\ ey == 0)%Q ->
        inDanger = true /\ (evadeDist >? 0) = true)
  /\ (100 <= canvasWidth g ->
      (mouseX g' <? 50) = false
      /\ (mouseX g' >? canvasWidth g - 50) = false
      /\ (Num.isNaN (mouseX g') = false ->
          50 <= mouseX g' <= canvasWidth g - 50))
  /\ (100 <= canvasHeight g ->
      (mouseY g' <? 50) = false
      /\ (mouseY g' >? canvasHeight g - 50) = false
      /\ (Num.isNaN (mouseY g') = false ->
          50 <= mouseY g' <= canvasHeight g - 50))
  /\ inDanger
     = existsb (holeThreat p) (blackHoles g)
       || existsb (bulletThreat p) (bullets g)
  /\ (forall hole,
        blackHoles g = [hole] -> bullets g = [] ->
        holeThreat p hole = true ->
        let dx := Player.x p - BlackHole.x hole in
        let dy := Player.y p - BlackHole.y hole in
        let dist := Math_sqrt (dx * dx + dy * dy) in
        let urgency := 1 - dist / (BlackHole.pullRadius hole * 0.8) in
        (evadeX, evadeY)
        = (0 + (dx / dist) * urgency * 2, 0 + (dy / dist) * urgency * 2))
  /\ (forall bullet,
        blackHoles g = [] -> bullets g = [bullet] ->
        bulletThreat p bullet = true ->
        let dx := Player.x p - Bullet.x bullet in
        let dy := Player.y p - Bullet.y bullet in
        let dist := Math_sqrt (dx * dx + dy * dy) in
        let urgency := 1 - dist / 100 in
        (evadeX, evadeY)
        = (0 + (dx / dist) * urgency * 3, 0 + (dy / dist) * urgency * 3)).
Proof.
  intros P B.
  pose proof (evasion_not_in_danger g p) as Z.
  pose proof (evasion_flag g p) as T.
  pose proof (@evasion_of_one_hole g p) as T1.
  pose proof (@evasion_of_one_bullet g p) as T2.
  unfold updateBot, botDecision. rewrite P, B. cbn [negb].
  destruct (findBest g p) as [best bestScore].
  destruct (evasion g p) as [[evadeX evadeY] inDanger].
  cbn [fst snd] in Z, T, T1, T2.
  cbn zeta.
  split; [ | split; [ | split; [ | split; [ | split]]]];
    [ | | | | | split; [exact T | split; [exact T1 | exact T2]]].
  - intros ->.
    destruct (Math_sqrt (evadeX * evadeX + evadeY * evadeY) >? 0);
      split; reflexivity.
  - intros ->. specialize (Z eq_refl). injection Z as -> ->.
    split; [reflexivity | ]. intros c E. cbn in E. subst best.
    split; reflexivity.
  - intros ex ey -> -> N.
    assert (D : inDanger = true).
    { destruct inDanger; [reflexivity | ]. specialize (Z eq_refl).
      injection Z as Zx Zy. exfalso. apply N. rewrite Zx, Zy. split; reflexivity. }
    split; [exact D | ]. apply sqrt_pos. qunfold. cbn. apply ltb_Fin.
    qred. destruct (Qlt_le_dec 0 (ex * ex + ey * ey)) as [ | L]; [assumption | ].
    exfalso. apply N. split; nra.
  - destruct inDanger.
    + destruct (Math_sqrt (evadeX * evadeX + evadeY * evadeY) >? 0);
        apply clamp_bounds.
    + destruct best; apply clamp_bounds.
  - destruct inDanger.
    + destruct (Math_sqrt (evadeX * evadeX + evadeY * evadeY) >? 0);
        apply clamp_bounds.
    + destruct best; apply clamp_bounds.
Qed.

(** ** The place of the pilot in a frame *)

(** What the integrator does to the player depends on the state only
    through the stored input and the energy. *)
Lemma steer_reads_input dt g1 g2 p :
  input g1 = input g2 -> energy g1 = energy g2 ->
  snd (steer dt g1 p) = snd (steer dt g2 p).
Proof.
  unfold input. intros I E. injection I as I1 I2 I3 I4.
  unfold steer. rewrite I1, I2, I3, I4, E.
  destruct (Math_sqrt _ >? 5); reflexivity.
Qed.


(** ** Gravity at zero distance *)

Lemma Qsqrt_zero (a : Q) : (a == 0)%Q -> Num.Qsqrt a = 0%Q.
Proof.
  intro H. unfold Num.Qsqrt.
  assert (N : Qnum a = 0%Z).
  { destruct a as [n d]. unfold Qeq in H. cbn in *. lia. }
  rewrite N. cbn [Z.mul Z.sqrt]. change 0%Q with (Qred 0).
  apply Qred_complete. reflexivity.
Qed.

(** Whenever the player sits exactly on the centre of a black hole that
    pulls (positive pull radius), the pull turns both velocity components
    into [NaN], whatever they were. *)
Lemma pull_on_the_centre (dt : num) (hole : BlackHole.t) (p : Player.t)
  (x y : Q) :
  BlackHole.x hole = Fin x -> Player.x p = Fin x ->
  BlackHole.y hole = Fin y -> Player.y p = Fin y ->
  0 < BlackHole.pullRadius hole ->
  Player.vx (pull dt hole p) = NaN /\ Player.vy (pull dt hole p) = NaN.
Proof.
  intros Hx Px Hy Py R. unfold pull. rewrite Hx, Px, Hy, Py.
  set (dx := Fin x - Fin x). set (dy := Fin y - Fin y).
  assert (Dx : exists a, dx = Fin a /\ (a == 0)%Q).
  { eexists. split; [reflexivity | ]. qred. lra. }
  assert (Dy : exists b, dy = Fin b /\ (b == 0)%Q).
  { eexists. split; [reflexivity | ]. qred. lra. }
  destruct Dx as (a & -> & Ha). destruct Dy as (b & -> & Hb).
  assert (S : Math_sqrt (Fin a * Fin a + Fin b * Fin b) = Fin 0).
  { unfold Math_sqrt, Num.sqrt. qunfold.
    destruct (Qltb_spec (Qred (Qred (a * a) + Qred (b * b))) 0) as [L | L].
    - exfalso. qred. nra.
    - f_equal. apply Qsqrt_zero. qred. rewrite Ha, Hb. reflexivity. }
  rewrite S, R.
  assert (Za : Fin a / Fin 0 = NaN).
  { unfold Num.div. cbn. apply Qeq_alt in Ha. unfold Num.signed_inf.
    now rewrite Ha. }
  assert (Zb : Fin b / Fin 0 = NaN).
  { unfold Num.div. cbn. apply Qeq_alt in Hb. unfold Num.signed_inf.
    now rewrite Hb. }
  assert (M : forall f, NaN * f = NaN) by (now intros [ | | f | ]).
  assert (A : forall v, v + NaN = NaN) by (now intros [ | | v | ]).
  cbn. rewrite Za, Zb, !M, !A. split; reflexivity.
Qed.

(** ** The wrap at the edges *)

Lemma wrap_axis (x size margin : num) :
  - margin <= size + margin ->
  (wrapAxis x size margin <? - margin) = false
  /\ (wrapAxis x size margin >? size + margin) = false.
Proof. intros H. unfold wrapAxis. cbn zeta. split; nums. Qed.

Lemma let_elim (A B : Type) (a : A) (f : A -> B) (Q : B -> Prop) :
  (forall x, x = a -> Q (f x)) -> Q (let x := a in f x).
Proof. intros H. apply H. reflexivity. Qed.

Ltac let_step Q :=
  lazymatch goal with
  | |- Q (let x := ?a in @?f x) => refine (@let_elim _ _ a f Q _)
  end;
  let x := fresh "q" in let E := fresh "E" in
  intros x E; cbv beta.

Ltac innermost_branches :=
  repeat (match goal with
          | |- context [if ?c then _ else _] =>
              lazymatch c with
              | context [if _ then _ else _] => fail
              | _ => destruct c
              end
          end; cbn).

(** [movePlayer] ends with the wrap and the invincibility timer, applied
    to a ship that has the radius and the invincibility it started with. *)
Lemma movePlayer_ends (Q : Player.t -> Prop) dt g p :
  (forall q,
      Player.radius q = Player.radius p ->
      Player.invincible q = Player.invincible p ->
      Player.invincibleTimer q = Player.invincibleTimer p ->
      Q (tickInvincibility dt (wrapPlayer g q))) ->
  Q (movePlayer dt g p).
Proof.
  intros H. cbv beta delta [movePlayer].
  do 8 let_step Q.
  apply H; subst; branches; reflexivity.
Qed.

Lemma wrapPlayer_fields g p :
  Player.x (wrapPlayer g p)
  = wrapAxis (Player.x p) (canvasWidth g) (Player.radius p)
  /\ Player.y (wrapPlayer g p)
     = wrapAxis (Player.y p) (canvasHeight g) (Player.radius p)
  /\ Player.radius (wrapPlayer g p) = Player.radius p
  /\ Player.invincible (wrapPlayer g p) = Player.invincible p
  /\ Player.invincibleTimer (wrapPlayer g p) = Player.invincibleTimer p.
Proof.
  destruct p. unfold wrapPlayer, wrapAxis. cbn.
  innermost_branches; repeat split.
Qed.

Lemma tickInvincibility_fields dt p :
  Player.x (tickInvincibility dt p) = Player.x p
  /\ Player.y (tickInvincibility dt p) = Player.y p
  /\ Player.radius (tickInvincibility dt p) = Player.radius p.
Proof. unfold tickInvincibility. branches; repeat split. Qed.

(** X1: after the move of a frame the ship is never left beyond the wrap
    margin: on both axes its position is not below minus its radius and
    not above the canvas size plus its radius, and the radius is the one it
    had.  The canvas must be large enough for the two wrap positions to be
    in this order. *)
Theorem player_stays_within_the_wrap_margin dt g p :
  - Player.radius p <= canvasWidth g + Player.radius p ->
  - Player.radius p <= canvasHeight g + Player.radius p ->
  let q := movePlayer dt g p in
  Player.radius q = Player.radius p
  /\ (Player.x q <? - Player.radius q) = false
  /\ (Player.x q >? canvasWidth g + Player.radius q) = false
  /\ (Player.y q <? - Player.radius q) = false
  /\ (Player.y q >? canvasHeight g + Player.radius q) = false.
Proof.
  intros H V. cbv zeta. apply movePlayer_ends. intros q R _ _.
  rewrite <- R in H, V |- *.
  destruct (tickInvincibility_fields dt (wrapPlayer g q)) as (-> & -> & ->).
  destruct (wrapPlayer_fields g q) as (-> & -> & -> & _).
  destruct (@wrap_axis (Player.x q) _ _ H) as (X1 & X2).
  destruct (@wrap_axis (Player.y q) _ _ V) as (Y1 & Y2).
  repeat split; assumption.
Qed.

(** ** The collectibles loop *)

Lemma collectItem_position item g p :
  let p' := snd (collectItem item g p) in
  Player.x p' = Player.x p /\ Player.y p' = Player.y p
  /\ Player.radius p' = Player.radius p.
Proof.
  unfold collectItem. destruct (Collectible.type item); repeat split.
Qed.

Lemma touchesCollectible_position c p p' :
  Player.x p' = Player.x p -> Player.y p' = Player.y p ->
  Player.radius p' = Player.radius p ->
  touchesCollectible c p' = touchesCollectible c p.
Proof. intros X Y R. unfold touchesCollectible. now rewrite X, Y, R. Qed.

Lemma canvas_of_setting g g' :
  setting g' = setting g ->
  canvasWidth g' = canvasWidth g /\ canvasHeight g' = canvasHeight g.
Proof. unfold setting. intros H. now inversion H. Qed.

(** X2: the collectibles loop as a whole.  Every collectible is moved and
    aged first; the loop keeps, in their order, those that neither touch
    the ship nor are out of bounds nor older than 600; it collects those
    that touch the ship, the last of the array first; and it leaves the
    ship where it is. *)
Theorem collectibles_loop_is_a_filter dt cs g p :
  let moved := map (moveCollectible dt) cs in
  let '(rest, g', p') := updateCollectibles dt cs g p in
  rest = filter (keptCollectible g p) moved
  /\ (g', p')
     = collectAll (filter (fun c => touchesCollectible c p) moved) g p
  /\ Player.x p' = Player.x p /\ Player.y p' = Player.y p
  /\ Player.radius p' = Player.radius p.
Proof.
  cbv zeta. induction cs as [|c cs IH]; [cbn; repeat split |].
  cbn [updateCollectibles map filter].
  pose proof (updateCollectibles_calm dt cs g p) as (S & _).
  destruct (updateCollectibles dt cs g p) as [[rest g1] p1].
  cbn [fst snd] in S. destruct IH as (-> & E & X & Y & R).
  apply canvas_of_setting in S. destruct S as (W & H).
  set (c' := moveCollectible dt c).
  assert (O : outOfBounds (Collectible.x c') (Collectible.y c') g1
              = outOfBounds (Collectible.x c') (Collectible.y c') g)
    by (unfold outOfBounds; now rewrite W, H).
  rewrite (@touchesCollectible_position c' _ _ X Y R), O.
  assert (K : keptCollectible g p c'
              = negb (touchesCollectible c' p)
                && negb (outOfBounds (Collectible.x c') (Collectible.y c') g
                         || (Collectible.lifetime c' >? 600)))
    by reflexivity.
  rewrite K. clear K.
  destruct (touchesCollectible c' p) eqn:T.
  - pose proof (collectItem_position c' g1 p1) as P.
    cbv zeta in P. unfold collectAll in *. cbn [fold_right]. rewrite <- E.
    cbn [fst snd negb andb].
    destruct (collectItem c' g1 p1) as [g2 p2].
    cbn [snd] in P. destruct P as (X2 & Y2 & R2).
    rewrite X2, Y2, R2. repeat split; try assumption.
  - cbn [negb andb].
    match goal with |- context [if ?b then _ else _] => destruct b end;
      cbn [negb]; repeat split; assumption.
Qed.

(** ** The bullets loop and the black holes loop *)

(** X3: while the ship is invincible the bullets loop hits nothing: it
    moves and ages every bullet, removes those whose life is over or that
    are out of bounds, keeps the others in their order, even those that
    touch the ship, and leaves the game and the ship as they were. *)
Theorem bullets_pass_an_invincible_ship dt bs g p :
  Player.invincible p = true ->
  updateBullets dt bs g p
  = (filter (keptBullet g) (map (moveBullet dt) bs), Continue g p).
Proof.
  intros I. induction bs as [|b bs IH]; [reflexivity |].
  cbn [updateBullets map filter]. rewrite IH, I.
  rewrite andb_false_r. set (b' := moveBullet dt b).
  assert (K : keptBullet g b'
              = negb ((Bullet.life b' <=? 0)
                      || outOfBounds (Bullet.x b') (Bullet.y b') g))
    by reflexivity.
  rewrite K.
  destruct ((Bullet.life b' <=? 0)
            || outOfBounds (Bullet.x b') (Bullet.y b') g); reflexivity.
Qed.

(** X4: the black holes loop as a whole.  Every black hole that is left
    is one of the old ones a frame later, at the same place and with the
    same size, strength and life span, and it has not outlived its life
    span; the bullets that were there are kept in front, and behind them
    comes one new bullet for every black hole that was due to fire, at
    the place of a black hole, with radius 6 and life 300. *)
Theorem black_holes_loop dt holes g p :
  let '(rest, g') := updateBlackHoles dt holes g p in
  Forall (fun h' =>
            (exists h, In h holes /\ agedHole dt h h')
            /\ (BlackHole.lifetime h' >? BlackHole.maxLifetime h') = false)
         rest
  /\ exists fired,
      bullets g' = bullets g ++ fired
      /\ length fired = length (filter (fires dt) holes)
      /\ Forall (fun b => exists h, In h holes /\ firedBy h b) fired.
Proof.
  induction holes as [|hole holes IH].
  - cbn. split; [constructor |]. exists []. rewrite app_nil_r.
    repeat split. constructor.
  - cbn [updateBlackHoles].
    destruct (updateBlackHoles dt holes g p) as [rest g1].
    destruct IH as (A & fired & B & L & F).
    assert (A' : Forall (fun h' =>
                (exists h, In h (hole :: holes) /\ agedHole dt h h')
                /\ (BlackHole.lifetime h' >? BlackHole.maxLifetime h') = false)
              rest).
    { eapply Forall_impl; [| exact A]. cbn beta.
      intros h' ((h & Hin & Hag) & Hl). split; [| exact Hl].
      exists h. split; [now right | exact Hag]. }
    assert (F' : Forall (fun b => exists h, In h (hole :: holes) /\ firedBy h b)
                   fired).
    { eapply Forall_impl; [| exact F]. cbn beta.
      intros b (h & Hin & Hf). exists h. split; [now right | exact Hf]. }
    cbn [filter]. fold (fires dt hole).
    destruct (fires dt hole) eqn:Fi.
    + unfold Math_random. cbn [spawnBullet].
      match goal with
      | |- context [if ?c then _ else _] => destruct c eqn:Old
      end.
      * split; [exact A' |].
        eexists (fired ++ [_]). cbn [filter length].
        split; [rewrite app_assoc; cbn; apply (f_equal2 (@app _)); [exact B | reflexivity] |].
        split; [rewrite length_app, L; cbn; lia |].
        apply Forall_app. split; [exact F' |]. constructor; [| constructor].
        exists hole. split; [now left | repeat split].
      * split.
        { constructor; [| exact A']. split; [| exact Old].
          exists hole. split; [now left |].
          unfold agedHole. rewrite Fi. repeat split. }
        eexists (fired ++ [_]). cbn [filter length].
        split; [rewrite app_assoc; cbn; apply (f_equal2 (@app _)); [exact B | reflexivity] |].
        split; [rewrite length_app, L; cbn; lia |].
        apply Forall_app. split; [exact F' |]. constructor; [| constructor].
        exists hole. split; [now left | repeat split].
    + match goal with
      | |- context [if ?c then _ else _] => destruct c eqn:Old
      end.
      * split; [exact A' |]. exists fired. repeat split; assumption.
      * split.
        { constructor; [| exact A']. split; [| exact Old].
          exists hole. split; [now left |].
          unfold agedHole. rewrite Fi. repeat split. }
        exists fired. repeat split; assumption.
Qed.

(** ** At most one hit per frame *)

Lemma pull_invincibility dt hole p :
  Player.invincible (pull dt hole p) = Player.invincible p
  /\ Player.invincibleTimer (pull dt hole p) = Player.invincibleTimer p.
Proof. unfold pull. branches; split; reflexivity. Qed.

Lemma takeDamage_hit g p :
  Player.invincible p = false ->
  let '(g', p', dead) := takeDamage g p in
  hp g' = hp g - 1
  /\ (dead = false ->
      Player.invincible p' = true /\ Player.invincibleTimer p' = 120).
Proof.
  intros I. unfold takeDamage. rewrite I. cbn.
  match goal with |- context [if ?c then _ else _] => destruct c end;
    repeat split; discriminate.
Qed.

Lemma gravity_hitOnce dt holes g p : hitOnce g p (gravity dt holes g p).
Proof.
  revert g p. induction holes as [|hole holes IH]; intros g p.
  - left. cbn. split; [reflexivity | intros I; repeat split; exact I].
  - cbn [gravity]. destruct (pull_invincibility dt hole p) as (I & T).
    destruct (insideHorizon hole (pull dt hole p)
              && negb (Player.invincible (pull dt hole p))) eqn:C.
    + apply andb_prop in C. destruct C as (_ & C).
      apply negb_true_iff in C.
      pose proof (@takeDamage_hit g _ C) as D.
      destruct (takeDamage g (pull dt hole p)) as [[g1 p1] dead].
      destruct D as (H1 & D). rewrite I in C. right. destruct dead.
      * cbn. destruct (gameOver_frame g1) as (_ & _ & _ & _ & _ & _ & ->).
        repeat split; try assumption; discriminate.
      * destruct (D eq_refl) as (I1 & T1).
        destruct (IH g1 p1) as [(H2 & K) | (_ & K & _)];
          [| congruence].
        destruct (K I1) as (R2 & I2 & T2).
        repeat split; try congruence.
    + specialize (IH g (pull dt hole p)). unfold hitOnce in *.
      rewrite I, T in IH. exact IH.
Qed.

Lemma updateBullets_hitOnce dt bs g p :
  hitOnce g p (snd (updateBullets dt bs g p)).
Proof.
  induction bs as [|b bs IH].
  - left. cbn. split; [reflexivity | intros I; repeat split; exact I].
  - cbn [updateBullets].
    destruct (updateBullets dt bs g p) as [rest [g1 p1 | g1 p1]];
      cbn [snd] in IH; [| exact IH].
    destruct (touchesBullet (moveBullet dt b) p1
              && negb (Player.invincible p1)) eqn:C.
    + apply andb_prop in C. destruct C as (_ & C).
      apply negb_true_iff in C.
      pose proof (@takeDamage_hit (createExplosion 15 g1) _ C) as D.
      destruct (takeDamage (createExplosion 15 g1) p1) as [[g2 p2] dead].
      destruct D as (H2 & D).
      change (hp (createExplosion 15 g1)) with (hp g1) in H2.
      destruct IH as [(H1 & K) | (H1 & _ & K)]; cbn in H1, K;
        [| destruct (K eq_refl); congruence].
      assert (I : Player.invincible p = false).
      { destruct (Player.invincible p); [| reflexivity].
        destruct (K eq_refl) as (_ & I1 & _). congruence. }
      right. destruct dead; cbn [snd outcome_game outcome_player returned].
      * destruct (gameOver_frame g2) as (_ & _ & _ & _ & _ & _ & ->).
        repeat split; try congruence; discriminate.
      * destruct (D eq_refl). repeat split; congruence.
    + match goal with |- context [if ?c then _ else _] => destruct c end;
        exact IH.
Qed.

Lemma steer_hp dt g p :
  hp (fst (steer dt g p)) = hp g
  /\ Player.invincible (snd (steer dt g p)) = Player.invincible p
  /\ Player.invincibleTimer (snd (steer dt g p)) = Player.invincibleTimer p.
Proof. unfold steer. branches; repeat split. Qed.

Lemma collectItem_hp item g p :
  hp (fst (collectItem item g p)) = hp g
  /\ (Player.invincible p = true ->
      Player.invincible (snd (collectItem item g p)) = true).
Proof.
  unfold collectItem. destruct (Collectible.type item); split;
    try reflexivity; intros I; try exact I; reflexivity.
Qed.

Lemma updateCollectibles_hp dt cs g p :
  let '(_, g', p') := updateCollectibles dt cs g p in
  hp g' = hp g
  /\ (Player.invincible p = true -> Player.invincible p' = true).
Proof.
  induction cs as [|c cs IH]; [cbn; split; [reflexivity | exact id] |].
  cbn [updateCollectibles].
  destruct (updateCollectibles dt cs g p) as [[rest g1] p1].
  destruct IH as (H1 & I1).
  destruct (touchesCollectible (moveCollectible dt c) p1).
  - pose proof (collectItem_hp (moveCollectible dt c) g1 p1) as (H2 & I2).
    destruct (collectItem (moveCollectible dt c) g1 p1) as [g2 p2].
    cbn [fst snd] in *. split; [congruence | auto].
  - match goal with |- context [if ?c then _ else _] => destruct c end;
      split; assumption.
Qed.

Lemma tickInvincibility_keeps dt p t :
  Player.invincible p = true -> Player.invincibleTimer p = t ->
  (t - dt <=? 0) = false ->
  Player.invincible (tickInvincibility dt p) = true.
Proof.
  destruct p. cbn. intros -> -> D. unfold tickInvincibility. cbn.
  rewrite D. reflexivity.
Qed.

Lemma movePlayer_keeps_fresh_invincibility dt g p :
  Player.invincible p = true -> Player.invincibleTimer p = 120 ->
  (120 - dt <=? 0) = false ->
  Player.invincible (movePlayer dt g p) = true.
Proof.
  intros I T D. apply movePlayer_ends. intros q _ Iq Tq.
  destruct (wrapPlayer_fields g q) as (_ & _ & _ & Iw & Tw).
  apply tickInvincibility_keeps with (t := Fin 120); [| | exact D].
  - etransitivity; [exact Iw |]. etransitivity; [exact Iq | exact I].
  - etransitivity; [exact Tw |]. etransitivity; [exact Tq | exact T].
Qed.

Lemma difficulty_hp g : hp (difficulty g) = hp g.
Proof. unfold difficulty. branches; reflexivity. Qed.

Lemma simulate_hp g p :
  (120 - normalizedDt g <=? 0) = false ->
  let g' := outcome_game (simulate g p) in
  hp g' = hp g \/ hp g' = hp g - 1.
Proof.
  intros D. cbv zeta. unfold simulate.
  pose proof (steer_hp (normalizedDt g) g p) as (H0 & _).
  destruct (steer (normalizedDt g) g p) as [g0 p0]. cbn [fst snd] in H0.
  pose proof (gravity_hitOnce (normalizedDt g) (blackHoles g0) g0 p0) as G.
  destruct (gravity (normalizedDt g) (blackHoles g0) g0 p0) as [g1 p1|g1 p1];
    [| destruct G as [(G & _) | (G & _)]; cbn in G |- *;
       [left | right]; congruence].
  set (p2 := movePlayer (normalizedDt g) g1 p1).
  assert (I2 : hp g1 = hp g0 - 1 -> Player.invincible p1 = true ->
               Player.invincibleTimer p1 = 120 ->
               Player.invincible p2 = true).
  { intros _ I T. now apply movePlayer_keeps_fresh_invincibility. }
  clearbody p2.
  pose proof (updateCollectibles_hp (normalizedDt g) (collectibles g1) g1 p2)
    as C.
  destruct (updateCollectibles (normalizedDt g) (collectibles g1) g1 p2)
    as [[cs g3] p3].
  destruct C as (H3 & I3).
  pose proof (updateBlackHoles_frame (normalizedDt g)
                (blackHoles (set_collectibles cs g3))
                (set_collectibles cs g3) p3) as (_ & S4 & _).
  destruct (updateBlackHoles (normalizedDt g)
              (blackHoles (set_collectibles cs g3))
              (set_collectibles cs g3) p3) as [holes g4].
  cbn [snd] in S4. apply stats_eq in S4.
  destruct S4 as (_ & _ & _ & _ & H4). cbn in H4.
  pose proof (updateBullets_hitOnce (normalizedDt g)
                (bullets (set_blackHoles holes g4))
                (set_blackHoles holes g4) p3) as B.
  assert (H5 : forall bs g5 p5,
             hp (difficulty (spawning (normalizedDt g) (set_bullets bs g5) p5))
             = hp g5).
  { intros bs g5 p5. rewrite difficulty_hp.
    destruct (spawning_frame (normalizedDt g) (set_bullets bs g5) p5)
      as (_ & S). apply stats_eq in S. now destruct S as (_ & _ & _ & _ & ->). }
  destruct (updateBullets (normalizedDt g)
              (bullets (set_blackHoles holes g4))
              (set_blackHoles holes g4) p3) as [bs [g5 p5 | g5 p5]];
    cbn [snd] in B; cbn [outcome_game]; try rewrite H5;
    change (hp (set_bullets bs g5)) with (hp g5).
  all: destruct G as [(G & K) | (G & _ & K)]; cbn in G, K.
  all: destruct B as [(B & Kb) | (B & Ib & Kb)]; cbn in B, Kb.
  all: change (hp (set_blackHoles holes g4)) with (hp g4) in B.
  all: try (left; congruence).
  all: try (right; congruence).
  all: destruct (K eq_refl) as (I1 & T1).
  all: specialize (I2 G I1 T1); specialize (I3 I2); congruence.
Qed.

Lemma timer_outlasts_a_frame now g :
  (120 - normalizedDt (stampTime now g) <=? 0) = false.
Proof.
  unfold normalizedDt, stampTime. cbn.
  generalize (now - lastTime g). intros x. destruct x; qsolve.
Qed.

Lemma gameLoop_hp now Date_now g :
  hp (gameLoop now Date_now g) = hp g
  \/ hp (gameLoop now Date_now g) = hp g - 1.
Proof.
  unfold gameLoop.
  destruct (negb (isRunning g) || isPaused g); [now left |].
  unfold update. change (player (stampTime now g)) with (player g).
  destruct (player g) as [p|]; [| now left].
  pose proof (@simulate_hp (stampTime now g) p (timer_outlasts_a_frame now g))
    as H.
  cbv zeta in H. change (hp (stampTime now g)) with (hp g) in H.
  destruct (simulate (stampTime now g) p) as [g1 p1 | g1 p1];
    cbn [outcome_game] in H; [| exact H].
  destruct (updateBot_frame Date_now (set_player (Some p1) g1)) as (_ & S & _).
  apply stats_eq in S. destruct S as (_ & _ & _ & _ & S).
  change (hp (set_player (Some p1) g1)) with (hp g1) in S.
  destruct H as [H | H]; [left | right];
    (etransitivity; [exact S | exact H]).
Qed.

(** X5: no event costs more than one hit point.  A frame in which the
    ship is hit makes it invincible for 120 time units, more than a frame
    can last, so that neither another black hole nor a bullet hits it in
    the same frame. *)
Theorem an_event_costs_at_most_one_hit_point e g :
  hp (handle e g) = hp g \/ hp (handle e g) = hp g - 1.
Proof.
  destruct e; cbn [handle]; try (now left).
  - apply gameLoop_hp.
  - destruct (isRunning g); [| now left]. unfold togglePause.
    destruct (negb (isRunning g)); [now left |]. cbn.
    destruct (negb (isPaused g)); [now left |].
    apply (gameLoop_hp now' Date_now
             (set_lastTime now (set_isPaused false g))).
  - unfold resumeGame.
    apply (gameLoop_hp now' Date_now
             (set_lastTime now (set_isPaused false g))).
Qed.

(** ** The number of black holes *)

Lemma takeDamage_blackHoles g p :
  blackHoles (fst (fst (takeDamage g p))) = blackHoles g.
Proof. unfold takeDamage. branches; reflexivity. Qed.

Lemma gravity_blackHoles dt holes g p :
  blackHoles (outcome_game (gravity dt holes g p)) = blackHoles g.
Proof.
  revert g p. induction holes as [|hole holes IH]; intros g p;
    [reflexivity |].
  cbn [gravity].
  destruct (insideHorizon hole (pull dt hole p)
            && negb (Player.invincible (pull dt hole p))); [| apply IH].
  pose proof (takeDamage_blackHoles g (pull dt hole p)) as T.
  destruct (takeDamage g (pull dt hole p)) as [[g1 p1] dead].
  cbn [fst] in T. destruct dead.
  - unfold gameOver. cbn. branches; exact T.
  - etransitivity; [apply IH | exact T].
Qed.

Lemma collectItem_blackHoles item g p :
  blackHoles (fst (collectItem item g p)) = blackHoles g.
Proof.
  unfold collectItem, Math_random.
  destruct (Collectible.type item); reflexivity.
Qed.

Lemma updateCollectibles_blackHoles dt cs g p :
  blackHoles (snd (fst (updateCollectibles dt cs g p))) = blackHoles g.
Proof.
  induction cs as [|c cs IH]; [reflexivity |].
  cbn [updateCollectibles].
  destruct (updateCollectibles dt cs g p) as [[rest g1] p1].
  cbn [fst snd] in IH.
  destruct (touchesCollectible (moveCollectible dt c) p1).
  - pose proof (collectItem_blackHoles (moveCollectible dt c) g1 p1) as C.
    destruct (collectItem (moveCollectible dt c) g1 p1) as [g2 p2].
    cbn [fst snd] in *. etransitivity; [exact C | exact IH].
  - match goal with |- context [if ?c then _ else _] => destruct c end;
      exact IH.
Qed.

Lemma updateBlackHoles_length dt holes g p :
  (length (fst (updateBlackHoles dt holes g p)) <= length holes)%nat.
Proof.
  induction holes as [|hole holes IH]; [apply le_n |].
  cbn [updateBlackHoles].
  destruct (updateBlackHoles dt holes g p) as [rest g1]. cbn [fst] in IH.
  repeat match goal with
         | |- context [let '(_, _) := ?x in _] => destruct x
         end.
  match goal with |- context [if ?c then _ else _] => destruct c end;
    cbn [fst length]; lia.
Qed.

Lemma updateBullets_blackHoles dt bs g p :
  blackHoles (outcome_game (snd (updateBullets dt bs g p))) = blackHoles g.
Proof.
  induction bs as [|b bs IH]; [reflexivity |].
  cbn [updateBullets].
  destruct (updateBullets dt bs g p) as [rest [g1 p1 | g1 p1]];
    cbn [snd outcome_game] in IH; [| exact IH].
  destruct (touchesBullet (moveBullet dt b) p1
            && negb (Player.invincible p1)).
  - pose proof (takeDamage_blackHoles (createExplosion 15 g1) p1) as T.
    destruct (takeDamage (createExplosion 15 g1) p1) as [[g2 p2] dead].
    cbn [fst] in T. destruct dead; cbn [snd outcome_game].
    + unfold gameOver. cbn. branches; (etransitivity; [exact T | exact IH]).
    + etransitivity; [exact T | exact IH].
  - match goal with |- context [if ?c then _ else _] => destruct c end;
      exact IH.
Qed.

Lemma spawnCollectible_blackHoles g :
  blackHoles (spawnCollectible g) = blackHoles g.
Proof.
  unfold spawnCollectible, edgePosition, Math_random. branches; reflexivity.
Qed.

Lemma samplePosition_blackHoles n pl g :
  blackHoles (snd (samplePosition n pl g)) = blackHoles g.
Proof.
  revert g. induction n as [|n IH]; intros g; [reflexivity |].
  cbn [samplePosition]. unfold Math_random. cbn.
  destruct pl as [p|]; [| reflexivity].
  match goal with |- context [if ?c then _ else _] => destruct c end;
    [| reflexivity].
  etransitivity; [apply IH | reflexivity].
Qed.

Lemma spawnBlackHole_blackHoles pl g :
  exists hole, blackHoles (spawnBlackHole pl g) = blackHoles g ++ [hole].
Proof.
  unfold spawnBlackHole.
  pose proof (samplePosition_blackHoles 49 pl g) as S.
  destruct (samplePosition 49 pl g) as [[x y] g1]. cbn [snd] in S.
  unfold Math_random. cbn. eexists.
  apply (f_equal2 (@app _)); [exact S | reflexivity].
Qed.

(** The test in front of the black hole spawn lets at most seven pass. *)
Lemma below_the_cap (A : Type) (l : list A) (a : num) :
  length_num l < Math_min a 8 -> (length l < 8)%nat.
Proof.
  unfold length_num. generalize (length l). intros n H.
  assert (Q : (inject_Z (Z.of_nat n) < 8)%Q).
  { destruct a; revert H; qunfold; cbn; qbool; try discriminate;
      try (intros _; lra). }
  unfold Qlt, inject_Z in Q. cbn in Q. lia.
Qed.

Lemma spawning_holeCount dt g p :
  (holeCount g <= 8)%nat -> (holeCount (spawning dt g p) <= 8)%nat.
Proof.
  intros H. unfold spawning.
  set (g1 := set_difficultyTimer _ _).
  set (g2 := if spawnTimer g1 >? 60 then _ else g1).
  assert (E : holeCount g2 = holeCount g).
  { unfold holeCount. apply (f_equal (@length _)).
    unfold g2. destruct (spawnTimer g1 >? 60); [| reflexivity].
    unfold Math_random. cbv beta iota.
    match goal with |- context [if ?c then _ else _] => destruct c end;
      repeat (etransitivity; [apply spawnCollectible_blackHoles |]);
      reflexivity. }
  clearbody g2. clear g1.
  destruct (length_num (blackHoles g2)
            <? Math_min (3 + Math_floor (level g2 / 2)) 8) eqn:C;
    [| now rewrite E].
  apply below_the_cap in C. change (holeCount g2 < 8)%nat in C.
  unfold Math_random. cbv beta iota.
  match goal with |- context [if ?c then _ else _] => destruct c end;
    [| change (holeCount g2 <= 8)%nat; lia].
  match goal with
  | |- context [spawnBlackHole ?pl ?g'] =>
      destruct (spawnBlackHole_blackHoles pl g') as (hole & S)
  end.
  apply (f_equal (@length _)) in S. rewrite length_app in S.
  unfold holeCount at 1. rewrite S. cbn [length].
  change (holeCount g2 + 1 <= 8)%nat. lia.
Qed.

Lemma simulate_holeCount g p :
  (holeCount g <= 8)%nat ->
  (holeCount (outcome_game (simulate g p)) <= 8)%nat.
Proof.
  intros H. unfold simulate.
  assert (S0 : blackHoles (fst (steer (normalizedDt g) g p)) = blackHoles g)
    by (unfold steer; branches; reflexivity).
  destruct (steer (normalizedDt g) g p) as [g0 p0]. cbn [fst] in S0.
  pose proof (gravity_blackHoles (normalizedDt g) (blackHoles g0) g0 p0) as G.
  assert (H1 : (holeCount (outcome_game
                             (gravity (normalizedDt g) (blackHoles g0) g0 p0))
                <= 8)%nat).
  { unfold holeCount at 1. rewrite G, S0. exact H. }
  clear G.
  destruct (gravity (normalizedDt g) (blackHoles g0) g0 p0) as [g1 p1|g1 p1];
    cbn [outcome_game] in H1; [| exact H1].
  set (p2 := movePlayer (normalizedDt g) g1 p1). clearbody p2.
  pose proof (updateCollectibles_blackHoles (normalizedDt g)
                (collectibles g1) g1 p2) as C.
  destruct (updateCollectibles (normalizedDt g) (collectibles g1) g1 p2)
    as [[cs g3] p3].
  cbn [fst snd] in C.
  pose proof (updateBlackHoles_length (normalizedDt g)
                (blackHoles (set_collectibles cs g3))
                (set_collectibles cs g3) p3) as L.
  destruct (updateBlackHoles (normalizedDt g)
              (blackHoles (set_collectibles cs g3))
              (set_collectibles cs g3) p3) as [holes g4].
  cbn [fst] in L.
  assert (H4 : (holeCount (set_blackHoles holes g4) <= 8)%nat).
  { change (length holes <= 8)%nat.
    etransitivity; [exact L |]. change (length (blackHoles g3) <= 8)%nat.
    rewrite C. exact H1. }
  clear L C.
  pose proof (updateBullets_blackHoles (normalizedDt g)
                (bullets (set_blackHoles holes g4))
                (set_blackHoles holes g4) p3) as B.
  apply (f_equal (@length _)) in B.
  change (holeCount (outcome_game
            (snd (updateBullets (normalizedDt g)
                    (bullets (set_blackHoles holes g4))
                    (set_blackHoles holes g4) p3)))
          = holeCount (set_blackHoles holes g4)) in B.
  destruct (updateBullets (normalizedDt g)
              (bullets (set_blackHoles holes g4))
              (set_blackHoles holes g4) p3) as [bs [g5 p5 | g5 p5]];
    cbn [snd outcome_game] in B |- *.
  - assert (D : forall g', holeCount (difficulty g') = holeCount g')
      by (intros g'; unfold difficulty; branches; reflexivity).
    rewrite D. apply spawning_holeCount.
    change (holeCount g5 <= 8)%nat. lia.
  - change (holeCount g5 <= 8)%nat. lia.
Qed.

Lemma handle_holeCount e g :
  (holeCount g <= 8)%nat -> (holeCount (handle e g) <= 8)%nat.
Proof.
  intros H.
  assert (L : forall now Date_now g',
             (holeCount g' <= 8)%nat ->
             (holeCount (gameLoop now Date_now g') <= 8)%nat).
  { intros now Date_now g' H'. unfold gameLoop.
    destruct (negb (isRunning g') || isPaused g'); [exact H' |].
    unfold update. change (player (stampTime now g')) with (player g').
    destruct (player g') as [p|]; [| exact H'].
    pose proof (@simulate_holeCount (stampTime now g') p H') as S.
    destruct (simulate (stampTime now g') p) as [g1 p1 | g1 p1];
      cbn [outcome_game] in S; [| exact S].
    unfold updateBot. cbn. branches; exact S. }
  destruct e; cbn [handle]; try exact H.
  - now apply L.
  - destruct (isRunning g); [| exact H]. unfold togglePause.
    destruct (negb (isRunning g)); [exact H |]. cbn.
    destruct (negb (isPaused g)); [exact H |]. now apply L.
  - unfold resumeGame. now apply L.
Qed.

(** X6: there are never more than eight black holes.  A run starts with
    none, a frame adds at most one, and only while there are fewer than
    the smaller of [3 + floor(level / 2)] and 8. *)
Theorem never_more_than_eight_black_holes now now' Date_now g0 es :
  (length (blackHoles (run es (startGame now now' Date_now g0))) <= 8)%nat.
Proof.
  change (holeCount (run es (startGame now now' Date_now g0)) <= 8)%nat.
  assert (R : forall g, (holeCount g <= 8)%nat ->
                        (holeCount (run es g) <= 8)%nat).
  { induction es as [|e es IH]; intros g H; [exact H |].
    cbn [run]. apply IH. now apply handle_holeCount. }
  apply R. unfold startGame.
  apply (handle_holeCount (Frame now' Date_now)).
  unfold holeCount, resetRun, createPlayer. cbn. lia.
Qed.

(** ** Spawning *)

Lemma samplePosition_spec n pl g :
  let '(x, y, g') := samplePosition n pl g in
  exists j,
    (j <= n)%nat
    /\ randomCalls g' = (randomCalls g + 2 * S j)%nat
    /\ x = 100 + random (randomCalls g + 2 * j) * (canvasWidth g - 100 * 2)
    /\ y = 100 + random (S (randomCalls g + 2 * j))
                 * (canvasHeight g - 100 * 2)
    /\ level g' = level g
    /\ match pl with
       | Some p =>
           (Math_hypot (x - Player.x p) (y - Player.y p) <? 200) = false
           \/ j = n
       | None => j = 0%nat
       end.
Proof.
  assert (Z : forall k, (k + 2 * 0)%nat = k) by (intros; lia).
  revert g. induction n as [|n IH]; intros g.
  - cbn [samplePosition]. unfold Math_random. cbv beta iota zeta.
    exists 0%nat. rewrite Z.
    repeat split; try (cbn; lia). destruct pl; auto.
  - cbn [samplePosition]. unfold Math_random. cbv beta iota zeta.
    destruct pl as [p|].
    + match goal with |- context [if ?c then _ else _] => destruct c eqn:C end.
      * match goal with |- context [samplePosition n _ ?h] =>
          specialize (IH h); destruct (samplePosition n (Some p) h)
            as [[x y] g'] end.
        destruct IH as (j & J & R & X & Y & L & D).
        exists (S j). cbn in R, X, Y, L.
        replace (randomCalls g + 2 * S j)%nat
          with (S (S (randomCalls g)) + 2 * j)%nat by lia.
        repeat split; try assumption; try lia.
        destruct D as [D | D]; [left; exact D | right; lia].
      * exists 0%nat. rewrite Z.
        repeat split; try (cbn; lia). left. exact C.
    + exists 0%nat. rewrite Z. repeat split; cbn; lia.
Qed.

Lemma spawn_ranges (r : num) :
  0 <= r -> r < 1 ->
  (30 <= 30 + r * 20 <= 50) /\ (150 <= 150 + r * 100 <= 250)
  /\ (500 <= 500 + r * 300 <= 800) /\ (120 <= 120 + r * 60 <= 180).
Proof. intros H1 H2. repeat split; nums. Qed.

Lemma sample_in_canvas (r w : num) :
  0 <= r -> r < 1 -> Num.isFinite w = true -> 200 <= w ->
  100 <= 100 + r * (w - 100 * 2) <= w - 100.
Proof.
  intros H1 H2 H3 H4. destruct r as [| |r|], w as [| |w|]; try discriminate.
  apply leb_Fin in H1, H4. apply ltb_Fin in H2.
  qunfold. cbn. split; apply Qle_bool_iff; qred; nra.
Qed.

(** X7: what [spawnBlackHole] adds when the draws of [Math.random] are in
    [0, 1).  One black hole is put behind those that are there; its
    radius is between 30 and 50, its pull radius between 150 and 250, its
    life span between 500 and 800 and its first shooting interval between
    120 and 180, so that its pull reaches beyond its horizon; it is new,
    and its strength is 0.3 + 0.05 * level.  On a canvas of at least
    200 by 200 it lies at least 100 from every edge.  When there is a
    ship, it lies at least 200 away from it, unless fifty positions have
    been tried, which has taken a hundred draws. *)
Theorem black_hole_spawn pl g :
  (forall n, 0 <= random n /\ random n < 1) ->
  exists hole,
    blackHoles (spawnBlackHole pl g) = blackHoles g ++ [hole]
    /\ (30 <= BlackHole.radius hole <= 50)
    /\ (150 <= BlackHole.pullRadius hole <= 250)
    /\ (500 <= BlackHole.maxLifetime hole <= 800)
    /\ (120 <= BlackHole.shootInterval hole <= 180)
    /\ BlackHole.radius hole <= BlackHole.pullRadius hole
    /\ BlackHole.lifetime hole = 0 /\ BlackHole.shootTimer hole = 0
    /\ BlackHole.strength hole = 0.3 + level g * 0.05
    /\ (Num.isFinite (canvasWidth g) = true -> 200 <= canvasWidth g ->
        100 <= BlackHole.x hole <= canvasWidth g - 100)
    /\ (Num.isFinite (canvasHeight g) = true -> 200 <= canvasHeight g ->
        100 <= BlackHole.y hole <= canvasHeight g - 100)
    /\ match pl with
       | Some p =>
           (Math_hypot (BlackHole.x hole - Player.x p)
                       (BlackHole.y hole - Player.y p) <? 200) = false
           \/ randomCalls (spawnBlackHole pl g) = (randomCalls g + 104)%nat
       | None => randomCalls (spawnBlackHole pl g) = (randomCalls g + 6)%nat
       end.
Proof.
  intros U. unfold spawnBlackHole.
  pose proof (samplePosition_spec 49 pl g) as S.
  pose proof (samplePosition_blackHoles 49 pl g) as B.
  destruct (samplePosition 49 pl g) as [[x y] g1]. cbn [snd] in B.
  destruct S as (j & J & R & X & Y & L & D).
  unfold Math_random. cbv beta iota.
  eexists. split; [apply (f_equal2 (@app _)); [exact B | reflexivity] |].
  cbn.
  destruct (@spawn_ranges _ (proj1 (U (randomCalls g1))) (proj2 (U _)))
    as (A1 & _).
  destruct (@spawn_ranges _ (proj1 (U (S (randomCalls g1)))) (proj2 (U _)))
    as (_ & A2 & _).
  destruct (@spawn_ranges _ (proj1 (U (S (S (randomCalls g1))))) (proj2 (U _)))
    as (_ & _ & A3 & _).
  destruct (@spawn_ranges _ (proj1 (U (S (S (S (randomCalls g1))))))
              (proj2 (U _))) as (_ & _ & _ & A4).
  split; [exact A1 |]. split; [exact A2 |]. split; [exact A3 |].
  split; [exact A4 |].
  split; [exact (@leb_trans _ (Fin 50) _ (proj2 A1)
                   (@leb_trans (Fin 50) (Fin 150) _ eq_refl (proj1 A2))) |].
  split; [reflexivity |]. split; [reflexivity |].
  split; [f_equal; f_equal; exact L |].
  split; [intros F W; rewrite X;
          apply sample_in_canvas; try assumption; apply U |].
  split; [intros F W; rewrite Y;
          apply sample_in_canvas; try assumption; apply U |].
  destruct pl as [p|].
  - destruct D as [D | D]; [left; exact D | right].
    cbn. rewrite R, D. lia.
  - cbn. rewrite R, D. lia.
Qed.

Lemma edge_of_draw (r : num) :
  0 <= r -> r < 1 ->
  Math_floor (r * 4) = 0 \/ Math_floor (r * 4) = 1
  \/ Math_floor (r * 4) = 2 \/ Math_floor (r * 4) = 3.
Proof.
  intros H1 H2. destruct r as [ | | r | ]; try discriminate.
  apply leb_Fin in H1. apply ltb_Fin in H2.
  qunfold. cbn.
  destruct (Qlt_le_dec r (1 # 4)) as [A | A];
    [| destruct (Qlt_le_dec r (2 # 4)) as [B | B];
       [| destruct (Qlt_le_dec r (3 # 4)) as [C | C]]].
  - left. rewrite (@Qfloor_unique 0); [reflexivity | | ]; qred;
      unfold inject_Z; cbn; lra.
  - right; left. rewrite (@Qfloor_unique 1); [reflexivity | | ]; qred;
      unfold inject_Z; cbn; lra.
  - right; right; left.
    rewrite (@Qfloor_unique 2); [reflexivity | | ]; qred;
      unfold inject_Z; cbn; lra.
  - right; right; right.
    rewrite (@Qfloor_unique 3); [reflexivity | | ]; qred;
      unfold inject_Z; cbn; lra.
Qed.

Lemma edgePosition_cases (edge : num) g :
  edge = 0 \/ edge = 1 \/ edge = 2 \/ edge = 3 ->
  let '(x, y, g') := edgePosition edge g in
  g' = set_randomCalls (S (randomCalls g)) g
  /\ (y = Fin (-30) \/ x = canvasWidth g + 30
      \/ y = canvasHeight g + 30 \/ x = Fin (-30)).
Proof.
  intros [-> | [-> | [-> | ->]]]; unfold edgePosition, Math_random;
    cbv beta iota.
  all: repeat match goal with
              | |- context [Num.eqb ?a ?b] =>
                  let v := eval vm_compute in (Num.eqb a b) in
                  change (Num.eqb a b) with v
              end; cbv beta iota.
  all: split; [reflexivity |].
  all: first [ left; reflexivity | right; left; reflexivity
             | right; right; left; reflexivity
             | right; right; right; reflexivity ].
Qed.

(** X8: what [spawnCollectible] adds when the draws of [Math.random] are
    in [0, 1).  One collectible is put behind those that are there; it
    starts 30 outside one of the four edges of the canvas, with radius 12
    and age 0, its category is the one chosen for the third draw, and six
    draws have been taken. *)
Theorem collectible_spawn g :
  (forall n, 0 <= random n /\ random n < 1) ->
  exists c,
    collectibles (spawnCollectible g) = collectibles g ++ [c]
    /\ (Collectible.y c = Fin (-30)
        \/ Collectible.x c = canvasWidth g + 30
        \/ Collectible.y c = canvasHeight g + 30
        \/ Collectible.x c = Fin (-30))
    /\ Collectible.radius c = 12 /\ Collectible.lifetime c = 0
    /\ Collectible.type c = chooseType (random (randomCalls g + 2))
    /\ randomCalls (spawnCollectible g) = (randomCalls g + 6)%nat.
Proof.
  intros U. unfold spawnCollectible, Math_random. cbv beta iota zeta.
  pose proof (@edge_of_draw _ (proj1 (U (randomCalls g))) (proj2 (U _))) as E.
  pose proof (@edgePosition_cases _ (set_randomCalls (S (randomCalls g)) g) E)
    as P.
  destruct (edgePosition (Math_floor (random (randomCalls g) * 4))
              (set_randomCalls (S (randomCalls g)) g)) as [[x y] g1].
  destruct P as (-> & P). cbv beta iota.
  eexists. split; [reflexivity |].
  replace (randomCalls g + 2)%nat with (S (S (randomCalls g))) by lia.
  split; [exact P |]. repeat split. cbn. lia.
Qed.

(** ** The pilot's choice of a collectible *)

Lemma ltb_trans (x y z : num) : x < y -> y < z -> x < z.
Proof. destruct x, y, z; qsolve. Qed.

Lemma ltb_irrefl (x : num) : (x <? x) = false.
Proof. destruct x; qsolve. Qed.

Lemma findBest_fold g p l : forall seen acc,
  bestOf g p seen acc ->
  bestOf g p (seen ++ l)
    (fold_left
       (fun best c =>
          let score := collectibleScore c g p in
          if score >? snd best then (Some c, score) else best)
       l acc).
Proof.
  induction l as [|c l IH]; intros seen acc B.
  - rewrite app_nil_r. exact B.
  - cbn [fold_left].
    replace (seen ++ c :: l) with ((seen ++ [c]) ++ l)
      by (rewrite <- app_assoc; reflexivity).
    apply IH. cbv zeta. destruct B as (B1 & B2).
    destruct (collectibleScore c g p >? snd acc) eqn:C.
    + split; cbn [fst snd].
      * split; [apply in_or_app; right; now left | reflexivity].
      * apply Forall_app. split.
        -- eapply Forall_impl; [| exact B2]. cbn beta. intros c' H.
           destruct (collectibleScore c' g p >? collectibleScore c g p)
             eqn:D; [| reflexivity].
           rewrite (@ltb_trans _ _ _ C D) in H. discriminate.
        -- constructor; [apply ltb_irrefl | constructor].
    + split.
      * destruct (fst acc); [| exact B1].
        destruct B1 as (I & E). split; [| exact E].
        apply in_or_app. now left.
      * apply Forall_app. split; [exact B2 |].
        constructor; [exact C | constructor].
Qed.

(** X9: the collectible the pilot goes for is one of the collectibles on
    the canvas, and no collectible has a higher score than it has; the
    pilot finds none only when no score is above minus infinity. *)
Theorem pilot_picks_the_best_collectible g p :
  match findBest g p with
  | (Some c, best) =>
      In c (collectibles g) /\ best = collectibleScore c g p
      /\ Forall (fun c' => (collectibleScore c' g p >? best) = false)
           (collectibles g)
  | (None, best) =>
      best = NegInfinity
      /\ Forall (fun c' => (collectibleScore c' g p >? NegInfinity) = false)
           (collectibles g)
  end.
Proof.
  pose proof (@findBest_fold g p (collectibles g) [] (None, NegInfinity)) as B.
  cbn [app] in B. fold (findBest g p) in B.
  destruct (findBest g p) as [[c|] best]; unfold bestOf in B;
    cbn [fst snd] in B.
  - destruct B as ((I & E) & F); [split; [reflexivity | constructor] |].
    repeat split; assumption.
  - destruct B as (E & F); [split; [reflexivity | constructor] |].
    subst best. split; [reflexivity | exact F].
Qed.

(** ** Gravity out of reach *)

(** X10: black holes whose pull radius the ship is outside of do nothing
    to it: the gravity loop changes neither the ship nor the game, and
    goes on to the rest of the frame.  (A black hole is at least as wide
    in pull as its horizon is.) *)
Theorem gravity_out_of_reach dt holes g p :
  Forall (fun hole =>
            (holeDistance hole p <? BlackHole.pullRadius hole) = false
            /\ BlackHole.radius hole <= BlackHole.pullRadius hole) holes ->
  gravity dt holes g p = Continue g p.
Proof.
  induction 1 as [|hole holes (F & R) _ IH]; [reflexivity |].
  cbn [gravity].
  assert (P : pull dt hole p = p).
  { unfold pull. fold (holeDistance hole p). cbv zeta. now rewrite F. }
  rewrite P.
  assert (I : insideHorizon hole p = false).
  { unfold insideHorizon. fold (holeDistance hole p). cbv zeta.
    revert F R. generalize (holeDistance hole p), (BlackHole.radius hole),
      (BlackHole.pullRadius hole). intros d r pr F R. nums. }
  rewrite I. exact IH.
Qed.

(** ** The level *)

Lemma level_of_schedule g g' : schedule g' = schedule g -> level g' = level g.
Proof. unfold schedule. intros H. now inversion H. Qed.

Lemma spawning_level dt g p : level (spawning dt g p) = level g.
Proof.
  unfold spawning.
  set (g1 := set_difficultyTimer _ _).
  set (g2 := if spawnTimer g1 >? 60 then _ else g1).
  assert (E : level g2 = level g).
  { unfold g2. destruct (spawnTimer g1 >? 60); [| reflexivity].
    unfold Math_random. cbv beta iota.
    assert (S : forall h, level (spawnCollectible h) = level h)
      by (intros h; apply level_of_schedule, spawnCollectible_frame).
    match goal with |- context [if ?c then _ else _] => destruct c end;
      repeat (etransitivity; [apply S |]); reflexivity. }
  clearbody g2. clear g1.
  match goal with |- context [if ?c then _ else _] => destruct c end;
    [| exact E].
  unfold Math_random. cbv beta iota.
  match goal with |- context [if ?c then _ else _] => destruct c end;
    [| exact E].
  etransitivity; [apply level_of_schedule, spawnBlackHole_frame | exact E].
Qed.

Lemma simulate_level g p :
  let g' := outcome_game (simulate g p) in
  level g' = level g \/ level g' = level g + 1.
Proof.
  cbv zeta.
  destruct (returned (simulate g p)) eqn:R.
  { left. apply level_of_schedule.
    now apply (simulate_outcome g p). }
  revert R. unfold simulate.
  pose proof (steer_calm (normalizedDt g) g p) as (_ & S0 & _).
  destruct (steer (normalizedDt g) g p) as [g0 p0]. cbn [fst] in S0.
  pose proof (gravity_outcome (normalizedDt g) (blackHoles g0) g0 p0)
    as (_ & S1 & _).
  destruct (gravity (normalizedDt g) (blackHoles g0) g0 p0) as [g1 p1|g1 p1];
    [| discriminate].
  cbn [outcome_game] in S1.
  set (p2 := movePlayer (normalizedDt g) g1 p1). clearbody p2.
  pose proof (updateCollectibles_calm (normalizedDt g) (collectibles g1) g1 p2)
    as (_ & S3 & _).
  destruct (updateCollectibles (normalizedDt g) (collectibles g1) g1 p2)
    as [[cs g3] p3].
  cbn [fst snd] in S3.
  pose proof (updateBlackHoles_frame (normalizedDt g)
                (blackHoles (set_collectibles cs g3))
                (set_collectibles cs g3) p3) as (_ & _ & S4).
  destruct (updateBlackHoles (normalizedDt g)
              (blackHoles (set_collectibles cs g3))
              (set_collectibles cs g3) p3) as [holes g4].
  cbn [snd] in S4.
  pose proof (updateBullets_outcome (normalizedDt g)
                (bullets (set_blackHoles holes g4))
                (set_blackHoles holes g4) p3) as (_ & S5 & _).
  destruct (updateBullets (normalizedDt g)
              (bullets (set_blackHoles holes g4))
              (set_blackHoles holes g4) p3) as [bs [g5 p5 | g5 p5]];
    [| discriminate].
  cbn [snd outcome_game] in S5 |- *. intros _.
  assert (E : level g5 = level g).
  { apply level_of_schedule in S0, S1, S3, S4, S5.
    etransitivity; [exact S5 |]. etransitivity; [exact S4 |].
    etransitivity; [exact S3 |]. etransitivity; [exact S1 | exact S0]. }
  pose proof (spawning_level (normalizedDt g) (set_bullets bs g5) p5) as L.
  set (g6 := spawning (normalizedDt g) (set_bullets bs g5) p5) in *.
  clearbody g6. unfold difficulty.
  destruct (difficultyTimer g6 >? 1800); [right | left]; cbn.
  - apply (f_equal (fun x => x + 1)).
    etransitivity; [exact L | exact E].
  - etransitivity; [exact L | exact E].
Qed.

(** X11: an event leaves the level as it is or raises it by one. *)
Theorem the_level_rises_one_step_at_a_time e g :
  level (handle e g) = level g \/ level (handle e g) = level g + 1.
Proof.
  assert (L : forall now Date_now g',
             level (gameLoop now Date_now g') = level g'
             \/ level (gameLoop now Date_now g') = level g' + 1).
  { intros now Date_now g'. unfold gameLoop.
    destruct (negb (isRunning g') || isPaused g'); [now left |].
    unfold update. change (player (stampTime now g')) with (player g').
    destruct (player g') as [p|]; [| now left].
    pose proof (simulate_level (stampTime now g') p) as S. cbv zeta in S.
    change (level (stampTime now g')) with (level g') in S.
    destruct (simulate (stampTime now g') p) as [g1 p1 | g1 p1];
      cbn [outcome_game] in S; [| exact S].
    destruct (updateBot_frame Date_now (set_player (Some p1) g1))
      as (_ & _ & B).
    apply level_of_schedule in B.
    change (level (set_player (Some p1) g1)) with (level g1) in B.
    destruct S as [S | S]; [left | right];
      (etransitivity; [exact B | exact S]). }
  destruct e; cbn [handle]; try (now left).
  - apply L.
  - destruct (isRunning g); [| now left]. unfold togglePause.
    destruct (negb (isRunning g)); [now left |]. cbn.
    destruct (negb (isPaused g)); [now left |].
    apply (L now' Date_now (set_lastTime now (set_isPaused false g))).
  - unfold resumeGame.
    apply (L now' Date_now (set_lastTime now (set_isPaused false g))).
Qed.

(** ** Pause and resume *)

Lemma deltaTime_of_setting g g' :
  setting g' = setting g -> deltaTime g' = deltaTime g.
Proof. unfold setting. intros H. now inversion H. Qed.

Lemma update_deltaTime Date_now g :
  deltaTime (update Date_now g) = deltaTime g.
Proof.
  unfold update. destruct (player g) as [p|]; [| reflexivity].
  pose proof (simulate_outcome g p) as (S & _).
  apply deltaTime_of_setting in S.
  destruct (simulate g p) as [g1 p1 | g1 p1]; cbn [outcome_game] in S;
    [| exact S].
  etransitivity; [| exact S].
  unfold updateBot. cbn. branches; reflexivity.
Qed.

Lemma first_frame_after_resume now now' Date_now g :
  isRunning g = true ->
  deltaTime (gameLoop now' Date_now (set_lastTime now (set_isPaused false g)))
  = Math_min (now' - now) 50.
Proof.
  intros R. unfold gameLoop.
  change (negb (isRunning (set_lastTime now (set_isPaused false g)))
          || isPaused (set_lastTime now (set_isPaused false g)))
    with (negb (isRunning g) || false).
  rewrite R. cbn [negb orb].
  etransitivity; [apply update_deltaTime | reflexivity].
Qed.

(** X12: the time spent in pause is not simulated.  Pausing a run only
    sets the pause flag; the frames that arrive while the game is paused
    change nothing; and the frame run by either way of resuming lasts the
    time between the two clock readings of the resume, capped at 50 ms,
    whatever the clock showed before the pause. *)
Theorem time_spent_paused_is_not_simulated g t0 t0' d0 now now' Date_now :
  isRunning g = true -> isPaused g = false ->
  let paused := handle (Escape t0 t0' d0) g in
  paused = set_isPaused true g
  /\ (forall frames,
         forallb isFrame frames = true -> run frames paused = paused)
  /\ deltaTime (handle (Escape now now' Date_now) paused)
     = Math_min (now' - now) 50
  /\ deltaTime (handle (ResumeButton now now' Date_now) paused)
     = Math_min (now' - now) 50.
Proof.
  intros R P. cbv zeta.
  assert (E : handle (Escape t0 t0' d0) g = set_isPaused true g).
  { cbn [handle]. rewrite R. unfold togglePause. rewrite R, P. reflexivity. }
  rewrite E. split; [reflexivity |]. split.
  - induction frames as [|e frames IH]; [reflexivity |].
    cbn [forallb run]. intros F. apply andb_prop in F. destruct F as (F1 & F2).
    destruct e; try discriminate. cbn [handle]. unfold gameLoop.
    change (isPaused (set_isPaused true g)) with true.
    rewrite orb_true_r. exact (IH F2).
  - split.
    + cbn [handle].
      change (isRunning (set_isPaused true g)) with (isRunning g).
      rewrite R. unfold togglePause.
      change (isRunning (set_isPaused true g)) with (isRunning g).
      rewrite R. cbn [negb].
      change (set_isPaused (negb (isPaused (set_isPaused true g)))
                (set_isPaused true g))
        with (set_isPaused false g).
      change (isPaused (set_isPaused false g)) with false. cbv iota.
      now apply first_frame_after_resume.
    + cbn [handle]. unfold resumeGame.
      change (set_isPaused false (set_isPaused true g))
        with (set_isPaused false g).
      now apply first_frame_after_resume.
Qed.

(** ** The high score *)

Arguments records : simpl never.

Lemma records_highScore g g' :
  records g' = records g -> highScore g' = highScore g.
Proof. unfold records. intros H. now inversion H. Qed.

Lemma takeDamage_records g p :
  records (fst (fst (takeDamage g p))) = records g
  /\ score (fst (fst (takeDamage g p))) = score g.
Proof. unfold takeDamage. branches; split; reflexivity. Qed.

Lemma gameOver_highScore g :
  highScore (gameOver g) = recordedHighScore (highScore g) (gameOver g)
  /\ coins (gameOver g) = coins g
  /\ sessionCoins (gameOver g) = sessionCoins g.
Proof.
  unfold recordedHighScore.
  destruct (gameOver_frame g) as (_ & _ & _ & -> & _).
  assert (E : gameOver g
              = createExplosion 50
                  (if score g >? highScore g
                   then set_highScore (score g) (set_isRunning false g)
                   else set_isRunning false g)) by reflexivity.
  rewrite E. destruct (score g >? highScore g); repeat split.
Qed.

Lemma gravity_highScore dt holes g p :
  highScoreOf (highScore g) (gravity dt holes g p).
Proof.
  revert g p. induction holes as [|hole holes IH]; intros g p;
    [reflexivity |].
  cbn [gravity].
  destruct (insideHorizon hole (pull dt hole p)
            && negb (Player.invincible (pull dt hole p))); [| apply IH].
  pose proof (takeDamage_records g (pull dt hole p)) as (T & _).
  apply records_highScore in T.
  destruct (takeDamage g (pull dt hole p)) as [[g1 p1] dead].
  cbn [fst] in T. destruct dead.
  - unfold highScoreOf. cbn [outcome_game returned].
    destruct (gameOver_highScore g1) as (H & _).
    etransitivity; [exact H |]. now rewrite T.
  - specialize (IH g1 p1). now rewrite T in IH.
Qed.

Lemma updateBullets_highScore dt bs g p :
  highScoreOf (highScore g) (snd (updateBullets dt bs g p)).
Proof.
  induction bs as [|b bs IH]; [reflexivity |].
  cbn [updateBullets].
  destruct (updateBullets dt bs g p) as [rest [g1 p1 | g1 p1]];
    cbn [snd] in IH; [| exact IH].
  unfold highScoreOf in IH. cbn [outcome_game returned] in IH.
  destruct (touchesBullet (moveBullet dt b) p1
            && negb (Player.invincible p1)).
  - pose proof (takeDamage_records (createExplosion 15 g1) p1) as (T & _).
    apply records_highScore in T.
    change (highScore (createExplosion 15 g1)) with (highScore g1) in T.
    destruct (takeDamage (createExplosion 15 g1) p1) as [[g2 p2] dead].
    cbn [fst] in T. destruct dead; cbn [snd]; unfold highScoreOf;
      cbn [outcome_game returned].
    + destruct (gameOver_highScore g2) as (H & _).
      etransitivity; [exact H |]. now rewrite T, IH.
    + etransitivity; [exact T | exact IH].
  - match goal with |- context [if ?c then _ else _] => destruct c end;
      exact IH.
Qed.

Lemma steer_records dt g p : records (fst (steer dt g p)) = records g.
Proof. unfold steer. branches; reflexivity. Qed.

Lemma collectItem_highScore item g p :
  highScore (fst (collectItem item g p)) = highScore g.
Proof.
  unfold collectItem, Math_random.
  destruct (Collectible.type item); reflexivity.
Qed.

Lemma updateCollectibles_highScore dt cs g p :
  highScore (snd (fst (updateCollectibles dt cs g p))) = highScore g.
Proof.
  induction cs as [|c cs IH]; [reflexivity |].
  cbn [updateCollectibles].
  destruct (updateCollectibles dt cs g p) as [[rest g1] p1].
  cbn [fst snd] in IH.
  destruct (touchesCollectible (moveCollectible dt c) p1).
  - pose proof (collectItem_highScore (moveCollectible dt c) g1 p1) as C.
    destruct (collectItem (moveCollectible dt c) g1 p1) as [g2 p2].
    cbn [fst snd] in *. etransitivity; [exact C | exact IH].
  - match goal with |- context [if ?c then _ else _] => destruct c end;
      exact IH.
Qed.

Lemma updateBlackHoles_records dt holes g p :
  records (snd (updateBlackHoles dt holes g p)) = records g.
Proof.
  induction holes as [|hole holes IH]; [reflexivity |].
  cbn [updateBlackHoles].
  destruct (updateBlackHoles dt holes g p) as [rest g1]. cbn [snd] in IH.
  unfold Math_random, spawnBullet.
  repeat match goal with
         | |- context [if ?c then _ else _] => destruct c
         end; exact IH.
Qed.

Lemma spawnCollectible_records g : records (spawnCollectible g) = records g.
Proof.
  unfold spawnCollectible, edgePosition, Math_random. branches; reflexivity.
Qed.

Lemma samplePosition_records n pl g :
  records (snd (samplePosition n pl g)) = records g.
Proof.
  revert g. induction n as [|n IH]; intros g; [reflexivity |].
  cbn [samplePosition]. unfold Math_random. cbv beta iota zeta.
  destruct pl as [p|]; [| reflexivity].
  match goal with |- context [if ?c then _ else _] => destruct c end;
    [| reflexivity].
  etransitivity; [apply IH | reflexivity].
Qed.

Lemma spawnBlackHole_records pl g : records (spawnBlackHole pl g) = records g.
Proof.
  unfold spawnBlackHole.
  pose proof (samplePosition_records 49 pl g) as S.
  destruct (samplePosition 49 pl g) as [[x y] g1]. exact S.
Qed.

Lemma spawning_records dt g p : records (spawning dt g p) = records g.
Proof.
  unfold spawning.
  set (g1 := set_difficultyTimer _ _).
  set (g2 := if spawnTimer g1 >? 60 then _ else g1).
  assert (E : records g2 = records g).
  { unfold g2. destruct (spawnTimer g1 >? 60); [| reflexivity].
    unfold Math_random. cbv beta iota.
    match goal with |- context [if ?c then _ else _] => destruct c end;
      repeat (etransitivity; [apply spawnCollectible_records |]);
      reflexivity. }
  clearbody g2. clear g1.
  match goal with |- context [if ?c then _ else _] => destruct c end;
    [| exact E].
  unfold Math_random. cbv beta iota.
  match goal with |- context [if ?c then _ else _] => destruct c end;
    [| exact E].
  etransitivity; [apply spawnBlackHole_records | exact E].
Qed.

Lemma difficulty_records g : records (difficulty g) = records g.
Proof. unfold difficulty. branches; reflexivity. Qed.

Lemma updateBot_records Date_now g : records (updateBot Date_now g) = records g.
Proof. unfold updateBot. branches; reflexivity. Qed.

Lemma simulate_highScore g p : highScoreOf (highScore g) (simulate g p).
Proof.
  unfold simulate.
  pose proof (steer_records (normalizedDt g) g p) as S0.
  apply records_highScore in S0.
  destruct (steer (normalizedDt g) g p) as [g0 p0]. cbn [fst] in S0.
  pose proof (gravity_highScore (normalizedDt g) (blackHoles g0) g0 p0) as G.
  rewrite S0 in G.
  destruct (gravity (normalizedDt g) (blackHoles g0) g0 p0) as [g1 p1|g1 p1];
    [| exact G].
  unfold highScoreOf in G. cbn [outcome_game returned] in G.
  set (p2 := movePlayer (normalizedDt g) g1 p1). clearbody p2.
  pose proof (updateCollectibles_highScore (normalizedDt g)
                (collectibles g1) g1 p2) as C.
  destruct (updateCollectibles (normalizedDt g) (collectibles g1) g1 p2)
    as [[cs g3] p3].
  cbn [fst snd] in C.
  pose proof (updateBlackHoles_records (normalizedDt g)
                (blackHoles (set_collectibles cs g3))
                (set_collectibles cs g3) p3) as H.
  apply records_highScore in H.
  destruct (updateBlackHoles (normalizedDt g)
              (blackHoles (set_collectibles cs g3))
              (set_collectibles cs g3) p3) as [holes g4].
  cbn [snd] in H.
  change (highScore (set_collectibles cs g3)) with (highScore g3) in H.
  pose proof (updateBullets_highScore (normalizedDt g)
                (bullets (set_blackHoles holes g4))
                (set_blackHoles holes g4) p3) as B.
  change (highScore (set_blackHoles holes g4)) with (highScore g4) in B.
  assert (E : highScore g4 = highScore g).
  { etransitivity; [exact H |]. etransitivity; [exact C | exact G]. }
  rewrite E in B.
  destruct (updateBullets (normalizedDt g)
              (bullets (set_blackHoles holes g4))
              (set_blackHoles holes g4) p3) as [bs [g5 p5 | g5 p5]];
    cbn [snd] in B; unfold highScoreOf in *;
    cbn [outcome_game returned] in *.
  - etransitivity; [apply records_highScore, difficulty_records |].
    etransitivity; [apply records_highScore, spawning_records |].
    exact B.
  - exact B.
Qed.

(** X13: the high score changes at the terminal transition only, where
    it becomes the final score if that is higher. *)
Theorem the_high_score_changes_at_game_over_only e g :
  highScore (handle e g)
  = if fatal e g then recordedHighScore (highScore g) (handle e g)
    else highScore g.
Proof.
  assert (L : forall now Date_now g',
             highScore (gameLoop now Date_now g')
             = if fatalFrame now g'
               then recordedHighScore (highScore g')
                      (gameLoop now Date_now g')
               else highScore g').
  { intros now Date_now g'. unfold gameLoop, fatalFrame.
    destruct (negb (isRunning g') || isPaused g'); [reflexivity |].
    unfold update. change (player (stampTime now g')) with (player g').
    destruct (player g') as [p|]; [| reflexivity].
    pose proof (simulate_highScore (stampTime now g') p) as S.
    unfold highScoreOf in S.
    change (highScore (stampTime now g')) with (highScore g') in S.
    destruct (simulate (stampTime now g') p) as [g1 p1 | g1 p1];
      cbn [outcome_game returned] in S |- *; [| exact S].
    etransitivity; [apply records_highScore, updateBot_records | exact S]. }
  destruct e; cbn [handle fatal]; try reflexivity.
  - apply L.
  - destruct (isRunning g) eqn:R; [| reflexivity]. unfold togglePause.
    rewrite R. cbn [negb andb].
    change (isPaused (set_isPaused (negb (isPaused g)) g))
      with (negb (isPaused g)).
    destruct (isPaused g); cbn [negb]; [| reflexivity].
    apply (L now' Date_now (set_lastTime now (set_isPaused false g))).
  - unfold resumeGame.
    apply (L now' Date_now (set_lastTime now (set_isPaused false g))).
Qed.

(** ** The coins of a run *)

Lemma records_purse g g' :
  records g' = records g ->
  coins g' = coins g /\ sessionCoins g' = sessionCoins g.
Proof. unfold records. intros H. now inversion H. Qed.

Lemma paid_same start g g' :
  coins g' = coins g /\ sessionCoins g' = sessionCoins g ->
  paid start g -> paid start g'.
Proof. unfold paid. intros (C & S). now rewrite C, S. Qed.

Lemma isInteger_iff (q : Q) :
  isInteger (Fin q) = true <-> exists z, (q == inject_Z z)%Q.
Proof.
  unfold isInteger. rewrite Qeq_bool_iff. split.
  - intros H. now exists (Qfloor q).
  - intros (z & H). rewrite H at 2. rewrite Qfloor_Z. exact H.
Qed.

Lemma isInteger_finite (x : num) : isInteger x = true -> Num.isFinite x = true.
Proof. destruct x; intros H; try discriminate; reflexivity. Qed.

Lemma isInteger_add (x y : num) :
  isInteger x = true -> isInteger y = true -> isInteger (x + y) = true.
Proof.
  destruct x as [| |x|], y as [| |y|]; try discriminate. intros X Y.
  apply isInteger_iff in X, Y. destruct X as (a & X), Y as (b & Y).
  unfold Num.add, Num.fin. apply isInteger_iff. exists (a + b)%Z.
  rewrite Qred_correct, inject_Z_plus, X, Y. reflexivity.
Qed.

Lemma isInteger_eqb (x y : num) :
  (x =? y) = true -> isInteger y = true -> isInteger x = true.
Proof.
  destruct x as [| |x|], y as [| |y|]; try discriminate. intros E Y.
  apply Qeq_bool_iff in E. apply isInteger_iff in Y. destruct Y as (b & Y).
  apply isInteger_iff. exists b. now rewrite E.
Qed.

Lemma paid_add (start c s a : num) :
  Num.isFinite start = true ->
  isInteger s = true -> 0 <= s -> (c =? start + s) = true ->
  a = 1 \/ a = 2 \/ a = 3 ->
  isInteger (s + a) = true /\ 0 <= s + a
  /\ (c + a =? start + (s + a)) = true.
Proof.
  intros F1 I P E A. split.
  - apply isInteger_add; [exact I |].
    destruct A as [-> | [-> | ->]]; reflexivity.
  - apply isInteger_finite in I. revert F1 I P E.
    destruct A as [-> | [-> | ->]];
      destruct start, s, c; try discriminate; intros; split; qsolve.
Qed.

Lemma collectItem_paid start item g p :
  (forall n, 0 <= random n /\ random n < 1) ->
  Num.isFinite start = true ->
  paid start g -> paid start (fst (collectItem item g p)).
Proof.
  intros U F (P1 & P2 & P3). unfold collectItem.
  destruct (Collectible.type item); try (repeat split; assumption).
  unfold Math_random, addCoins. cbv beta iota zeta. cbn [fst].
  destruct (U (randomCalls g)) as (U1 & U2).
  pose proof (proj1 (@coins_of_draw _ U1 U2)) as A'. cbv zeta in A'.
  exact (@paid_add _ _ _ _ F P1 P2 P3 A').
Qed.

Lemma updateCollectibles_paid start dt cs g p :
  (forall n, 0 <= random n /\ random n < 1) ->
  Num.isFinite start = true ->
  paid start g -> paid start (snd (fst (updateCollectibles dt cs g p))).
Proof.
  intros U F P. induction cs as [|c cs IH]; [exact P |].
  cbn [updateCollectibles].
  destruct (updateCollectibles dt cs g p) as [[rest g1] p1].
  cbn [fst snd] in IH.
  destruct (touchesCollectible (moveCollectible dt c) p1).
  - pose proof (@collectItem_paid start (moveCollectible dt c) g1 p1 U F IH)
      as C.
    destruct (collectItem (moveCollectible dt c) g1 p1) as [g2 p2].
    exact C.
  - match goal with |- context [if ?c then _ else _] => destruct c end;
      exact IH.
Qed.

Lemma gravity_purse dt holes g p :
  coins (outcome_game (gravity dt holes g p)) = coins g
  /\ sessionCoins (outcome_game (gravity dt holes g p)) = sessionCoins g.
Proof.
  revert g p. induction holes as [|hole holes IH]; intros g p;
    [split; reflexivity |].
  cbn [gravity].
  destruct (insideHorizon hole (pull dt hole p)
            && negb (Player.invincible (pull dt hole p))); [| apply IH].
  pose proof (takeDamage_records g (pull dt hole p)) as (T & _).
  apply records_purse in T.
  destruct (takeDamage g (pull dt hole p)) as [[g1 p1] dead].
  cbn [fst] in T. destruct T as (T1 & T2). destruct dead.
  - cbn [outcome_game].
    destruct (gameOver_highScore g1) as (_ & -> & ->). now split.
  - destruct (IH g1 p1) as (-> & ->). now split.
Qed.

Lemma updateBullets_purse dt bs g p :
  coins (outcome_game (snd (updateBullets dt bs g p))) = coins g
  /\ sessionCoins (outcome_game (snd (updateBullets dt bs g p)))
     = sessionCoins g.
Proof.
  induction bs as [|b bs IH]; [split; reflexivity |].
  cbn [updateBullets].
  destruct (updateBullets dt bs g p) as [rest [g1 p1 | g1 p1]];
    cbn [snd outcome_game] in IH; [| exact IH].
  destruct IH as (I1 & I2).
  destruct (touchesBullet (moveBullet dt b) p1
            && negb (Player.invincible p1)).
  - pose proof (takeDamage_records (createExplosion 15 g1) p1) as (T & _).
    apply records_purse in T.
    destruct (takeDamage (createExplosion 15 g1) p1) as [[g2 p2] dead].
    cbn [fst] in T. destruct T as (T1 & T2).
    change (coins (createExplosion 15 g1)) with (coins g1) in T1.
    change (sessionCoins (createExplosion 15 g1)) with (sessionCoins g1) in T2.
    destruct dead; cbn [snd outcome_game].
    + destruct (gameOver_highScore g2) as (_ & -> & ->).
      split; etransitivity; eassumption.
    + split; etransitivity; eassumption.
  - match goal with |- context [if ?c then _ else _] => destruct c end;
      now split.
Qed.

Lemma simulate_paid start g p :
  (forall n, 0 <= random n /\ random n < 1) ->
  Num.isFinite start = true ->
  paid start g -> paid start (outcome_game (simulate g p)).
Proof.
  intros U F P. unfold simulate.
  pose proof (steer_records (normalizedDt g) g p) as S0.
  apply records_purse in S0.
  destruct (steer (normalizedDt g) g p) as [g0 p0]. cbn [fst] in S0.
  apply (@paid_same start _ _ S0) in P.
  pose proof (gravity_purse (normalizedDt g) (blackHoles g0) g0 p0) as G.
  apply (@paid_same start _ _ G) in P.
  destruct (gravity (normalizedDt g) (blackHoles g0) g0 p0) as [g1 p1|g1 p1];
    cbn [outcome_game] in P |- *; [| exact P].
  set (p2 := movePlayer (normalizedDt g) g1 p1). clearbody p2.
  pose proof (@updateCollectibles_paid start (normalizedDt g)
                (collectibles g1) g1 p2 U F P) as C.
  destruct (updateCollectibles (normalizedDt g) (collectibles g1) g1 p2)
    as [[cs g3] p3].
  cbn [fst snd] in C.
  pose proof (updateBlackHoles_records (normalizedDt g)
                (blackHoles (set_collectibles cs g3))
                (set_collectibles cs g3) p3) as H.
  apply records_purse in H.
  destruct (updateBlackHoles (normalizedDt g)
              (blackHoles (set_collectibles cs g3))
              (set_collectibles cs g3) p3) as [holes g4].
  cbn [snd] in H.
  assert (P4 : paid start (set_blackHoles holes g4))
    by (apply (@paid_same start (set_collectibles cs g3)); [exact H | exact C]).
  pose proof (updateBullets_purse (normalizedDt g)
                (bullets (set_blackHoles holes g4))
                (set_blackHoles holes g4) p3) as B.
  apply (@paid_same start _ _ B) in P4.
  destruct (updateBullets (normalizedDt g)
              (bullets (set_blackHoles holes g4))
              (set_blackHoles holes g4) p3) as [bs [g5 p5 | g5 p5]];
    cbn [snd outcome_game] in P4 |- *; [| exact P4].
  eapply paid_same; [apply records_purse, difficulty_records |].
  eapply paid_same; [apply records_purse, spawning_records |].
  exact P4.
Qed.

Lemma handle_paid start e g :
  (forall n, 0 <= random n /\ random n < 1) ->
  Num.isFinite start = true ->
  paid start g -> paid start (handle e g).
Proof.
  intros U F P.
  assert (L : forall now Date_now g',
             paid start g' -> paid start (gameLoop now Date_now g')).
  { intros now Date_now g' P'. unfold gameLoop.
    destruct (negb (isRunning g') || isPaused g'); [exact P' |].
    unfold update. change (player (stampTime now g')) with (player g').
    destruct (player g') as [p|]; [| exact P'].
    pose proof (@simulate_paid start (stampTime now g') p U F P') as S.
    destruct (simulate (stampTime now g') p) as [g1 p1 | g1 p1];
      cbn [outcome_game] in S; [| exact S].
    eapply paid_same; [apply records_purse, updateBot_records | exact S]. }
  destruct e; cbn [handle]; try exact P.
  - now apply L.
  - destruct (isRunning g); [| exact P]. unfold togglePause.
    destruct (negb (isRunning g)); [exact P |]. cbn.
    destruct (negb (isPaused g)); [exact P |]. now apply L.
  - unfold resumeGame. now apply L.
Qed.

(** X14: the coins of a run.  When the draws of [Math.random] are in
    [0, 1) and the coins are a whole number that is not negative when a
    run starts, as [parseInt] leaves them, then at every point of the run
    the coins earned in the session and the coins are whole numbers that
    are not negative, and the coins have not gone down; and as
    long as the coins of the start and the coins earned in the session
    add up to less than 2^53, so that no sum has been rounded, the coins
    are those of the start plus the coins earned in the session. *)
Theorem the_session_coins_account_for_the_coins now now' Date_now g0 es :
  (forall n, 0 <= random n /\ random n < 1) ->
  isInteger (coins g0) = true -> 0 <= coins g0 ->
  let g := run es (startGame now now' Date_now g0) in
  isInteger (sessionCoins g) = true /\ 0 <= sessionCoins g
  /\ isInteger (coins g) = true /\ coins g0 <= coins g /\ 0 <= coins g
  /\ (coins g0 + sessionCoins g < 9007199254740992 ->
      (coins g =? coins g0 + sessionCoins g) = true).
Proof.
  intros U I N. cbv zeta. pose proof (isInteger_finite _ I) as F.
  assert (R : forall g, paid (coins g0) g -> paid (coins g0) (run es g)).
  { induction es as [|e es IH]; intros g P; [exact P |].
    cbn [run]. apply IH. now apply handle_paid. }
  assert (P0 : paid (coins g0) (startGame now now' Date_now g0)).
  { unfold startGame.
    apply (@handle_paid (coins g0) (Frame now' Date_now) _ U F).
    unfold paid.
    change (sessionCoins (resetRun now g0)) with (Fin 0).
    change (coins (resetRun now g0)) with (coins g0).
    repeat split. revert F. generalize (coins g0). intros c F.
    destruct c; try discriminate. qsolve. }
  destruct (R _ P0) as (P1 & P2 & P3).
  split; [exact P1 |]. split; [exact P2 |].
  split; [exact (isInteger_eqb _ _ P3 (isInteger_add _ _ I P1)) |].
  assert (L : coins g0 <= coins (run es (startGame now now' Date_now g0))).
  { apply isInteger_finite in P1. revert P1 P2 P3 F.
    generalize (coins (run es (startGame now now' Date_now g0))),
      (sessionCoins (run es (startGame now now' Date_now g0))), (coins g0).
    intros c s c0 P1 P2 P3 F. destruct c, s, c0; try discriminate; qsolve. }
  split; [exact L |]. split; [exact (@leb_trans _ _ _ N L) |].
  intros _. exact P3.
Qed.

(** ** The ship shop *)

Lemma ship_eqb_eq a b : ship_eqb a b = true <-> a = b.
Proof. destruct a, b; cbn; split; congruence. Qed.

Lemma includes_In l id : includes l id = true <-> In id l.
Proof.
  unfold includes. rewrite existsb_exists. split.
  - intros (x & I & E). apply ship_eqb_eq in E. now subst.
  - intros I. exists id. split; [exact I | now apply ship_eqb_eq].
Qed.

Lemma includes_app l l' id :
  includes (l ++ l') id = includes l id || includes l' id.
Proof. unfold includes. apply existsb_app. Qed.

Lemma totalPrice_finite ids :
  Num.isFinite (totalPrice ids) = true /\ 0 <= totalPrice ids.
Proof.
  induction ids as [|id ids (F & P)]; [split; reflexivity |].
  cbn [totalPrice fold_right]. fold (totalPrice ids).
  revert F P. generalize (totalPrice ids). intros t F P.
  destruct id, t; try discriminate; cbn; split; qsolve.
Qed.

Lemma purchase_arithmetic (id : ship) (c c' t : num) :
  Num.isFinite c = true -> 0 <= c ->
  ShipType.price (shipTypes id) <= c ->
  Num.isFinite c' = true -> Num.isFinite t = true ->
  (c' + t =? c - ShipType.price (shipTypes id)) = true ->
  (c' + (ShipType.price (shipTypes id) + t) =? c) = true.
Proof.
  intros F P A F' Ft E.
  destruct id, c, c', t; try discriminate; revert A E; cbn; qsolve.
Qed.

Lemma purchase_leaves_coins (id : ship) (c : num) :
  Num.isFinite c = true -> ShipType.price (shipTypes id) <= c ->
  Num.isFinite (c - ShipType.price (shipTypes id)) = true
  /\ 0 <= c - ShipType.price (shipTypes id)
  /\ c - ShipType.price (shipTypes id) <= c.
Proof.
  intros F A. destruct id, c; try discriminate; revert A; cbn;
    repeat split; qsolve.
Qed.

(** A whole number of coins stays whole when a price is paid. *)
Lemma purchase_leaves_whole_coins (id : ship) (c : num) :
  isInteger c = true ->
  isInteger (c - ShipType.price (shipTypes id)) = true.
Proof.
  intros I. unfold Num.sub.
  apply isInteger_add; [exact I | destruct id; reflexivity].
Qed.

(** What one click does to the coins and to the ships that are owned. *)
Lemma clickShipCard_cases id h :
  (unlockedShips (clickShipCard id h) = unlockedShips h
   /\ coins (game (clickShipCard id h)) = coins (game h))
  \/ (includes (unlockedShips h) id = false
      /\ ShipType.price (shipTypes id) <= coins (game h)
      /\ unlockedShips (clickShipCard id h) = unlockedShips h ++ [id]
      /\ coins (game (clickShipCard id h))
         = coins (game h) - ShipType.price (shipTypes id)).
Proof.
  unfold clickShipCard. cbv zeta.
  destruct (includes (unlockedShips h) id) eqn:I; [left; split; reflexivity |].
  destruct (coins (game h) >=? ShipType.price (shipTypes id)) eqn:A;
    [| left; split; reflexivity].
  right. split; [reflexivity |]. split; [reflexivity |].
  unfold updateShipCardsUI. cbn.
  match goal with |- context [if ?c then _ else _] => destruct c end;
    split; reflexivity.
Qed.

(** X15: the shop charges every ship once.  After any clicks on the ship
    cards, made with a whole number of coins between 0 and 2^53 (the range
    in which the whole numbers and their sums and differences are exact),
    the ships owned are those owned before followed by the ships bought,
    none of which was owned or is bought twice; the coins are still a whole
    number that is not negative, and no more than there were; and the coins
    left and the prices of the ships bought add up to the coins there
    were. *)
Theorem the_shop_charges_every_ship_once ids h :
  isInteger (coins (game h)) = true -> 0 <= coins (game h) ->
  coins (game h) <= 9007199254740992 ->
  let h' := clickShipCards ids h in
  exists bought,
    unlockedShips h' = unlockedShips h ++ bought
    /\ NoDup bought
    /\ Forall (fun id => includes (unlockedShips h) id = false /\ In id ids)
         bought
    /\ isInteger (coins (game h')) = true /\ 0 <= coins (game h')
    /\ coins (game h') <= coins (game h)
    /\ coins (game h') <= 9007199254740992
    /\ (coins (game h') + totalPrice bought =? coins (game h)) = true.
Proof.
  cbv zeta. revert h. induction ids as [|id ids IH]; intros h W P L.
  - exists []. cbn. rewrite app_nil_r.
    pose proof (isInteger_finite _ W) as F.
    repeat split; try assumption; try constructor;
      revert F; generalize (coins (game h)); intros c F;
      destruct c; try discriminate; qsolve.
  - cbn [clickShipCards fold_left]. fold (clickShipCards ids (clickShipCard id h)).
    destruct (clickShipCard_cases id h) as [(U & C) | (I & A & U & C)].
    + destruct (IH (clickShipCard id h))
        as (bought & B1 & B2 & B3 & B4 & B5 & B7 & B8 & B6);
        [now rewrite C | now rewrite C | now rewrite C |].
      exists bought. rewrite U, C in *. repeat split; try assumption.
      eapply Forall_impl; [| exact B3]. cbn beta.
      intros x (X1 & X2). split; [exact X1 | now right].
    + pose proof (isInteger_finite _ W) as F.
      destruct (@purchase_leaves_coins id _ F A) as (F1 & P1 & L1).
      pose proof (@purchase_leaves_whole_coins id _ W) as W1.
      destruct (IH (clickShipCard id h))
        as (bought & B1 & B2 & B3 & B4 & B5 & B7 & B8 & B6);
        [now rewrite C | now rewrite C
        | rewrite C; exact (@leb_trans _ _ _ L1 L) |].
      pose proof (isInteger_finite _ B4) as B4'.
      exists (id :: bought). rewrite U, C in *.
      assert (N : Forall (fun x => includes (unlockedShips h) x = false
                                   /\ x <> id /\ In x ids) bought).
      { eapply Forall_impl; [| exact B3]. cbn beta. intros x (X1 & X2).
        rewrite includes_app in X1. apply orb_false_elim in X1.
        destruct X1 as (X1 & X3). repeat split; try assumption.
        intros ->. cbn in X3. destruct id; discriminate. }
      split; [now rewrite B1, <- app_assoc |].
      split.
      { constructor; [| exact B2]. intros J.
        rewrite Forall_forall in N. destruct (N _ J) as (_ & X & _).
        now apply X. }
      split.
      { constructor; [split; [exact I | now left] |].
        eapply Forall_impl; [| exact N]. cbn beta.
        intros x (X1 & _ & X2). split; [exact X1 | now right]. }
      split; [exact B4 |]. split; [exact B5 |].
      split; [exact (@leb_trans _ _ _ B7 L1) |]. split; [exact B8 |].
      cbn [totalPrice fold_right]. fold (totalPrice bought).
      destruct (totalPrice_finite bought) as (Ft & _).
      now apply purchase_arithmetic.
Qed.

Lemma updateShipCardsUI_selected h :
  (0 < length (unlockedShips h))%nat ->
  includes (unlockedShips (updateShipCardsUI h))
    (selectedShip (game (updateShipCardsUI h))) = true.
Proof.
  intros N. unfold updateShipCardsUI.
  destruct (includes (unlockedShips h) (selectedShip (game h))) eqn:I;
    cbn [negb]; [exact I |].
  cbn. apply includes_In. destruct (unlockedShips h); [cbn in N; lia |].
  now left.
Qed.

Lemma clickShipCard_selected id h :
  includes (unlockedShips h) (selectedShip (game h)) = true ->
  includes (unlockedShips (clickShipCard id h))
    (selectedShip (game (clickShipCard id h))) = true.
Proof.
  intros S. unfold clickShipCard. cbv zeta.
  destruct (includes (unlockedShips h) id) eqn:I; [exact I |].
  destruct (coins (game h) >=? ShipType.price (shipTypes id)); [| exact S].
  unfold updateShipCardsUI.
  match goal with |- context [if ?c then _ else _] => destruct c end;
    apply includes_In; cbn; apply in_or_app; right; now left.
Qed.

(** X16: a run is flown with a ship that is owned.  Once
    [setupShipSelection] has brought the cards up to date, with at least
    one ship owned, the selected ship is an owned one after any clicks on
    the cards, and the run that starts then has that ship, with the hit
    points of its class. *)
Theorem a_run_is_flown_with_an_owned_ship ids h now :
  (0 < length (unlockedShips h))%nat ->
  let h' := clickShipCards ids (updateShipCardsUI h) in
  let g := resetRun now (game h') in
  includes (unlockedShips h') (selectedShip (game h')) = true
  /\ exists p,
      player g = Some p
      /\ includes (unlockedShips h') (Player.shipType p) = true
      /\ hp g = ShipType.maxHP (shipTypes (Player.shipType p))
      /\ maxHP g = ShipType.maxHP (shipTypes (Player.shipType p)).
Proof.
  intros N. cbv zeta.
  assert (S : forall h0,
             includes (unlockedShips h0) (selectedShip (game h0)) = true ->
             includes (unlockedShips (clickShipCards ids h0))
               (selectedShip (game (clickShipCards ids h0))) = true).
  { induction ids as [|id ids IH]; intros h0 H; [exact H |].
    cbn [clickShipCards fold_left]. apply IH.
    now apply clickShipCard_selected. }
  specialize (S _ (updateShipCardsUI_selected h N)).
  split; [exact S |].
  unfold resetRun, createPlayer. cbn. eexists. split; [reflexivity |].
  cbn. repeat split. exact S.
Qed.

(** ** The pointer when the pilot is off *)

Lemma input_of_setting g g' :
  setting g' = setting g -> input g' = input g /\ botEnabled g' = botEnabled g.
Proof.
  unfold setting, input. intros H. injection H. intros.
  split; [congruence | assumption].
Qed.

(** X17: while the pilot is off no event other than the pointer and key
    handlers touches the pointer target or the boost keys: frames, pause,
    resume, resize and the menu leave them as the user put them. *)
Theorem only_the_user_moves_the_pointer e g :
  botEnabled g = false ->
  match e with
  | MouseMove _ _ | MouseDown | MouseUp | SpaceDown | SpaceUp => True
  | _ => input (handle e g) = input g
  end.
Proof.
  intros B.
  assert (L : forall now Date_now g',
             botEnabled g' = false ->
             input (gameLoop now Date_now g') = input g').
  { intros now Date_now g' B'. unfold gameLoop.
    destruct (negb (isRunning g') || isPaused g'); [reflexivity |].
    unfold update. change (player (stampTime now g')) with (player g').
    destruct (player g') as [p|]; [| reflexivity].
    pose proof (simulate_outcome (stampTime now g') p) as (S & _).
    apply input_of_setting in S. destruct S as (S1 & S2).
    change (input (stampTime now g')) with (input g') in S1.
    change (botEnabled (stampTime now g')) with (botEnabled g') in S2.
    destruct (simulate (stampTime now g') p) as [g1 p1 | g1 p1];
      cbn [outcome_game] in S1, S2; [| exact S1].
    unfold updateBot. cbn [player set_player].
    change (botEnabled (set_player (Some p1) g1)) with (botEnabled g1).
    rewrite S2, B'. exact S1. }
  destruct e; cbn [handle]; try exact I; try reflexivity.
  - now apply L.
  - destruct (isRunning g); [| reflexivity]. unfold togglePause.
    destruct (negb (isRunning g)); [reflexivity |]. cbn.
    destruct (negb (isPaused g)); [reflexivity |].
    etransitivity; [apply L; exact B | reflexivity].
  - unfold resumeGame. etransitivity; [apply L; exact B | reflexivity].
Qed.

(** ** How long a hit protects *)

Lemma frame_dt_small now g : (normalizedDt (stampTime now g) >? 3) = false.
Proof.
  unfold normalizedDt, stampTime. cbn.
  generalize (now - lastTime g). intros x. destruct x; qsolve.
Qed.

Lemma tick_arithmetic (t dt : num) (T : Q) :
  (0 < T)%Q -> (t <? Fin (T + 3)) = false -> (dt >? 3) = false ->
  (t - dt <=? 0) = false /\ (t - dt <? Fin T) = false.
Proof. intros H A B. destruct t, dt; split; revert A B; qsolve. Qed.

Lemma protected_weaken (T T' : Q) p :
  (T' <= T)%Q -> protected T p -> protected T' p.
Proof.
  unfold protected. intros H (I & A). split; [exact I |].
  revert A. generalize (Player.invincibleTimer p). intros t.
  destruct t; qsolve.
Qed.

Lemma tickInvincibility_protected dt p (T : Q) :
  (0 < T)%Q -> protected (T + 3) p -> (dt >? 3) = false ->
  protected T (tickInvincibility dt p).
Proof.
  unfold protected. destruct p. cbn. intros H (-> & A) B.
  destruct (@tick_arithmetic _ _ _ H A B) as (C & D).
  unfold tickInvincibility. cbn. rewrite C. cbn. split; [reflexivity | exact D].
Qed.

Lemma movePlayer_protected dt g p (T : Q) :
  (0 < T)%Q -> protected (T + 3) p -> (dt >? 3) = false ->
  protected T (movePlayer dt g p).
Proof.
  intros H (I & A) B. apply movePlayer_ends. intros q _ Iq Tq.
  destruct (wrapPlayer_fields g q) as (_ & _ & _ & Iw & Tw).
  apply tickInvincibility_protected; [exact H | | exact B].
  split.
  - etransitivity; [exact Iw |]. etransitivity; [exact Iq | exact I].
  - etransitivity; [| exact A]. f_equal.
    etransitivity; [exact Tw | exact Tq].
Qed.

Lemma collectItem_protected item g p (T : Q) :
  (T <= 180)%Q -> protected T p -> protected T (snd (collectItem item g p)).
Proof.
  intros H P. unfold collectItem, Math_random.
  destruct (Collectible.type item); try exact P.
  split; [reflexivity |]. cbn. qsolve.
Qed.

Lemma updateCollectibles_protected dt cs g p (T : Q) :
  (T <= 180)%Q -> protected T p ->
  protected T (snd (updateCollectibles dt cs g p)).
Proof.
  intros H P. induction cs as [|c cs IH]; [exact P |].
  cbn [updateCollectibles].
  destruct (updateCollectibles dt cs g p) as [[rest g1] p1].
  cbn [snd] in IH.
  destruct (touchesCollectible (moveCollectible dt c) p1).
  - pose proof (@collectItem_protected (moveCollectible dt c) g1 p1 T H IH)
      as C.
    destruct (collectItem (moveCollectible dt c) g1 p1) as [g2 p2].
    exact C.
  - match goal with |- context [if ?c then _ else _] => destruct c end;
      exact IH.
Qed.

Lemma hitOnce_protected g p o (T : Q) :
  hitOnce g p o -> protected T p ->
  returned o = false /\ hp (outcome_game o) = hp g
  /\ protected T (outcome_player o).
Proof.
  intros [(H & K) | (_ & I & _)] (P1 & P2); [| congruence].
  destruct (K P1) as (R & I & E). repeat split; try assumption.
  etransitivity; [| exact P2]. f_equal. exact E.
Qed.

Lemma simulate_protected g p (T : Q) :
  (0 < T)%Q -> (T <= 180)%Q ->
  protected (T + 3) p -> (normalizedDt g >? 3) = false ->
  returned (simulate g p) = false
  /\ hp (outcome_game (simulate g p)) = hp g
  /\ protected T (outcome_player (simulate g p)).
Proof.
  intros H H' P D. unfold simulate.
  pose proof (steer_hp (normalizedDt g) g p) as (H0 & I0 & T0).
  destruct (steer (normalizedDt g) g p) as [g0 p0]. cbn [fst snd] in *.
  assert (P0 : protected (T + 3) p0).
  { destruct P as (P1 & P2). split; [congruence |].
    etransitivity; [| exact P2]. f_equal. exact T0. }
  destruct (@hitOnce_protected _ _ _ _
              (gravity_hitOnce (normalizedDt g) (blackHoles g0) g0 p0) P0)
    as (R1 & H1 & P1).
  destruct (gravity (normalizedDt g) (blackHoles g0) g0 p0) as [g1 p1|g1 p1];
    [| discriminate].
  cbn [outcome_game outcome_player] in H1, P1.
  pose proof (@movePlayer_protected (normalizedDt g) g1 p1 T H P1 D) as P2.
  set (p2 := movePlayer (normalizedDt g) g1 p1) in *. clearbody p2.
  pose proof (updateCollectibles_hp (normalizedDt g) (collectibles g1) g1 p2)
    as C.
  pose proof (@updateCollectibles_protected (normalizedDt g)
                (collectibles g1) g1 p2 T H' P2) as P3.
  destruct (updateCollectibles (normalizedDt g) (collectibles g1) g1 p2)
    as [[cs g3] p3].
  destruct C as (H3 & _). cbn [snd] in P3.
  pose proof (updateBlackHoles_frame (normalizedDt g)
                (blackHoles (set_collectibles cs g3))
                (set_collectibles cs g3) p3) as (_ & S4 & _).
  destruct (updateBlackHoles (normalizedDt g)
              (blackHoles (set_collectibles cs g3))
              (set_collectibles cs g3) p3) as [holes g4].
  cbn [snd] in S4. apply stats_eq in S4.
  destruct S4 as (_ & _ & _ & _ & H4). cbn in H4.
  destruct (@hitOnce_protected _ _ _ _
              (updateBullets_hitOnce (normalizedDt g)
                 (bullets (set_blackHoles holes g4))
                 (set_blackHoles holes g4) p3) P3)
    as (R5 & H5 & P5).
  destruct (updateBullets (normalizedDt g)
              (bullets (set_blackHoles holes g4))
              (set_blackHoles holes g4) p3) as [bs [g5 p5 | g5 p5]];
    [| discriminate].
  cbn [snd outcome_game outcome_player returned] in *.
  split; [reflexivity |]. split; [| exact P5].
  rewrite difficulty_hp.
  destruct (spawning_frame (normalizedDt g) (set_bullets bs g5) p5)
    as (_ & S). apply stats_eq in S. destruct S as (_ & _ & _ & _ & ->).
  change (hp (set_bullets bs g5)) with (hp g5).
  change (hp (set_blackHoles holes g4)) with (hp g4) in H5.
  congruence.
Qed.

Lemma handle_shielded e g (T : Q) :
  (0 < T)%Q -> (T <= 180)%Q -> shieldedUntil (T + 3) g ->
  hp (handle e g) = hp g /\ shieldedUntil T (handle e g).
Proof.
  intros H H' (p & Pl & P).
  assert (W : protected T p) by (apply (protected_weaken (T := T + 3)); [lra | exact P]).
  assert (L : forall now Date_now g',
             player g' = Some p ->
             hp (gameLoop now Date_now g') = hp g'
             /\ shieldedUntil T (gameLoop now Date_now g')).
  { intros now Date_now g' Pl'. unfold gameLoop.
    destruct (negb (isRunning g') || isPaused g');
      [split; [reflexivity | now exists p] |].
    unfold update. change (player (stampTime now g')) with (player g').
    rewrite Pl'.
    destruct (@simulate_protected (stampTime now g') p T H H' P
                (frame_dt_small now g')) as (R & Hh & Pp).
    change (hp (stampTime now g')) with (hp g') in Hh.
    destruct (simulate (stampTime now g') p) as [g1 p1 | g1 p1];
      [| discriminate].
    cbn [outcome_game outcome_player] in Hh, Pp. split.
    - destruct (updateBot_frame Date_now (set_player (Some p1) g1))
        as (_ & S & _).
      apply stats_eq in S. destruct S as (_ & _ & _ & _ & S).
      etransitivity; [exact S | exact Hh].
    - exists p1. split; [| exact Pp].
      unfold updateBot. cbn [player set_player]. branches; reflexivity. }
  destruct e; cbn [handle];
    try (split; [reflexivity | exists p; split; [exact Pl | exact W]]).
  - now apply L.
  - destruct (isRunning g);
      [| split; [reflexivity | exists p; split; [exact Pl | exact W]]].
    unfold togglePause.
    destruct (negb (isRunning g));
      [split; [reflexivity | exists p; split; [exact Pl | exact W]] |].
    cbn.
    destruct (negb (isPaused g));
      [split; [reflexivity | exists p; split; [exact Pl | exact W]] |].
    apply (L now' Date_now (set_lastTime now (set_isPaused false g)) Pl).
  - unfold resumeGame.
    apply (L now' Date_now (set_lastTime now (set_isPaused false g)) Pl).
Qed.

Lemma run_shielded es : forall g (T : Q),
  (0 < T)%Q -> (T + 3 * inject_Z (Z.of_nat (length es)) <= 180)%Q ->
  shieldedUntil (T + 3 * inject_Z (Z.of_nat (length es))) g ->
  hp (run es g) = hp g.
Proof.
  induction es as [|e es IH]; intros g T H H' S; [reflexivity |].
  cbn [run].
  assert (N : (inject_Z (Z.of_nat (length (e :: es)))
               == inject_Z (Z.of_nat (length es)) + 1)%Q).
  { cbn [length]. rewrite Nat2Z.inj_succ. unfold Z.succ.
    rewrite inject_Z_plus. reflexivity. }
  assert (N0 : (0 <= inject_Z (Z.of_nat (length es)))%Q).
  { change 0%Q with (inject_Z 0). rewrite <- Zle_Qle. lia. }
  rewrite N in H'.
  destruct (@handle_shielded e g (T + 3 * inject_Z (Z.of_nat (length es))))
    as (Hh & S1); [lra | lra | |].
  - destruct S as (p & Pl & P). exists p. split; [exact Pl |].
    apply (protected_weaken (T := T + 3 * inject_Z (Z.of_nat (length (e :: es)))));
      [rewrite N; lra | exact P].
  - etransitivity; [| exact Hh]. apply (IH _ T); [exact H | lra | exact S1].
Qed.

(** X18: a hit protects for 39 events.  A ship that is invincible with at
    least 120 time units on its timer, as it is after a hit that it
    survived or after a shield, loses no hit point during the next 39
    events, whatever they are: a frame takes at most three units off the
    timer. *)
Theorem a_hit_protects_for_39_events g p es :
  player g = Some p -> Player.invincible p = true ->
  (Player.invincibleTimer p <? 120) = false ->
  (length es <= 39)%nat ->
  hp (run es g) = hp g.
Proof.
  intros Pl I A L.
  apply (@run_shielded es g (120 - 3 * inject_Z (Z.of_nat (length es)))).
  - assert (inject_Z (Z.of_nat (length es)) <= inject_Z 39)%Q
      by (rewrite <- Zle_Qle; lia).
    change (inject_Z 39) with 39%Q in *. lra.
  - lra.
  - exists p. split; [exact Pl |]. split; [exact I |].
    revert A. generalize (Player.invincibleTimer p). intros t.
    destruct t; qsolve.
Qed.

(** ** The timers *)

(** A frame that is not left through [gameOver] ends with the spawn
    director and the difficulty schedule. *)
Lemma simulate_continues g p :
  returned (simulate g p) = false ->
  exists g' p',
    outcome_game (simulate g p)
    = difficulty (spawning (normalizedDt g) g' p').
Proof.
  unfold simulate.
  destruct (steer (normalizedDt g) g p) as [g0 p0].
  destruct (gravity (normalizedDt g) (blackHoles g0) g0 p0) as [g1 p1|g1 p1];
    [| discriminate].
  destruct (updateCollectibles (normalizedDt g) (collectibles g1) g1
              (movePlayer (normalizedDt g) g1 p1)) as [[cs g3] p3].
  destruct (updateBlackHoles (normalizedDt g)
              (blackHoles (set_collectibles cs g3))
              (set_collectibles cs g3) p3) as [holes g4].
  destruct (updateBullets (normalizedDt g)
              (bullets (set_blackHoles holes g4))
              (set_blackHoles holes g4) p3) as [bs [g5 p5 | g5 p5]];
    [| discriminate].
  intros _. exists (set_bullets bs g5), p5. reflexivity.
Qed.

Lemma timers_of_schedule g g' :
  schedule g' = schedule g -> timersInRange g -> timersInRange g'.
Proof.
  unfold schedule, timersInRange. intros H (A & B). injection H.
  intros _ D S. split.
  - etransitivity; [| exact A]. f_equal. exact S.
  - etransitivity; [| exact B]. f_equal. exact D.
Qed.

Lemma schedule_fields g g' :
  schedule g' = schedule g ->
  spawnTimer g' = spawnTimer g /\ difficultyTimer g' = difficultyTimer g.
Proof. unfold schedule. intros H. injection H. intros. now split. Qed.

Lemma spawning_timers dt g p :
  (spawnTimer (spawning dt g p) >? 60) = false
  /\ difficultyTimer (spawning dt g p) = difficultyTimer g + dt.
Proof.
  unfold spawning.
  set (g1 := set_difficultyTimer _ _).
  set (g2 := if spawnTimer g1 >? 60 then _ else g1).
  assert (E : (spawnTimer g2 >? 60) = false
              /\ difficultyTimer g2 = difficultyTimer g + dt).
  { unfold g2. destruct (spawnTimer g1 >? 60) eqn:C;
      [| split; [exact C | reflexivity]].
    unfold Math_random. cbv beta iota.
    assert (S : forall h, schedule (spawnCollectible h) = schedule h)
      by (intros h; apply spawnCollectible_frame).
    assert (K : forall h,
               schedule h = schedule (set_spawnTimer 0 g1) ->
               (spawnTimer h >? 60) = false
               /\ difficultyTimer h = difficultyTimer g + dt).
    { intros h Hh. apply schedule_fields in Hh. destruct Hh as (A & B).
      split.
      - etransitivity; [apply (f_equal (fun x => x >? 60)); exact A |].
        reflexivity.
      - etransitivity; [exact B | reflexivity]. }
    match goal with |- context [if ?c then _ else _] => destruct c end;
      apply K; repeat (etransitivity; [apply S |]); reflexivity. }
  clearbody g2. clear g1. destruct E as (E1 & E2).
  assert (K : forall h, schedule h = schedule g2 ->
                        (spawnTimer h >? 60) = false
                        /\ difficultyTimer h = difficultyTimer g + dt).
  { intros h Hh. apply schedule_fields in Hh. destruct Hh as (A & B).
    split.
    - etransitivity; [apply (f_equal (fun x => x >? 60)); exact A | exact E1].
    - etransitivity; [exact B | exact E2]. }
  match goal with |- context [if ?c then _ else _] => destruct c end;
    [| now apply K].
  unfold Math_random. cbv beta iota.
  match goal with |- context [if ?c then _ else _] => destruct c end;
    [| now apply K].
  apply K. etransitivity; [apply spawnBlackHole_frame | reflexivity].
Qed.

Lemma difficulty_timers g :
  (spawnTimer g >? 60) = false -> timersInRange (difficulty g).
Proof.
  intros S. unfold difficulty, timersInRange.
  destruct (difficultyTimer g >? 1800) eqn:D; split;
    try exact S; try exact D; reflexivity.
Qed.

Lemma handle_timers e g : timersInRange g -> timersInRange (handle e g).
Proof.
  intros T.
  assert (L : forall now Date_now g',
             timersInRange g' -> timersInRange (gameLoop now Date_now g')).
  { intros now Date_now g' T'. unfold gameLoop.
    destruct (negb (isRunning g') || isPaused g'); [exact T' |].
    unfold update. change (player (stampTime now g')) with (player g').
    destruct (player g') as [p|]; [| exact T'].
    assert (S : timersInRange (outcome_game (simulate (stampTime now g') p))).
    { destruct (returned (simulate (stampTime now g') p)) eqn:R.
      - apply (@timers_of_schedule g'); [| exact T'].
        now apply (simulate_outcome (stampTime now g') p).
      - destruct (simulate_continues _ _ R) as (g5 & p5 & ->).
        apply difficulty_timers. apply spawning_timers. }
    destruct (simulate (stampTime now g') p) as [g1 p1 | g1 p1];
      cbn [outcome_game] in S; [| exact S].
    apply (@timers_of_schedule g1); [| exact S].
    apply (updateBot_frame Date_now (set_player (Some p1) g1)). }
  destruct e; cbn [handle]; try exact T.
  - now apply L.
  - destruct (isRunning g); [| exact T]. unfold togglePause.
    destruct (negb (isRunning g)); [exact T |]. cbn.
    destruct (negb (isPaused g)); [exact T |]. now apply L.
  - unfold resumeGame. now apply L.
Qed.

(** X19: the timers stay in range.  At every point of a run the spawn
    timer is not above 60 and the difficulty timer is not above 1800: a
    frame that finds one above its threshold puts it back to 0. *)
Theorem the_timers_stay_in_range now now' Date_now g0 es :
  let g := run es (startGame now now' Date_now g0) in
  (spawnTimer g >? 60) = false /\ (difficultyTimer g >? 1800) = false.
Proof.
  cbv zeta. change (timersInRange (run es (startGame now now' Date_now g0))).
  assert (R : forall g, timersInRange g -> timersInRange (run es g)).
  { induction es as [|e es IH]; intros g T; [exact T |].
    cbn [run]. apply IH. now apply handle_timers. }
  apply R. unfold startGame. apply (handle_timers (Frame now' Date_now)).
  split; reflexivity.
Qed.

(** ** The bullets that are left *)

(** X20: the bullets that a completed bullets loop leaves are alive and in
    bounds.  When the loop is not left through [gameOver], every bullet
    left is one of the old bullets moved and aged once, its life is above
    0 and it is within bounds; no bullet is added. *)
Theorem bullets_left_are_alive dt bs g p rest g' p' :
  updateBullets dt bs g p = (rest, Continue g' p') ->
  Forall (fun b' =>
            keptBullet g b' = true
            /\ exists b, In b bs /\ b' = moveBullet dt b) rest
  /\ (length rest <= length bs)%nat.
Proof.
  revert rest g' p'. induction bs as [|b bs IH]; intros rest g' p' E.
  - cbn in E. injection E as <- _ _. split; [constructor | apply le_n].
  - cbn [updateBullets] in E.
    pose proof (updateBullets_outcome dt bs g p) as (S & _).
    destruct (updateBullets dt bs g p) as [rest1 [g1 p1 | g1 p1]];
      [| discriminate].
    cbn [snd outcome_game] in S. apply canvas_of_setting in S.
    destruct S as (W & H).
    destruct (IH rest1 g1 p1 eq_refl) as (F & L).
    assert (F' : Forall (fun b' =>
                keptBullet g b' = true
                /\ exists b0, In b0 (b :: bs) /\ b' = moveBullet dt b0) rest1).
    { eapply Forall_impl; [| exact F]. cbn beta.
      intros b' (K & b0 & I & M). split; [exact K |].
      exists b0. split; [now right | exact M]. }
    set (b1 := moveBullet dt b) in *.
    assert (O : outOfBounds (Bullet.x b1) (Bullet.y b1) g1
                = outOfBounds (Bullet.x b1) (Bullet.y b1) g)
      by (unfold outOfBounds; now rewrite W, H).
    rewrite O in E.
    destruct (touchesBullet b1 p1 && negb (Player.invincible p1)).
    + destruct (takeDamage (createExplosion 15 g1) p1) as [[g2 p2] dead].
      destruct dead; [discriminate |].
      injection E as <- _ _. split; [exact F' | cbn [length]; lia].
    + destruct ((Bullet.life b1 <=? 0)
                || outOfBounds (Bullet.x b1) (Bullet.y b1) g) eqn:K.
      * injection E as <- _ _. split; [exact F' | cbn [length]; lia].
      * injection E as <- _ _. split; [| cbn [length]; lia].
        constructor; [| exact F']. split.
        -- unfold keptBullet. now rewrite K.
        -- exists b. split; [now left | reflexivity].
Qed.

(** ** What a pickup is worth *)

Lemma floor_bounds (x : Q) (lo hi : Z) :
  (inject_Z lo <= x)%Q -> (x <= inject_Z hi)%Q ->
  (inject_Z lo <= inject_Z (Qfloor x))%Q
  /\ (inject_Z (Qfloor x) <= inject_Z hi)%Q.
Proof.
  intros L U. split.
  - rewrite <- Zle_Qle. rewrite <- (Qfloor_Z lo). now apply Qfloor_resp_le.
  - pose proof (Qfloor_le x). lra.
Qed.

Lemma pickup_gain (s m : num) (a : Q) :
  Num.isFinite s = true -> 1 <= m <= 10 -> (50 <= a)%Q -> (a <= 100)%Q ->
  s + 50 <= s + Math_floor (Fin a * m)
  /\ s + Math_floor (Fin a * m) <= s + 1000.
Proof.
  intros F (M1 & M2) A1 A2.
  destruct s as [| |s|], m as [| |m|]; try discriminate.
  apply leb_Fin in M1, M2. qunfold. cbn.
  destruct (@floor_bounds (Qred (a * m)) 50 1000) as (B1 & B2).
  - qred. unfold inject_Z. nra.
  - qred. unfold inject_Z. nra.
  - unfold inject_Z in B1, B2.
    split; apply Qle_bool_iff; qred; unfold inject_Z; lra.
Qed.

(** X21: what a pickup is worth.  With a finite score and a multiplier
    between 1 and 10, collecting an item of any category adds at least 50
    and at most 1000 to the score, and changes neither the hit points nor
    the level. *)
Theorem a_pickup_is_worth_50_to_1000 item g p :
  Num.isFinite (score g) = true -> 1 <= multiplier g <= 10 ->
  let g' := fst (collectItem item g p) in
  score g + 50 <= score g' /\ score g' <= score g + 1000
  /\ hp g' = hp g /\ level g' = level g.
Proof.
  intros F M. cbv zeta. unfold collectItem, Math_random.
  assert (A : forall a : Q, (50 <= a)%Q -> (a <= 100)%Q ->
              score g + 50 <= score g + Math_floor (Fin a * multiplier g)
              /\ score g + Math_floor (Fin a * multiplier g)
                 <= score g + 1000)
    by (intros a A1 A2; now apply pickup_gain).
  destruct (Collectible.type item); cbn [fst].
  - destruct (A 50%Q) as (A1 & A2); [lra | lra |].
    repeat split; [exact A1 | exact A2].
  - destruct (A 100%Q) as (A1 & A2); [lra | lra |].
    repeat split; [exact A1 | exact A2].
  - destruct (@multiplier_step _ M) as (M' & _).
    destruct (@pickup_gain (score g) (Math_min (multiplier g + 0.5) 10) 75%Q
                F M') as (A1 & A2); [lra | lra |].
    repeat split; [exact A1 | exact A2].
  - destruct (A 50%Q) as (A1 & A2); [lra | lra |].
    repeat split; [exact A1 | exact A2].
Qed.

(** ** The aim of a bullet *)

Lemma aim_arithmetic (dx dy d s : Q) :
  (0 < d)%Q -> (0 < s)%Q ->
  let vx := Fin dx / Fin d * Fin s in
  let vy := Fin dy / Fin d * Fin s in
  (0 <= Fin dx -> 0 <= vx) /\ (Fin dx <= 0 -> vx <= 0)
  /\ (0 <= Fin dy -> 0 <= vy) /\ (Fin dy <= 0 -> vy <= 0).
Proof.
  intros D S. cbv zeta.
  assert (K : (0 < / d * s)%Q)
    by (apply Qmult_lt_0_compat; [now apply Qinv_lt_0_compat | exact S]).
  set (k := (/ d * s)%Q) in *.
  assert (V : forall a : Q,
             exists v, Fin a / Fin d * Fin s = Fin v /\ (v == a * k)%Q).
  { intros a. unfold Num.div, Num.mul, Num.fin.
    destruct (Qeqb_spec d 0) as [E | E]; [lra |].
    eexists. split; [reflexivity |]. qred. unfold Qdiv, k. ring. }
  destruct (V dx) as (vx & -> & X). destruct (V dy) as (vy & -> & Y).
  clearbody k. repeat split; intros H; apply leb_Fin in H;
    apply leb_Fin; nra.
Qed.

(** X22: a bullet is fired towards the ship.  When the offsets from the
    black hole to the ship and the level are finite numbers, the level is
    not negative and the ship is not at the centre of the black hole, the
    bullet that [spawnBullet] adds starts at the black hole and, on each
    axis, does not move away from the ship: a component of its velocity
    is not negative when the ship is not on the negative side, not
    positive when the ship is not on the positive side, and so zero when
    the ship is straight above or below, or level with the hole. *)
Theorem a_bullet_is_aimed_at_the_ship hole g p :
  let dx := Player.x p - BlackHole.x hole in
  let dy := Player.y p - BlackHole.y hole in
  Num.isFinite dx = true -> Num.isFinite dy = true ->
  Num.isFinite (level g) = true -> 0 <= level g ->
  0 < Math_sqrt (dx * dx + dy * dy) ->
  exists b,
    bullets (spawnBullet (Some p) hole g) = bullets g ++ [b]
    /\ Bullet.x b = BlackHole.x hole /\ Bullet.y b = BlackHole.y hole
    /\ (0 <= dx -> 0 <= Bullet.vx b) /\ (dx <= 0 -> Bullet.vx b <= 0)
    /\ (0 <= dy -> 0 <= Bullet.vy b) /\ (dy <= 0 -> Bullet.vy b <= 0).
Proof.
  cbv zeta. intros Fx Fy Fl L D. unfold spawnBullet. cbv zeta.
  eexists. split; [reflexivity |]. cbn [Bullet.x Bullet.y Bullet.vx Bullet.vy].
  split; [reflexivity |]. split; [reflexivity |].
  revert Fx Fy D.
  generalize (Player.x p - BlackHole.x hole), (Player.y p - BlackHole.y hole).
  intros dx dy Fx Fy D.
  destruct dx as [| |dx|], dy as [| |dy|]; try discriminate.
  assert (S : exists s, 4 + level g * 0.3 = Fin s /\ (0 < s)%Q).
  { revert Fl L. generalize (level g). intros l Fl L.
    destruct l as [| |l|]; try discriminate. apply leb_Fin in L.
    eexists. split; [reflexivity |]. qred. lra. }
  destruct S as (s & -> & S).
  assert (R : exists d, Math_sqrt (Fin dx * Fin dx + Fin dy * Fin dy) = Fin d
                        /\ (0 < d)%Q).
  { revert D. unfold Math_sqrt, Num.sqrt, Num.add, Num.mul, Num.fin.
    match goal with |- context [if ?c then _ else _] => destruct c end;
      [discriminate |].
    intros D. apply ltb_Fin in D. eexists. split; [reflexivity | exact D]. }
  destruct R as (d & -> & R). now apply aim_arithmetic.
Qed.

(** ** The frame clock and the integration *)

Lemma updateCollectibles_position dt cs g p :
  position (snd (updateCollectibles dt cs g p)) = position p.
Proof.
  induction cs as [ | c cs IH]; [reflexivity | ].
  cbn [updateCollectibles].
  destruct (updateCollectibles dt cs g p) as [[rest g1] p1].
  cbn [snd] in IH.
  destruct (touchesCollectible (moveCollectible dt c) p1).
  - pose proof (collectItem_position (moveCollectible dt c) g1 p1) as C.
    cbv zeta in C.
    destruct (collectItem (moveCollectible dt c) g1 p1) as [g2 p2].
    cbn [snd] in *. destruct C as (X & Y & _).
    etransitivity; [ | exact IH]. unfold position. now rewrite X, Y.
  - match goal with |- context [if ?c then _ else _] => destruct c end;
      exact IH.
Qed.

Lemma updateBullets_position dt bs g p :
  position (outcome_player (snd (updateBullets dt bs g p))) = position p.
Proof.
  induction bs as [ | b bs IH]; [reflexivity | ].
  cbn [updateBullets].
  destruct (updateBullets dt bs g p) as [rest [g1 p1 | g1 p1]];
    cbn [snd outcome_player] in IH; [ | exact IH].
  destruct (touchesBullet (moveBullet dt b) p1
            && negb (Player.invincible p1)).
  - pose proof (takeDamage_world (createExplosion 15 g1) p1) as (_ & T).
    destruct (takeDamage (createExplosion 15 g1) p1) as [[g2 p2] dead].
    cbn [fst snd] in T.
    destruct dead; cbn [snd outcome_player];
      (etransitivity; [exact T | exact IH]).
  - match goal with |- context [if ?c then _ else _] => destruct c end;
      exact IH.
Qed.

Lemma updateBot_player Date_now g : player (updateBot Date_now g) = player g.
Proof.
  unfold updateBot. destruct (player g) as [p | ] eqn:P; [ | exact P].
  destruct (negb (botEnabled g)); [exact P | ].
  destruct (botDecision Date_now g p) as [[mx my] md]. exact P.
Qed.

Lemma update_player Date_now g p :
  player g = Some p ->
  player (update Date_now g) = Some (outcome_player (simulate g p)).
Proof.
  intros P. unfold update. rewrite P.
  destruct (simulate g p) as [g1 p1 | g1 p1]; [ | reflexivity].
  rewrite updateBot_player. reflexivity.
Qed.

Lemma update_energy Date_now g p :
  player g = Some p ->
  energy (update Date_now g) = energy (outcome_game (simulate g p)).
Proof.
  intros P. unfold update. rewrite P.
  destruct (simulate g p) as [g1 p1 | g1 p1]; [ | reflexivity].
  pose proof (updateBot_frame Date_now (set_player (Some p1) g1))
    as (_ & S & _).
  unfold stats in S. injection S. intros _ E _ _ _. exact E.
Qed.

(** When the black hole loop is not fatal, the ship ends the frame where
    [movePlayer] has put it. *)
Lemma simulate_position g p g2 p2 :
  let dt := normalizedDt g in
  gravity dt (blackHoles (fst (steer dt g p))) (fst (steer dt g p))
    (snd (steer dt g p)) = Continue g2 p2 ->
  position (outcome_player (simulate g p)) = position (movePlayer dt g2 p2).
Proof.
  cbv zeta. unfold simulate.
  destruct (steer (normalizedDt g) g p) as [g1 p1]. cbn [fst snd].
  intros ->.
  pose proof (updateCollectibles_position (normalizedDt g)
                (collectibles g2) g2 (movePlayer (normalizedDt g) g2 p2))
    as C.
  destruct (updateCollectibles (normalizedDt g) (collectibles g2) g2
              (movePlayer (normalizedDt g) g2 p2)) as [[cs g3] p3].
  cbn [snd] in C.
  destruct (updateBlackHoles (normalizedDt g)
              (blackHoles (set_collectibles cs g3))
              (set_collectibles cs g3) p3) as [holes g4].
  pose proof (updateBullets_position (normalizedDt g)
                (bullets (set_blackHoles holes g4))
                (set_blackHoles holes g4) p3) as B.
  destruct (updateBullets (normalizedDt g)
              (bullets (set_blackHoles holes g4))
              (set_blackHoles holes g4) p3) as [bs [g5 p5 | g5 p5]];
    cbn [snd outcome_player] in B |- *;
    (etransitivity; [exact B | exact C]).
Qed.

(** [movePlayer] ends with the wrap and the invincibility timer, applied
    to a ship that has advanced by its velocity times [dt]. *)
Lemma movePlayer_advances (Q : Player.t -> Prop) dt g p :
  (forall q,
      Player.radius q = Player.radius p ->
      Player.x q = Player.x p + Player.vx q * dt ->
      Player.y q = Player.y p + Player.vy q * dt ->
      Q (tickInvincibility dt (wrapPlayer g q))) ->
  Q (movePlayer dt g p).
Proof.
  intros H. cbv beta delta [movePlayer].
  do 8 let_step Q.
  apply H; subst; branches; reflexivity.
Qed.

Lemma wrapPlayer_velocity g p :
  Player.vx (wrapPlayer g p) = Player.vx p
  /\ Player.vy (wrapPlayer g p) = Player.vy p.
Proof.
  destruct p. unfold wrapPlayer. cbn.
  innermost_branches; repeat split.
Qed.

Lemma tickInvincibility_velocity dt p :
  Player.vx (tickInvincibility dt p) = Player.vx p
  /\ Player.vy (tickInvincibility dt p) = Player.vy p.
Proof. unfold tickInvincibility. branches; repeat split. Qed.

(** The move of a frame: the ship advances by its new velocity times
    [dt], and is then wrapped at the edges. *)
Lemma movePlayer_integrates dt g p :
  position (movePlayer dt g p)
  = (wrapAxis (Player.x p + Player.vx (movePlayer dt g p) * dt)
       (canvasWidth g) (Player.radius p),
     wrapAxis (Player.y p + Player.vy (movePlayer dt g p) * dt)
       (canvasHeight g) (Player.radius p)).
Proof.
  apply movePlayer_advances. intros q R X Y.
  destruct (tickInvincibility_fields dt (wrapPlayer g q)) as (T1 & T2 & _).
  destruct (tickInvincibility_velocity dt (wrapPlayer g q)) as (T3 & T4).
  destruct (wrapPlayer_fields g q) as (W1 & W2 & _).
  destruct (wrapPlayer_velocity g q) as (W3 & W4).
  unfold position. rewrite T1, T2, T3, T4, W1, W2, W3, W4, R, <- X, <- Y.
  reflexivity.
Qed.

(** A frame in a world without objects: steering, the move, the spawn
    director and the difficulty schedule. *)
Lemma simulate_in_an_empty_world g p :
  collectibles g = [] -> blackHoles g = [] -> bullets g = [] ->
  let dt := normalizedDt g in
  outcome_player (simulate g p)
  = movePlayer dt (fst (steer dt g p)) (snd (steer dt g p))
  /\ energy (outcome_game (simulate g p)) = energy (fst (steer dt g p)).
Proof.
  intros C H B. cbv zeta.
  pose proof (steer_world (normalizedDt g) g p) as (W & _).
  unfold simulate.
  destruct (steer (normalizedDt g) g p) as [g1 p1]. cbn [fst snd] in *.
  unfold world in W. rewrite C, H, B in W. injection W as W1 W2 W3.
  rewrite W2. cbn [gravity]. rewrite W1. cbn [updateCollectibles].
  change (blackHoles (set_collectibles [] g1)) with (blackHoles g1).
  rewrite W2. cbn [updateBlackHoles].
  change (bullets (set_blackHoles [] (set_collectibles [] g1)))
    with (bullets g1).
  rewrite W3. cbn [updateBullets outcome_player outcome_game].
  split; [reflexivity | ].
  match goal with
  | |- energy (difficulty (spawning ?dt ?g0 ?p0)) = _ =>
      pose proof (proj2 (spawning_frame dt g0 p0)) as S;
      assert (D : energy (difficulty (spawning dt g0 p0))
                  = energy (spawning dt g0 p0))
        by (unfold difficulty; branches; reflexivity);
      etransitivity; [exact D | ];
      unfold stats in S; injection S; intros _ E _ _ _; exact E
  end.
Qed.

(** C9: every frame clamps the elapsed time to 50 ms before it is divided
    by 16.67, so the normalized [dt] that [update] integrates with never
    exceeds 50/16.67 (about 3.0), however long the stall was; an elapsed
    time of 200 ms, as any of 50 ms or more, gives exactly 50/16.67.  The
    frame of a running game is [update] on the state with that clock, whose
    [dt] is min(now - lastTime, 50) / 16.67; unless the ship dies in the
    black hole loop, it ends the frame at the position that [movePlayer]
    gives it with this [dt]; and in a world without objects the ship after
    the frame is the one steered and moved with this [dt], and the energy
    is the one the steering with this [dt] leaves.  The move itself
    advances the ship by its velocity times [dt] on each axis, before the
    wrap at the edges. *)
Theorem frame_dt_is_clamped :
  (forall now Date_now g,
      gameLoop now Date_now g =
        if negb (isRunning g) || isPaused g then g
        else update Date_now (stampTime now g))
  /\ (forall now g,
        deltaTime (stampTime now g) = Math_min (now - lastTime g) 50
        /\ (normalizedDt (stampTime now g) >? 50 / 16.67) = false
        /\ Num.isNaN (now - lastTime g)
           || (normalizedDt (stampTime now g) <=? 50 / 16.67) = true)
  /\ (forall (t elapsed : Q) g,
        (50 <= elapsed)%Q ->
        normalizedDt (stampTime (Fin (t + elapsed)) (set_lastTime (Fin t) g))
        = Num.fin (50 / 16.67))
  /\ (forall (t : Q) g,
        normalizedDt (stampTime (Fin (t + 200)) (set_lastTime (Fin t) g))
        = Num.fin (50 / 16.67))
  /\ 2.999 < 50 / 16.67 /\ 50 / 16.67 < 3
  /\ (forall now Date_now g p,
        isRunning g = true -> isPaused g = false -> player g = Some p ->
        let g0 := stampTime now g in
        let dt := Math_min (now - lastTime g) 50 / 16.67 in
        normalizedDt g0 = dt
        /\ gameLoop now Date_now g = update Date_now g0
        /\ (let '(g1, p1) := steer dt g0 p in
            forall g2 p2,
              gravity dt (blackHoles g1) g1 p1 = Continue g2 p2 ->
              option_map position (player (gameLoop now Date_now g))
              = Some (position (movePlayer dt g2 p2))))
  /\ (forall now Date_now g p,
        isRunning g = true -> isPaused g = false -> player g = Some p ->
        collectibles g = [] -> blackHoles g = [] -> bullets g = [] ->
        let g0 := stampTime now g in
        let dt := Math_min (now - lastTime g) 50 / 16.67 in
        player (gameLoop now Date_now g)
        = Some (movePlayer dt (fst (steer dt g0 p)) (snd (steer dt g0 p)))
        /\ energy (gameLoop now Date_now g)
           = energy (fst (steer dt g0 p)))
  /\ (forall dt g p,
        let p' := movePlayer dt g p in
        position p'
        = (wrapAxis (Player.x p + Player.vx p' * dt)
             (canvasWidth g) (Player.radius p),
           wrapAxis (Player.y p + Player.vy p' * dt)
             (canvasHeight g) (Player.radius p))).
Proof.
  assert (L : forall now Date_now g,
             isRunning g = true -> isPaused g = false ->
             gameLoop now Date_now g = update Date_now (stampTime now g)).
  { intros now Date_now g R U. unfold gameLoop. now rewrite R, U. }
  split; [reflexivity | ].
  split; [exact frame_dt_bound | ].
  split; [exact stalled_frame_dt | ].
  split; [intros t g; apply stalled_frame_dt; lra | ].
  split; [reflexivity | ]. split; [reflexivity | ].
  split; [ | split; [ | exact movePlayer_integrates]].
  - intros now Date_now g p R U P. cbv zeta.
    split; [reflexivity | ]. split; [now apply L | ].
    change (Math_min (now - lastTime g) 50 / 16.67)
      with (normalizedDt (stampTime now g)).
    pose proof (@simulate_position (stampTime now g) p) as S.
    cbv zeta in S.
    destruct (steer (normalizedDt (stampTime now g)) (stampTime now g) p)
      as [g1 p1]. cbn [fst snd] in S.
    intros g2 p2 G. rewrite (L _ _ _ R U).
    rewrite (@update_player Date_now (stampTime now g) p P).
    cbn [option_map]. f_equal. now apply S.
  - intros now Date_now g p R U P C H B. cbv zeta.
    change (Math_min (now - lastTime g) 50 / 16.67)
      with (normalizedDt (stampTime now g)).
    destruct (@simulate_in_an_empty_world (stampTime now g) p C H B)
      as (S1 & S2).
    rewrite (L _ _ _ R U). split.
    + rewrite (@update_player Date_now (stampTime now g) p P).
      f_equal. exact S1.
    + rewrite (@update_energy Date_now (stampTime now g) p P). exact S2.
Qed.

End Simulation.

(** * Worked scenarios *)

(** ** Gravity at the centre of a black hole *)

(** C2 (the code departs from the claim): with the player exactly on the
    centre of a black hole, [update] divides zero by zero and the pull makes
    both velocity components [NaN]; at the end of that frame (here with
    two hit points, so that the contact is not fatal) the position is
    [NaN] as well.  The normalization is not guarded. *)
Theorem gravity_at_zero_distance_is_NaN :
  let hole := holeAt 400 300 40 200 in
  let p := craftAt 400 300 in
  Player.vx p = 0 /\ Player.vy p = 0
  /\ Player.vx (pull 1 hole p) = NaN /\ Player.vy (pull 1 hole p) = NaN
  /\ match
       player
         (gameLoop evenDraws notModelled1 notModelled1 notModelled2 (Num.fin 1016.67) 0
            (set_blackHoles [hole] (set_hp 2 (set_maxHP 2 running))))
     with
     | Some p' => Player.x p' = NaN /\ Player.y p' = NaN
     | None => False
     end.
Proof. vm_compute. repeat split; reflexivity. Qed.

(** With the hole one unit away the same pull is an ordinary number. *)
Example gravity_one_unit_away :
  Player.vx (pull 1 (holeAt 401 300 40 200) (craftAt 400 300))
  = Num.fin 0.34825.
Proof. vm_compute. reflexivity. Qed.

(** ** Contact with the event horizon *)

(** C3 (the code departs from the claim): a player whose centre is 50
    away from the centre of a black hole of radius 40 overlaps it, since
    the player's own radius is 15, but the black hole loop compares the
    distance with the hole's radius alone and deals no damage.  The
    collectible and bullet loops do add the player's radius: a bullet of
    radius 6 at a distance of 20 touches the player, a black hole of
    radius 6 at the same place does not. *)
Theorem horizon_contact_ignores_player_radius :
  let hole := holeAt 450 300 40 200 in
  let p := craftAt 400 300 in
  let dx := BlackHole.x hole - Player.x p in
  let dy := BlackHole.y hole - Player.y p in
  let dist := Math_sqrt (dx * dx + dy * dy) in
  dist = 50
  /\ (dist <? Player.radius p + BlackHole.radius hole) = true
  /\ Player.invincible p = false
  /\ insideHorizon hole p = false
  /\ (forall g, exists p', gravity 1 [hole] g p = Continue g p')
  /\ touchesBullet (bulletAt 420 300) p = true
  /\ touchesCollectible (itemAt 420 300 ItemType.points) p = true
  /\ insideHorizon (holeAt 420 300 6 200) p = false.
Proof.
  cbn zeta. repeat split; try (vm_compute; reflexivity).
  intro g. eexists. cbn [gravity].
  replace (insideHorizon _ _ && _) with false by (vm_compute; reflexivity).
  reflexivity.
Qed.

(** ** The category draw when no threshold is met *)

(** Outside the range of [Math.random]: no running cumulative weight
    exceeds a draw of 1; the rule of the specification would answer with
    the last category, shield, and the loop leaves the first, energy. *)
Lemma a_draw_of_one_meets_no_threshold :
  (1 <? 0.4) = false /\ (1 <? 0.4 + 0.35) = false
  /\ (1 <? 0.4 + 0.35 + 0.15) = false
  /\ (1 <? 0.4 + 0.35 + 0.15 + 0.1) = false
  /\ specChooseType 1 = ItemType.shield
  /\ chooseType 1 = ItemType.energy
  /\ chooseType 1 <> specChooseType 1.
Proof. repeat split; try (vm_compute; reflexivity). vm_compute. discriminate. Qed.

(** The rule and the code agree on a draw inside the range of
    [Math.random], here in the last band. *)
Lemma category_draw_witness :
  chooseType (Fin 0.95) = specChooseType (Fin 0.95)
  /\ chooseType (Fin 0.95) = ItemType.shield.
Proof.
  split.
  - apply (category_draw 0.95). reflexivity.
  - reflexivity.
Defined.

(** ** The pilot between two black holes *)

(** C7 as stated fails between two black holes at the same distance on
    opposite sides: the evasion vector is zero and a best collectible
    exists, so the stated rule targets the collectible at (400, 100) and
    does not engage; the pilot, which is in danger, leaves the target at
    (123, 456) and engages.  In a window 80 units wide the clamped target
    is at 50, which is 30 units from the right edge. *)
Lemma pilot_in_danger_with_zero_evasion :
  let p := craftAt 400 300 in
  player pincer = Some p /\ botEnabled pincer = true
  /\ evasion pincer p = (Fin 0, Fin 0, true)
  /\ fst (findBest pincer p) = Some (itemAt 400 100 ItemType.shield)
  /\ specDecision notModelled1 notModelled1 0 pincer p
     = (Fin 400, Fin 100, false)
  /\ pilotOutput (updateBot notModelled1 notModelled1 0 pincer)
     = ((Fin 123, Fin 456), true)
  /\ pilotOutput (updateBot notModelled1 notModelled1 0 pincer)
     <> (clampTarget pincer (Fin 400, Fin 100), false)
  /\ mouseX (updateBot notModelled1 notModelled1 0 (set_canvasWidth 80 pincer))
     = 50
  /\ (50 >? canvasWidth (set_canvasWidth 80 pincer) - 50) = true.
Proof.
  cbn zeta. repeat split; try (vm_compute; reflexivity).
  vm_compute. discriminate.
Qed.

(** One black hole 100 units to the right, in range (100 < 200 * 0.8): the
    evasion vector is (-1) * (1 - 100 / 160) * 2 = -0.75 on the x axis and
    the pilot aims 200 units to the left of the craft; with a pull radius
    of 120 the same hole is out of range (100 >= 96). *)
Example pilot_flees_a_lone_black_hole :
  let p := craftAt 400 300 in
  holeThreat p (holeAt 500 300 40 200) = true
  /\ evasion loneHole p = (Num.fin (-0.75), Fin 0, true)
  /\ pilotOutput (updateBot notModelled1 notModelled1 0 loneHole)
     = ((Fin 200, Fin 300), true)
  /\ holeThreat p (holeAt 500 300 40 120) = false
  /\ evasion (set_blackHoles [holeAt 500 300 40 120] loneHole) p
     = (Fin 0, Fin 0, false)
  /\ bulletThreat p (bulletAt 460 380) = false
  /\ bulletThreat p (bulletAt 459 380) = true.
Proof. cbv zeta. repeat split; vm_compute; reflexivity. Qed.

Lemma pilot_decision_witness :
  mouseDown (updateBot notModelled1 notModelled1 0 pincer)
  = (energy pincer >? 20)
  /\ 50 <= mouseX (updateBot notModelled1 notModelled1 0 pincer)
     <= canvasWidth pincer - 50.
Proof.
  pose proof (@pilot_decision notModelled1 notModelled1 0 pincer
                (craftAt 400 300) eq_refl eq_refl) as H.
  change (evasion pincer (craftAt 400 300)) with (Fin 0, Fin 0, true) in H.
  cbv beta iota zeta in H. destruct H as (H1 & _ & _ & H4 & _).
  split; [apply H1; reflexivity | apply H4; reflexivity].
Defined.

(** ** The pilot and the integrator in one frame *)



(** ** Damage *)

Lemma damage_procedure_witness :
  takeDamage running (Player.set_invincible true (craftAt 400 300))
  = (running, Player.set_invincible true (craftAt 400 300), false)
  /\ hp (fst (fst (takeDamage running (craftAt 400 300)))) = 0
  /\ isRunning
       (gameLoop evenDraws notModelled1 notModelled1 notModelled2
          (Num.fin 1016.67) 0 doomed) = false.
Proof.
  pose proof (damage_procedure evenDraws notModelled1 notModelled1
                notModelled2) as (D1 & D2 & _ & _ & _ & D5 & _).
  split; [apply D1; reflexivity | split].
  - specialize (D2 running (craftAt 400 300) eq_refl).
    destruct (takeDamage running (craftAt 400 300)) as [[g' p'] dead].
    destruct D2 as (E & _). exact E.
  - apply D5. vm_compute. reflexivity.
Defined.

(** A fatal frame goes no further than the hit.  In [doomed] the ship
    dies in the black hole loop: it has been steered and pulled, but not
    moved, and the objects of the world are those of the start of the
    frame.  In [shot] it dies at the last bullet: the bullet in front has
    not been moved or aged, and the timers have not advanced. *)
Example a_fatal_frame_stops_at_the_hit :
  let frame g :=
    gameLoop evenDraws notModelled1 notModelled1 notModelled2
      (Num.fin 1016.67) 0 g in
  isRunning (frame doomed) = false
  /\ option_map position (player (frame doomed)) = Some (Fin 400, Fin 300)
  /\ (exists vx,
        option_map Player.vx (player (frame doomed)) = Some vx /\ 0 < vx)
  /\ world (frame doomed) = world doomed
  /\ isRunning (frame shot) = false
  /\ bullets (frame shot) = [bulletAt 100 100]
  /\ schedule (frame shot) = schedule shot.
Proof.
  cbv zeta. repeat split; try (vm_compute; reflexivity).
  eexists. split; vm_compute; reflexivity.
Qed.

(** ** The frame clock after a stall *)

Lemma frame_dt_is_clamped_witness :
  normalizedDt
    (stampTime (Fin (1000 + 200)) (set_lastTime (Fin 1000) running))
  = Num.fin (50 / 16.67)
  /\ option_map position
       (player
          (gameLoop evenDraws notModelled1 notModelled1 notModelled2
             (Fin (1000 + 200)) 0 coasting))
     = Some (Num.fin (400 + 8.5 * (50 / 16.67)), Fin 300).
Proof.
  pose proof (frame_dt_is_clamped evenDraws notModelled1 notModelled1
                notModelled2) as (_ & _ & H & _ & _ & _ & _ & K & _).
  split; [apply H; vm_compute; discriminate | ].
  destruct (K (Fin (1000 + 200)) (Fin 0) coasting _
              eq_refl eq_refl eq_refl eq_refl eq_refl eq_refl) as (K1 & _).
  rewrite K1. vm_compute. reflexivity.
Defined.

(** The craft of [coasting] keeps, after friction, 8.5 units a tick: a
    frame after 25 ms moves it by 8.5 * (25 / 16.67), and a frame after a
    stall of 200 ms or of 5 s moves it as far as a frame after 50 ms
    does. *)
Example a_stall_moves_the_ship_as_50_ms_do :
  let after ms :=
    option_map position
      (player
         (gameLoop evenDraws notModelled1 notModelled1 notModelled2
            (Num.fin (1000 + ms)) 0 coasting)) in
  after 25%Q = Some (Num.fin (400 + 8.5 * (25 / 16.67)), Fin 300)
  /\ after 50%Q = Some (Num.fin (400 + 8.5 * (50 / 16.67)), Fin 300)
  /\ after 200%Q = after 50%Q /\ after 5000%Q = after 50%Q.
Proof. cbv zeta. repeat split; vm_compute; reflexivity. Qed.

(** ** A points item at multiplier 2 *)

Lemma points_item_effect_witness :
  let g := set_multiplier 2 running in
  let item := itemAt 400 300 ItemType.points in
  score (fst (collectItem evenDraws item g (craftAt 400 300))) = score g + 200
  /\ coins (fst (collectItem evenDraws item g (craftAt 400 300)))
     = coins g + 2.
Proof.
  cbn zeta.
  pose proof (@points_item_effect evenDraws
                (itemAt 400 300 ItemType.points) (set_multiplier 2 running)
                (craftAt 400 300) eq_refl eq_refl eq_refl) as H.
  cbv zeta in H.
  destruct (collectItem evenDraws (itemAt 400 300 ItemType.points)
              (set_multiplier 2 running) (craftAt 400 300)) as [g' p'].
  destruct H as (_ & H2 & H3 & _).
  split; [apply H2; reflexivity | exact H3].
Defined.

(** ** A run that collects a points item *)

Example run_collects_a_points_item :
  let start :=
    startGame evenDraws notModelled1 notModelled1 notModelled2
      1000 1000 0 constructed in
  let g1 :=
    run evenDraws notModelled1 notModelled1 notModelled2
      openingFrames start in
  let g2 :=
    run evenDraws notModelled1 notModelled1 notModelled2
      (openingFrames ++ laterFrames) start in
  (score g1, coins g1) = (Fin 0, Fin 0)
  /\ (score g2, coins g2) = (Fin 100, Fin 2).
Proof. vm_compute. split; reflexivity. Qed.

Lemma bounds_hold_during_a_run_witness :
  let g :=
    run evenDraws notModelled1 notModelled1 notModelled2
      (firstn 76 (openingFrames ++ laterFrames))
      (startGame evenDraws notModelled1 notModelled1 notModelled2
         1000 1000 0 constructed) in
  (0 <= energy g <= 100) /\ (0 <= hp g <= maxHP g)
  /\ (1 <= multiplier g <= 10).
Proof.
  assert (K : clock_ok evenDraws notModelled1 notModelled1 notModelled2
                (openingFrames ++ laterFrames)
                (startGame evenDraws notModelled1 notModelled1 notModelled2
                   1000 1000 0 constructed))
    by (vm_compute; repeat split).
  exact (proj1 (@bounds_hold_during_a_run evenDraws notModelled1
                  notModelled1 notModelled2 1000 1000 0 constructed
                  (openingFrames ++ laterFrames) 76 eq_refl eq_refl K)).
Defined.

Lemma score_and_multiplier_never_decrease_witness :
  let start :=
    startGame evenDraws notModelled1 notModelled1 notModelled2
      1000 1000 0 constructed in
  score (run evenDraws notModelled1 notModelled1 notModelled2
           openingFrames start)
  <= score (run evenDraws notModelled1 notModelled1 notModelled2
              (openingFrames ++ laterFrames) start).
Proof.
  assert (K : clock_ok evenDraws notModelled1 notModelled1 notModelled2
                (openingFrames ++ laterFrames)
                (startGame evenDraws notModelled1 notModelled1 notModelled2
                   1000 1000 0 constructed))
    by (vm_compute; repeat split).
  pose proof (@score_and_multiplier_never_decrease evenDraws notModelled1
                notModelled1 notModelled2 1000 1000 0 constructed
                openingFrames laterFrames eq_refl eq_refl K)
    as ((H & _) & _).
  exact H.
Defined.

(** ** The wrap at the left edge *)

Lemma player_stays_within_the_wrap_margin_witness :
  let q := movePlayer notModelled2 1 running drifting in
  Player.x q = 815
  /\ (Player.x q >? canvasWidth running + Player.radius q) = false.
Proof.
  pose proof (@player_stays_within_the_wrap_margin notModelled2 1 running
                drifting eq_refl eq_refl) as (_ & _ & H & _).
  split; [vm_compute; reflexivity | exact H].
Defined.

(** ** Bullets and an invincible ship *)

Lemma bullets_pass_an_invincible_ship_witness :
  touchesBullet (moveBullet 1 (bulletAt 400 300)) justHit = true
  /\ updateBullets 1 [bulletAt 400 300] running justHit
     = ([moveBullet 1 (bulletAt 400 300)], Continue running justHit).
Proof.
  split; [reflexivity |].
  exact (@bullets_pass_an_invincible_ship 1 [bulletAt 400 300] running
           justHit eq_refl).
Defined.

(** ** Spawning with even draws *)

Lemma evenDraws_in_range : forall n, 0 <= evenDraws n /\ evenDraws n < 1.
Proof. intro n. split; reflexivity. Defined.

Lemma black_hole_spawn_witness :
  exists hole,
    blackHoles (spawnBlackHole evenDraws (Some (craftAt 100 100)) running)
    = blackHoles running ++ [hole]
    /\ (30 <= BlackHole.radius hole <= 50)
    /\ (150 <= BlackHole.pullRadius hole <= 250)
    /\ (100 <= BlackHole.x hole <= canvasWidth running - 100)
    /\ (Math_hypot (BlackHole.x hole - 100) (BlackHole.y hole - 100) <? 200)
       = false.
Proof.
  destruct (@black_hole_spawn evenDraws (Some (craftAt 100 100)) running
              evenDraws_in_range)
    as (hole & A & B & C & _ & _ & _ & _ & _ & _ & X & _ & D).
  exists hole. split; [exact A |]. split; [exact B |]. split; [exact C |].
  split; [exact (X eq_refl eq_refl) |].
  destruct D as [D | D]; [exact D | exfalso].
  revert D. vm_compute. intros D. discriminate D.
Defined.

Example black_hole_spawned_with_even_draws :
  blackHoles (spawnBlackHole evenDraws (Some (craftAt 100 100)) running)
  = [{| BlackHole.x := 400; BlackHole.y := 300;
        BlackHole.radius := 40; BlackHole.pullRadius := 200;
        BlackHole.strength := Num.fin 0.35; BlackHole.rotation := 0;
        BlackHole.lifetime := 0; BlackHole.maxLifetime := 650;
        BlackHole.shootTimer := 0; BlackHole.shootInterval := 150 |}].
Proof. vm_compute. reflexivity. Qed.

Lemma collectible_spawn_witness :
  exists c,
    collectibles (spawnCollectible evenDraws running)
    = collectibles running ++ [c]
    /\ Collectible.radius c = 12
    /\ randomCalls (spawnCollectible evenDraws running)
       = (randomCalls running + 6)%nat.
Proof.
  destruct (@collectible_spawn evenDraws running evenDraws_in_range)
    as (c & A & _ & B & _ & _ & C).
  exists c. split; [exact A |]. split; [exact B | exact C].
Defined.

Example collectible_spawned_with_even_draws :
  map (fun c => (Collectible.x c, Collectible.y c, Collectible.type c))
    (collectibles (spawnCollectible evenDraws running))
  = [(Num.fin 400, Num.fin 630, ItemType.points)].
Proof. vm_compute. reflexivity. Qed.

(** ** A black hole out of reach *)

Lemma gravity_out_of_reach_witness :
  gravity 1 [holeAt 700 300 40 200] running (craftAt 400 300)
  = Continue running (craftAt 400 300).
Proof.
  apply gravity_out_of_reach.
  constructor; [split; reflexivity | constructor].
Defined.

(** ** A pause of four seconds *)

Lemma time_spent_paused_is_not_simulated_witness :
  let paused :=
    handle evenDraws notModelled1 notModelled1 notModelled2
      (Escape 1100 1100 0) running in
  deltaTime
    (handle evenDraws notModelled1 notModelled1 notModelled2
       (ResumeButton 5000 5016 0) paused)
  = Math_min (5016 - 5000) 50.
Proof.
  pose proof (@time_spent_paused_is_not_simulated evenDraws notModelled1
                notModelled1 notModelled2 running 1100 1100 0 5000 5016 0
                eq_refl eq_refl) as (_ & _ & _ & H).
  exact H.
Defined.

(** ** The coins of a run that collects a points item *)

Lemma the_session_coins_account_for_the_coins_witness :
  let g :=
    run evenDraws notModelled1 notModelled1 notModelled2
      (openingFrames ++ laterFrames)
      (startGame evenDraws notModelled1 notModelled1 notModelled2
         1000 1000 0 constructed) in
  (coins g =? coins constructed + sessionCoins g) = true
  /\ coins constructed <= coins g.
Proof.
  pose proof (@the_session_coins_account_for_the_coins evenDraws
                notModelled1 notModelled1 notModelled2 1000 1000 0
                constructed (openingFrames ++ laterFrames)
                evenDraws_in_range eq_refl eq_refl)
    as (_ & _ & _ & H2 & _ & H1).
  split; [apply H1; vm_compute; reflexivity | exact H2].
Defined.

(** ** A visit to the shop *)

Lemma the_shop_charges_every_ship_once_witness :
  exists bought,
    unlockedShips (clickShipCards [balanced; balanced; tank; speeder] wealthy)
    = unlockedShips wealthy ++ bought
    /\ (coins (game (clickShipCards [balanced; balanced; tank; speeder]
                       wealthy))
        + totalPrice bought =? coins (game wealthy)) = true.
Proof.
  destruct (@the_shop_charges_every_ship_once
              [balanced; balanced; tank; speeder] wealthy
              eq_refl eq_refl eq_refl)
    as (bought & A & _ & _ & _ & _ & _ & _ & B).
  exists bought. split; [exact A | exact B].
Defined.

Example shop_visit :
  let h := clickShipCards [balanced; balanced; tank; speeder] wealthy in
  unlockedShips h = [speeder; balanced; tank]
  /\ coins (game h) = 0 /\ selectedShip (game h) = speeder
  /\ clickShipCard tank (clickShipCard balanced
                           {| game := set_coins 999 constructed;
                              unlockedShips := [speeder] |})
     = {| game := set_selectedShip balanced (set_coins 599 constructed);
          unlockedShips := [speeder; balanced] |}.
Proof. vm_compute. repeat split; reflexivity. Qed.

Lemma a_run_is_flown_with_an_owned_ship_witness :
  selectedShip (game staleSelection) = tank
  /\ selectedShip
       (game (clickShipCards [] (updateShipCardsUI staleSelection)))
     = speeder
  /\ includes
       (unlockedShips (clickShipCards [] (updateShipCardsUI staleSelection)))
       (selectedShip
          (game (clickShipCards [] (updateShipCardsUI staleSelection))))
     = true.
Proof.
  split; [reflexivity |]. split; [reflexivity |].
  assert (N : (0 < length (unlockedShips staleSelection))%nat)
    by (vm_compute; lia).
  exact (proj1 (@a_run_is_flown_with_an_owned_ship [] staleSelection 0 N)).
Defined.

(** ** A frame with the pilot off *)

Lemma only_the_user_moves_the_pointer_witness :
  input
    (handle evenDraws notModelled1 notModelled1 notModelled2
       (Frame (Num.fin 1016.67) 0) running)
  = input running.
Proof.
  exact (@only_the_user_moves_the_pointer evenDraws notModelled1
           notModelled1 notModelled2 (Frame (Num.fin 1016.67) 0) running
           eq_refl).
Defined.

(** ** Inside a horizon after a hit *)

Lemma a_hit_protects_for_39_events_witness :
  insideHorizon (holeAt 410 300 40 200) justHit = true
  /\ hp (run evenDraws notModelled1 notModelled1 notModelled2
           (framesFrom 1 39) engulfed)
     = hp engulfed.
Proof.
  split; [vm_compute; reflexivity |].
  assert (L : (length (framesFrom 1 39) <= 39)%nat) by (vm_compute; lia).
  exact (@a_hit_protects_for_39_events evenDraws notModelled1 notModelled1
           notModelled2 engulfed justHit (framesFrom 1 39)
           eq_refl eq_refl eq_refl L).
Defined.

(** ** A bullet far from the ship *)

Lemma bullets_left_are_alive_witness :
  Forall (fun b' =>
            keptBullet running b' = true
            /\ exists b, In b [bulletAt 100 100] /\ b' = moveBullet 1 b)
    [moveBullet 1 (bulletAt 100 100)]
  /\ Nat.le (length [moveBullet 1 (bulletAt 100 100)])
       (length [bulletAt 100 100]).
Proof.
  assert (E : updateBullets 1 [bulletAt 100 100] running (craftAt 400 300)
              = ([moveBullet 1 (bulletAt 100 100)],
                 Continue running (craftAt 400 300)))
    by (vm_compute; reflexivity).
  exact (@bullets_left_are_alive 1 [bulletAt 100 100] running
           (craftAt 400 300) _ _ _ E).
Defined.

(** ** A shield at multiplier 1 *)

Lemma a_pickup_is_worth_50_to_1000_witness :
  let g' :=
    fst (collectItem evenDraws (itemAt 400 300 ItemType.shield) running
           (craftAt 400 300)) in
  score g' = 50
  /\ score running + 50 <= score g' /\ score g' <= score running + 1000.
Proof.
  split; [reflexivity |].
  pose proof (@a_pickup_is_worth_50_to_1000 evenDraws
                (itemAt 400 300 ItemType.shield) running (craftAt 400 300)
                eq_refl (conj eq_refl eq_refl)) as (A & B & _).
  split; [exact A | exact B].
Defined.

(** ** A bullet fired from the right of the ship *)

Lemma a_bullet_is_aimed_at_the_ship_witness :
  exists b,
    bullets (spawnBullet (Some (craftAt 400 300)) (holeAt 410 300 40 200)
               running)
    = bullets running ++ [b]
    /\ Bullet.vx b <= 0 /\ 0 <= Bullet.vy b.
Proof.
  assert (D : 0 < Math_sqrt
                    ((Player.x (craftAt 400 300)
                      - BlackHole.x (holeAt 410 300 40 200))
                     * (Player.x (craftAt 400 300)
                        - BlackHole.x (holeAt 410 300 40 200))
                     + (Player.y (craftAt 400 300)
                        - BlackHole.y (holeAt 410 300 40 200))
                       * (Player.y (craftAt 400 300)
                          - BlackHole.y (holeAt 410 300 40 200))))
    by (vm_compute; reflexivity).
  destruct (@a_bullet_is_aimed_at_the_ship (holeAt 410 300 40 200) running
              (craftAt 400 300) eq_refl eq_refl eq_refl eq_refl D)
    as (b & A & _ & _ & _ & V & W & _).
  exists b. split; [exact A |]. split; [exact (V eq_refl) | exact (W eq_refl)].
Defined.

Example bullet_fired_from_the_right :
  bullets (spawnBullet (Some (craftAt 400 300)) (holeAt 410 300 40 200)
             running)
  = [{| Bullet.x := 410; Bullet.y := 300;
        Bullet.vx := Num.fin (-4.3); Bullet.vy := 0;
        Bullet.radius := 6; Bullet.life := 300 |}].
Proof. vm_compute. reflexivity. Qed.
